(** * Shallow embedding of the simulated-trading ledger

    The development follows the Python sources:
      - [src/leaderboard.py]: [_clamp_top_n], [compile_trigger_regex],
        [compute_leaderboard], [format_leaderboard], [cooldown_allow];
      - [src/database.py]: the entities, [DB.__init__], [DB._migrate] and
        [DB.get_or_create_user];
      - [src/migrate.py]: the migration script;
      - [src/web_server.py]: the [trade] handler (the order execution gate),
        the session handlers, [get_assets] and [get_kline].

    Python [float] is IEEE binary64 and is modelled by the kernel's primitive
    floats, so that every definition evaluates as the interpreter does;
    Python [int] is [Z]; [str] is [string] (UTF-8 bytes, whose lexicographic
    order is the code-point order Python compares by); [dict] and [set] are
    stdpp's [gmap] and [gset], except where insertion order matters. *)

From Stdlib Require Import ZArith Floats Lia Bool Ascii String List.
From Stdlib Require DecimalString.
From stdpp Require Import base option list gmap sets strings sorting.

Set Warnings "-inexact-float".

Local Open Scope Z_scope.

(** ** Exceptions *)

(** The [detail] of the HTTP errors of [trade]: "Market is closed",
    "User not found", "Invalid symbol", "Amount must be positive",
    f"Insufficient balance. Need {cost:.2f}" (the float that is formatted is
    kept), "Insufficient holding" and "Invalid action". *)
Inductive detail : Type :=
  | MarketIsClosed
  | UserNotFound
  | InvalidSymbol
  | AmountMustBePositive
  | InsufficientBalanceNeed (cost : float)
  | InsufficientHolding
  | InvalidAction.

(** The exceptions that can leave the modelled functions:
    [InvalidRequestError] and [OperationalError] are SQLAlchemy's, and
    [Exception] stands for an exception of any other class, by the name of
    the class. *)
Inductive exn : Type :=
  | OverflowError
  | KeyError (key : string)
  | HTTPException (status_code : Z) (d : detail)
  | InvalidRequestError
  | OperationalError
  | Exception (class_name : string).

(** The outcome of a call: a value, or a raised exception. *)
Inductive result (A : Type) : Type :=
  | Ok (a : A)
  | Raise (e : exn).
Arguments Ok {A} a.
Arguments Raise {A} e.

(** ** Python numbers and lists *)

Module PyNum.


(** Truth value of a float: [bool(x)] is [x != 0.0]. *)
Definition float_truthy (x : float) : bool := negb (x =? 0)%float.


End PyNum.

Module PyList.

(** [list.sort] and [sorted] are stable and compare with [<] only. They are
    modelled by the stable insertion sort: [x] is put in front of the first
    element that is not smaller than it. On keys that [<] orders strictly
    and totally up to equivalence every stable sort returns this list. *)
Fixpoint insert {A : Type} (lt : A -> A -> bool) (x : A) (l : list A)
    : list A :=
  match l with
  | [] => [x]
  | y :: l' => if lt y x then y :: insert lt x l' else x :: y :: l'
  end.

Definition sort {A : Type} (lt : A -> A -> bool) (l : list A) : list A :=
  foldr (insert lt) [] l.

(** [l.sort(key=f)]: the elements are compared by their keys. *)
Definition sort_by {A K : Type} (key : A -> K) (lt : K -> K -> bool)
    (l : list A) : list A :=
  sort (fun x y => lt (key x) (key y)) l.

(** [l[:n]]: the first [n] elements, and for a negative [n] all but the
    last [-n]. *)
Definition slice_to {A : Type} (n : Z) (l : list A) : list A :=
  if 0 <=? n then take (Z.to_nat n) l
  else take (length l - Z.to_nat (- n)) l.

End PyList.

(** A [dict] read in insertion order: the pairs in the order in which their
    keys were first set. *)
Module PyDict.

Definition t (V : Type) : Type := list (string * V).

Fixpoint get {V : Type} (k : string) (d : t V) : option V :=
  match d with
  | [] => None
  | (k', v) :: d' => if String.eqb k k' then Some v else get k d'
  end.

(** [d[k] = v]: an existing key keeps its place. *)
Fixpoint set {V : Type} (k : string) (v : V) (d : t V) : t V :=
  match d with
  | [] => [(k, v)]
  | (k', v') :: d' =>
      if String.eqb k k' then (k, v) :: d' else (k', v') :: set k v d'
  end.

(** [list(d.values())]. *)
Definition values {V : Type} (d : t V) : list V := map snd d.

Definition keys {V : Type} (d : t V) : list string := map fst d.

End PyDict.

(** ** src/leaderboard.py *)

Module Leaderboard.

(** [_clamp_top_n]: [max(1, min(50, int(top_n)))]; [int] of an [int] is
    the identity. *)
Definition _clamp_top_n (top_n : Z) : Z := Z.max 1 (Z.min 50 top_n).

(** *** The trigger pattern

    [re] is Python's library. [re.compile] is a parameter of the model; it
    returns the compiled pattern, raises [re.error], or raises an exception
    of another class. Compiled patterns are
    regular expressions over characters with the two anchors, and
    [matches s r i j] says that [r] matches the text [s] from position [i]
    to position [j]. Without flags [^] is the start of the text, [$] its end
    or the place before a final newline, and [.] is any character but a
    newline. *)
Inductive regex : Type :=
  | Empty
  | Char (c : ascii)
  | AnyChar
  | Bol
  | Eol
  | Cat (r1 r2 : regex)
  | Alt (r1 r2 : regex)
  | Star (r : regex).

Definition newline : ascii := "010"%char.

Inductive matches (s : string) : regex -> nat -> nat -> Prop :=
  | m_empty i : matches s Empty i i
  | m_char c i : String.get i s = Some c -> matches s (Char c) i (S i)
  | m_any c i :
      String.get i s = Some c -> c <> newline -> matches s AnyChar i (S i)
  | m_bol : matches s Bol 0 0
  | m_eol_end : matches s Eol (String.length s) (String.length s)
  | m_eol_nl i :
      S i = String.length s -> String.get i s = Some newline ->
      matches s Eol i i
  | m_cat r1 r2 i j k :
      matches s r1 i j -> matches s r2 j k -> matches s (Cat r1 r2) i k
  | m_alt_l r1 r2 i j : matches s r1 i j -> matches s (Alt r1 r2) i j
  | m_alt_r r1 r2 i j : matches s r2 i j -> matches s (Alt r1 r2) i j
  | m_star_nil r i : matches s (Star r) i i
  | m_star_cons r i j k :
      matches s r i j -> matches s (Star r) j k -> matches s (Star r) i k.

(** [pattern.search(s)] succeeds when the pattern matches somewhere in [s];
    [match] and [fullmatch] are the cases [i = 0] and [j = len(s)]. *)
Definition search (r : regex) (s : string) : Prop :=
  exists i j, matches s r i j.

(** [NON_MATCHING_REGEX = re.compile(r"$.^")]. *)
Definition NON_MATCHING_REGEX : regex := Cat Eol (Cat AnyChar Bol).

(** What [re.compile] does with a text: besides [re.error], CPython
    raises [OverflowError] for a repetition count that is too large, as in
    [a{4294967296}], and [RecursionError] for a pattern that is nested too
    deep. *)
Inductive compiled : Type :=
  | Pattern (r : regex)
  | ReError
  | Raises (e : exn).

Section Trigger.

(** [str.strip] and [re.compile], from Python's library. *)
Variable strip : string -> string.
Variable re_compile : string -> compiled.

(** [normalize_trigger_text]: [""] for [None], the stripped [str]
    otherwise. *)
Definition normalize_trigger_text (s : option string) : string :=
  match s with
  | None => EmptyString
  | Some s => strip s
  end.

(** [compile_trigger_regex]: the pattern is [None] or an object given by
    its [str]; the [try] block turns [re.error] into the pattern that
    matches nothing, and no other exception. *)
Definition compile_trigger_regex (pattern : option string) : result regex :=
  let text := match pattern with
              | None => EmptyString
              | Some p => strip p
              end in
  if String.eqb text EmptyString then Ok NON_MATCHING_REGEX
  else match re_compile text with
       | Pattern r => Ok r
       | ReError => Ok NON_MATCHING_REGEX
       | Raises e => Raise e
       end.

(** A stand-in for [re.compile] that answers three texts as CPython does:
    [(] with [re.error], [a{4294967296}] with [OverflowError], and [a]
    with its pattern; its answer to any other text stands for nothing. *)
Definition re_compile_sample (text : string) : compiled :=
  if String.eqb text "(" then ReError
  else if String.eqb text "a{4294967296}" then Raises OverflowError
  else if String.eqb text "a" then Pattern (Char "a"%char)
  else ReError.

End Trigger.

(** *** The leaderboard *)

(** One record of [by_user]; [M] is the type of ["missing_symbols"], a set
    while the holdings are read and a sorted list in the returned entries. *)
Record entry (M : Type) : Type := mk_entry {
  user_id : string;
  balance : float;
  holdings_value : float;
  total : float;
  missing_symbols : M
}.
Arguments mk_entry {M} _ _ _ _ _.
Arguments user_id {M} _.
Arguments balance {M} _.
Arguments holdings_value {M} _.
Arguments total {M} _.
Arguments missing_symbols {M} _.

Abbreviation aggregate := (entry (gset string)).

(** First loop: one fresh record per row of [users]. *)
Definition seed_user (by_user : PyDict.t aggregate) (row : string * float)
    : PyDict.t aggregate :=
  let '(uid, cash) := row in
  PyDict.set uid (mk_entry uid cash 0%float cash ∅) by_user.

(** [qty <= 0 or abs(qty) <= 0.0001]. *)
Definition is_dust (qty : float) : bool :=
  (qty <=? 0)%float || (abs qty <=? 0.0001)%float.

(** The price used for a symbol and the symbols recorded as missing. *)
Definition price_of (prices : gmap string float) (sym : string)
    (missing : gset string) : float * gset string :=
  match prices !! sym with
  | Some p => (p, missing)
  | None => (0%float, {[ sym ]} ∪ missing)
  end.

(** The body of the second loop for a row of a known user that is not
    skipped. *)
Definition add_value (prices : gmap string float) (sym : string)
    (qty : float) (e : aggregate) : aggregate :=
  let '(price, missing) := price_of prices sym (missing_symbols e) in
  let value := (qty * price)%float in
  let hv := (holdings_value e + value)%float in
  mk_entry (user_id e) (balance e) hv (balance e + hv)%float missing.

(** Second loop: one row of [holdings]. *)
Definition add_holding (prices : gmap string float)
    (by_user : PyDict.t aggregate) (row : string * string * float)
    : PyDict.t aggregate :=
  let '(uid, sym, qty) := row in
  match PyDict.get uid by_user with
  | None => by_user
  | Some e =>
      if is_dust qty then by_user
      else PyDict.set uid (add_value prices sym qty e) by_user
  end.

(** [by_user] after both loops. *)
Definition aggregates (users : list (string * float))
    (holdings : list (string * string * float))
    (prices : gmap string float) : PyDict.t aggregate :=
  foldl (add_holding prices) (foldl seed_user [] users) holdings.

(** The sort key [(-total, user_id)] and the order of such tuples: the first
    components decide unless they are equal. *)
Definition sort_key {M : Type} (e : entry M) : float * string :=
  ((- total e)%float, user_id e).

Definition key_lt (k1 k2 : float * string) : bool :=
  if (k1.1 =? k2.1)%float then String.ltb k1.2 k2.2
  else (k1.1 <? k2.1)%float.

(** [sorted(missing)]. *)
Definition sorted_symbols (missing : gset string) : list string :=
  PyList.sort String.ltb (elements missing).

Definition finish (e : aggregate) : entry (list string) :=
  mk_entry (user_id e) (balance e) (holdings_value e) (total e)
    (sorted_symbols (missing_symbols e)).

Definition compute_leaderboard (users : list (string * float))
    (holdings : list (string * string * float))
    (prices : gmap string float) (top_n : Z) : list (entry (list string)) :=
  let limit := _clamp_top_n top_n in
  let by_user := aggregates users holdings prices in
  let entries := PyDict.values by_user in
  let entries := PyList.sort_by sort_key key_lt entries in
  let entries := PyList.slice_to limit entries in
  map finish entries.


End Leaderboard.

(** ** src/database.py *)

Module Database.

Inductive OrderType : Type := BUY | SELL.

Inductive OrderStatus : Type := PENDING | FILLED | CANCELLED.

(** Rows of [users], [user_holdings] and [orders]. Timestamps are seconds
    on the corrected clock. *)
Record User : Type := mk_User {
  user_id : string;
  password_hash : option string;
  balance : float
}.

Record UserHolding : Type := mk_UserHolding {
  h_id : Z;
  h_user_id : string;
  h_symbol : string;
  h_amount : float
}.

Record Order : Type := mk_Order {
  o_id : Z;
  o_user_id : string;
  o_symbol : string;
  o_order_type : OrderType;
  o_price : option float;
  o_amount : float;
  o_status : OrderStatus;
  o_created_at : Z
}.

(** *** The live schema

    What [_migrate] reads and writes of an SQLite database: the columns of
    each table and the indexes. SQLite compares the names of tables, columns
    and indexes without regard to the case of ASCII letters. *)
Record index : Type := mk_index {
  idx_name : string;
  idx_table : string;
  idx_columns : list string
}.

Record schema : Type := mk_schema {
  tables : list (string * list string);
  indexes : list index
}.

Definition lower_ascii (c : ascii) : ascii :=
  let n := nat_of_ascii c in
  if ((65 <=? n)%nat && (n <=? 90)%nat)%bool then ascii_of_nat (n + 32)
  else c.

Fixpoint lower (s : string) : string :=
  match s with
  | EmptyString => EmptyString
  | String c s' => String (lower_ascii c) (lower s')
  end.

Definition nocase_eqb (a b : string) : bool :=
  String.eqb (lower a) (lower b).

Fixpoint find_table (t : string) (ts : list (string * list string))
    : option (list string) :=
  match ts with
  | [] => None
  | (n, cols) :: ts' => if nocase_eqb t n then Some cols else find_table t ts'
  end.

Definition has_column (c : string) (cols : list string) : bool :=
  existsb (nocase_eqb c) cols.

Definition has_index (n : string) (ixs : list index) : bool :=
  existsb (fun ix => nocase_eqb n (idx_name ix)) ixs.

(** The errors of the statements [_migrate] executes. *)
Inductive sql_error : Type :=
  | NoSuchTable (t : string)
  | DuplicateColumn (c : string)
  | TableNamed (n : string)
  | NoSuchColumn (t c : string).

(** [PRAGMA table_info(t)]: the column names in [row[1]]; no row for a
    table that does not exist. *)
Definition table_info (t : string) (s : schema) : list string :=
  match find_table t (tables s) with
  | Some cols => cols
  | None => []
  end.

Fixpoint add_to_table (t c : string) (ts : list (string * list string))
    : list (string * list string) :=
  match ts with
  | [] => []
  | (n, cols) :: ts' =>
      if nocase_eqb t n then (n, cols ++ [c]) :: ts'
      else (n, cols) :: add_to_table t c ts'
  end.

(** [ALTER TABLE t ADD COLUMN c VARCHAR]. *)
Definition alter_add_column (t c : string) (s : schema)
    : schema + sql_error :=
  match find_table t (tables s) with
  | None => inr (NoSuchTable t)
  | Some cols =>
      if has_column c cols then inr (DuplicateColumn c)
      else inl (mk_schema (add_to_table t c (tables s)) (indexes s))
  end.

(** [CREATE INDEX IF NOT EXISTS n ON t (cols)]. *)
Definition create_index_if_not_exists (n t : string) (cols : list string)
    (s : schema) : schema + sql_error :=
  match find_table t (tables s) with
  | None => inr (NoSuchTable t)
  | Some tcols =>
      if bool_decide (is_Some (find_table n (tables s))) then
        inr (TableNamed n)
      else if has_index n (indexes s) then inl s
      else match List.find (fun c => negb (has_column c tcols)) cols with
           | Some c => inr (NoSuchColumn t c)
           | None =>
               inl (mk_schema (tables s) (indexes s ++ [mk_index n t cols]))
           end
  end.

(** *** [DB._migrate]

    The state is the schema together with the warnings logged so far. *)
Definition warning : Type := string * sql_error.

(** The local [column_exists]: [row[1] == column] is Python's equality. *)
Definition column_exists (s : schema) (table column : string) : bool :=
  existsb (String.eqb column) (table_info table s).

(** One "check and add" block; a failed [ALTER] is logged under
    f"Migration error ({table}.{column})". *)
Definition column_label (table column : string) : string :=
  ("Migration error (" ++ table ++ "." ++ column ++ ")")%string.

Definition add_column_step (table column : string)
    (st : schema * list warning) : schema * list warning :=
  let '(s, log) := st in
  if column_exists s table column then st
  else match alter_add_column table column s with
       | inl s' => (s', log)
       | inr e => (s, log ++ [(column_label table column, e)])
       end.

Definition index_definitions : list (string * string * list string) :=
  [ ("ix_market_history_symbol_ts", "market_history", ["symbol"; "timestamp"]);
    ("ix_orders_user_status", "orders", ["user_id"; "status"]);
    ("ix_orders_user_created", "orders", ["user_id"; "created_at"]);
    ("ix_user_holdings_user_symbol", "user_holdings", ["user_id"; "symbol"]);
    ("ix_market_news_timestamp", "market_news", ["timestamp"]) ]%string.

(** The body of the loop over [index_definitions]. *)
Definition create_index_step (st : schema * list warning)
    (d : string * string * list string) : schema * list warning :=
  let '(s, log) := st in
  let '(idx_name, table, columns) := d in
  match create_index_if_not_exists idx_name table columns s with
  | inl s' => (s', log)
  | inr e => (s, log ++ [(("Index creation " ++ idx_name)%string, e)])
  end.

Definition _migrate (s : schema) : schema * list warning :=
  let st := (s, []) in
  let st := add_column_step "orders" "symbol" st in
  let st := add_column_step "market_history" "symbol" st in
  let st := add_column_step "users" "password_hash" st in
  foldl create_index_step st index_definitions.

End Database.

(** ** src/web_server.py *)

Module WebServer.

Import Database.

(** The request body. *)
Record TradeModel : Type := mk_TradeModel {
  symbol : string;
  amount : float;
  price : option float;
  action : string
}.

(** What the handler reads of the [Market] object. *)
Record Market : Type := mk_Market {
  is_open : bool;
  symbols : gset string;
  prices : gmap string float
}.

(** The rows the handler reads and writes. *)
Record Db : Type := mk_Db {
  users : list User;
  holdings : list UserHolding;
  orders : list Order
}.

(** [session.query(User).filter_by(user_id=user_id).first()]. *)
Definition query_user (db : Db) (uid : string) : option User :=
  List.find (fun u => String.eqb (user_id u) uid) (users db).

(** [session.query(UserHolding).filter_by(user_id=..., symbol=...).first()]. *)
Definition query_holding (db : Db) (uid sym : string)
    : option UserHolding :=
  List.find
    (fun h => String.eqb (h_user_id h) uid && String.eqb (h_symbol h) sym)
    (holdings db).

(** The largest rowid of SQLite, and the largest id of a list of orders
    that starts with [o]. *)
Definition max_rowid : Z := 9223372036854775807.

Definition largest_order_id (o : Order) (l : list Order) : Z :=
  foldr (fun o' m => Z.max (o_id o') m) (o_id o) l.

(** [data.price if data.price else market.prices[symbol]]. *)
Definition est_price (market : Market) (sym : string) (data : TradeModel)
    : result float :=
  let from_market :=
    match prices market !! sym with
    | Some p => Ok p
    | None => Raise (KeyError sym)
    end in
  match price data with
  | Some p => if PyNum.float_truthy p then Ok p else from_market
  | None => from_market
  end.

(** [cost = est_price * data.amount * 1.001]. *)
Definition estimated_cost (market : Market) (sym : string)
    (data : TradeModel) : result float :=
  match est_price market sym data with
  | Ok p => Ok (p * amount data * 1.001)%float
  | Raise e => Raise e
  end.

(** The branches on [data.action]. *)
Definition check_action (market : Market) (db : Db) (uid sym : string)
    (user : User) (data : TradeModel) : result unit :=
  if String.eqb (action data) "buy" then
    match estimated_cost market sym data with
    | Ok cost =>
        if (balance user <? cost)%float then
          Raise (HTTPException 400 (InsufficientBalanceNeed cost))
        else Ok tt
    | Raise e => Raise e
    end
  else if String.eqb (action data) "sell" then
    match query_holding db uid sym with
    | None => Raise (HTTPException 400 InsufficientHolding)
    | Some holding =>
        if (h_amount holding <? amount data)%float then
          Raise (HTTPException 400 InsufficientHolding)
        else Ok tt
    end
  else Raise (HTTPException 400 InvalidAction).

Section Trade.

(** [str.upper]; the external matcher ([market.match_single_order], which
    settles the order in the database and may raise); the clock behind the
    default of [created_at]; and SQLite's choice of a rowid when the largest
    one is in use: an id it finds at random, or none ([SQLITE_FULL]). *)
Variable upper : string -> string.
Variable match_single_order : Db -> Z -> Db * result unit.
Variable get_china_time : Z.
Variable random_rowid : Db -> option Z.

(** The checks of [trade] up to the creation of the order. *)
Definition validate (market : Market) (db : Db) (uid : string)
    (data : TradeModel) : result string :=
  if negb (is_open market) then Raise (HTTPException 400 MarketIsClosed)
  else match query_user db uid with
  | None => Raise (HTTPException 404 UserNotFound)
  | Some user =>
      let sym := upper (symbol data) in
      if negb (bool_decide (sym ∈ symbols market)) then
        Raise (HTTPException 400 InvalidSymbol)
      else if (amount data <=? 0)%float then
        Raise (HTTPException 400 AmountMustBePositive)
      else match check_action market db uid sym user data with
           | Ok tt => Ok sym
           | Raise e => Raise e
           end
  end.

(** The primary key that [session.commit()] stores a new order under.
    [id] is the rowid of the table, which SQLite chooses: 1 in an empty
    table, else one more than the largest id of the table, and when that is
    the largest integer an id found at random; the insert fails when none
    is found. *)
Definition next_order_id (db : Db) : result Z :=
  match orders db with
  | [] => Ok 1
  | o :: l =>
      if largest_order_id o l <? max_rowid then Ok (largest_order_id o l + 1)
      else match random_rowid db with
           | Some id => Ok id
           | None => Raise OperationalError
           end
  end.

(** The body of the success response: the order id and its status after
    the matcher ran. *)
Record response : Type := mk_response {
  order_id : Z;
  order_status : OrderStatus
}.

(** [trade]: the database after the call and its outcome. An exception of
    the checks leaves the handler before anything is added to the session.
    After them the order is committed, the matcher is called with its id,
    and [session.refresh(order)] reads the row again: it raises
    [InvalidRequestError] when the row is gone. *)
Definition trade (market : Market) (db : Db) (uid : string)
    (data : TradeModel) : Db * result response :=
  match validate market db uid data with
  | Raise e => (db, Raise e)
  | Ok sym =>
      let order_type :=
        if String.eqb (action data) "buy" then BUY else SELL in
      match next_order_id db with
      | Raise e => (db, Raise e)
      | Ok id =>
          let order :=
            mk_Order id uid sym order_type (price data) (amount data)
              PENDING get_china_time in
          let db1 := mk_Db (users db) (holdings db) (orders db ++ [order]) in
          let '(db2, matched) := match_single_order db1 id in
          match matched with
          | Raise e => (db2, Raise e)
          | Ok _ =>
              match List.find (fun o => Z.eqb (o_id o) id) (orders db2) with
              | Some o => (db2, Ok (mk_response id (o_status o)))
              | None => (db2, Raise InvalidRequestError)
              end
          end
      end
  end.

End Trade.

End WebServer.

(** ** The order of binary64 values

    The comparisons of primitive floats are specified through [SFcompare].
    Away from NaN it is the lexicographic order of [rank]: the class of the
    value, then its exponent, then its mantissa, the last two negated for
    negative values. The rank given to NaN is never compared. *)

Module FloatRank.

Local Open Scope Z_scope.

Definition rank (x : spec_float) : Z * Z * Z :=
  match x with
  | S754_nan => (0, 0, 0)
  | S754_zero _ => (0, 0, 0)
  | S754_infinity false => (2, 0, 0)
  | S754_infinity true => (-2, 0, 0)
  | S754_finite false m e => (1, e, Zpos m)
  | S754_finite true m e => (-1, - e, Zneg m)
  end.

(** Strict lexicographic order of triples. *)
Definition lt3 (a b : Z * Z * Z) : Prop :=
  a.1.1 < b.1.1 \/
  (a.1.1 = b.1.1 /\ (a.1.2 < b.1.2 \/ (a.1.2 = b.1.2 /\ a.2 < b.2))).

Definition neg3 (a : Z * Z * Z) : Z * Z * Z := (- a.1.1, - a.1.2, - a.2).

(** The rank of a float, and the floats that are not NaN. *)
Definition frank (x : float) : Z * Z * Z := rank (Prim2SF x).

Definition ordered (x : float) : Prop := (x =? x)%float = true.

End FloatRank.

(** ** The balance check as claimed, and example data *)

Module GateSpec.

Import Database WebServer.

(** The claimed balance check, in the words of the specification: the
    reference price is the limit price whenever one is supplied, and a
    rejection reports the shortfall [cost - balance]. *)
Definition claimed_reference_price (market : Market) (sym : string)
    (data : TradeModel) : result float :=
  match price data with
  | Some p => Ok p
  | None =>
      match prices market !! sym with
      | Some p => Ok p
      | None => Raise (KeyError sym)
      end
  end.

Definition claimed_buy_check (market : Market) (sym : string) (user : User)
    (data : TradeModel) : result unit :=
  match claimed_reference_price market sym data with
  | Ok p =>
      let cost := (p * amount data * (1 + 0.001))%float in
      if (balance user <? cost)%float then
        Raise (HTTPException 400
                 (InsufficientBalanceNeed (cost - balance user)%float))
      else Ok tt
  | Raise e => Raise e
  end.

(** The reference price of the handler: the limit price when there is one
    and it is not zero, the market's price of the symbol otherwise. *)
Definition reference_price (limit market_price : option float)
    : option float :=
  match limit with
  | Some p => if (p =? 0)%float then market_price else Some p
  | None => market_price
  end.

(** A request with the given action, amount and limit price. *)
Definition buy (sym : string) (amt : float) (limit : option float)
    : TradeModel := mk_TradeModel sym amt limit "buy".

Definition with_price (data : TradeModel) (limit : option float)
    : TradeModel :=
  mk_TradeModel (symbol data) (amount data) limit (action data).

(** [str.upper] on ASCII letters, a matcher that settles nothing, and a
    database engine that finds no rowid at random. *)
Definition upper_ascii (c : ascii) : ascii :=
  let n := nat_of_ascii c in
  if ((97 <=? n)%nat && (n <=? 122)%nat)%bool then ascii_of_nat (n - 32)
  else c.

Fixpoint ascii_upper (s : string) : string :=
  match s with
  | EmptyString => EmptyString
  | String c s' => String (upper_ascii c) (ascii_upper s')
  end.

Definition idle_matcher (db : Db) (id : Z) : Db * result unit :=
  (db, Ok tt).

Definition no_random_rowid (db : Db) : option Z := None.

(** The example ledger: one user with 50 in cash, and a market that quotes
    BTC at 100. *)
Definition ex_market : Market :=
  mk_Market true {[ "BTC"%string ]} {[ "BTC"%string := 100%float ]}.

Definition ex_user : User := mk_User "u1" None 50.

Definition ex_db : Db :=
  mk_Db [ex_user] [mk_UserHolding 1 "u1" "BTC" 2] [].

(** A request that reaches the branch on the action: the market is open,
    the user exists, the symbol is tradable and the amount is positive. *)
Definition reaches_check (upper : string -> string) (market : Market)
    (db : Db) (uid : string) (data : TradeModel) (user : User) : Prop :=
  is_open market = true /\
  query_user db uid = Some user /\
  upper (symbol data) ∈ symbols market /\
  (0 <? amount data)%float = true.

End GateSpec.

(** ** Orders used to state that a list is sorted *)

Module SortSpec.

(** The elements of a list on which [lt] is asymmetric and its complement
    is transitive come out with no later element smaller than an earlier
    one. *)
Definition weak_order_on {A : Type} (lt : A -> A -> bool) (l : list A)
    : Prop :=
  (forall x y, x ∈ l -> y ∈ l -> lt x y = true -> lt y x = false) /\
  (forall x y z, x ∈ l -> y ∈ l -> z ∈ l ->
     lt y x = false -> lt z y = false -> lt z x = false).

Definition not_after {A : Type} (lt : A -> A -> bool) (x y : A) : Prop :=
  lt y x = false.

End SortSpec.

(** ** The order of the leaderboard, and example data *)

Module LeaderboardSpec.

Import Leaderboard.

(** [a] ranks before [b]: its total is larger, or the totals are equal and
    its user id is smaller. *)
Definition ranks_before {M : Type} (a b : entry M) : Prop :=
  (total b <? total a)%float = true \/
  ((total a =? total b)%float = true /\
   String.ltb (user_id a) (user_id b) = true).

(** The entries of all users in the order of the sort: the list that
    [compute_leaderboard] cuts to its limit. *)
Definition ranking (users : list (string * float))
    (holdings : list (string * string * float))
    (prices : gmap string float) : list (entry (list string)) :=
  map finish
    (PyList.sort_by sort_key key_lt
       (PyDict.values (aggregates users holdings prices))).

(** The comparison of two records in the sort. *)
Definition entry_lt (a b : aggregate) : bool :=
  key_lt (sort_key a) (sort_key b).

(** The place of a record in the order: the rank of its total and its
    user id; a larger rank comes first. *)
Definition place {M : Type} (e : entry M) : Z * Z * Z * string :=
  (FloatRank.frank (total e), user_id e).

Definition place_lt (p q : Z * Z * Z * string) : Prop :=
  FloatRank.lt3 q.1 p.1 \/ (p.1 = q.1 /\ String.ltb p.2 q.2 = true).

(** The total of a record is not NaN. *)
Definition ordered_total {M : Type} (e : entry M) : Prop :=
  FloatRank.ordered (total e).

(** Every record of [by_user] is stored under its own user id, and no key
    occurs twice. *)
Definition well_keyed (d : PyDict.t aggregate) : Prop :=
  NoDup (PyDict.keys d) /\ Forall (fun kv => user_id kv.2 = kv.1) d.

(** A list of strings in strictly ascending order. *)
Definition ascending (l : list string) : Prop :=
  StronglySorted (fun a b => String.ltb a b = true) l.

(** The examples of the specification. *)
Definition ex_users : list (string * float) :=
  [("alice"%string, 1000%float); ("bob"%string, 500%float)].

Definition ex_holdings : list (string * string * float) :=
  [("alice"%string, "BTC"%string, 1%float)].

Definition ex_prices : gmap string float := {[ "BTC"%string := 200%float ]}.

End LeaderboardSpec.

(** ** The steps of the migration, and example schemas *)

Module MigrationSpec.

Import Database.

(** A step of [_migrate] run on its own: the schema it leaves and the
    warnings it logs. *)
Definition step : Type := schema -> schema * list warning.

Definition column_step (table column : string) : step :=
  fun s => add_column_step table column (s, []).

Definition index_step (d : string * string * list string) : step :=
  fun s => create_index_step (s, []) d.

Fixpoint run (fs : list step) (s : schema) : schema * list warning :=
  match fs with
  | [] => (s, [])
  | f :: fs' =>
      let '(s1, w1) := f s in
      let '(s2, w2) := run fs' s1 in
      (s2, w1 ++ w2)
  end.

Definition migration_steps : list step :=
  [ column_step "orders" "symbol";
    column_step "market_history" "symbol";
    column_step "users" "password_hash" ]
  ++ map index_step index_definitions.

(** A step is settled on a schema when it leaves the schema as it is. *)
Definition settled (f : step) (s : schema) (w : list warning) : Prop :=
  f s = (s, w).

(** A step settles itself, and a step [g] keeps a step [f] settled. *)
Definition settles_itself (f : step) : Prop :=
  forall s, settled f (f s).1 (f s).2.

Definition keeps (g f : step) : Prop :=
  forall s w, settled f s w -> settled f (g s).1 w.

Inductive compatible : list step -> Prop :=
  | compatible_nil : compatible []
  | compatible_cons f fs :
      settles_itself f -> Forall (fun g => keeps g f) fs ->
      compatible fs -> compatible (f :: fs).

(** The columns of a table after "add the column if it is absent". *)
Definition add_if_absent (t c : string) (ts : list (string * list string))
    : list (string * list string) :=
  match find_table t ts with
  | Some cols => if has_column c cols then ts else add_to_table t c ts
  | None => ts
  end.


(** A database of an earlier version: [orders] and [market_history] have
    no [symbol] column, [users] has no [password_hash], and there is no
    index. *)
Definition old_schema : schema :=
  mk_schema
    [ ("users", ["user_id"; "balance"]);
      ("user_holdings", ["id"; "user_id"; "symbol"; "amount"]);
      ("market_history",
        ["id"; "timestamp"; "open"; "high"; "low"; "close"; "volume"]);
      ("market_news", ["id"; "timestamp"; "title"; "content"]);
      ("orders",
        ["id"; "user_id"; "order_type"; "price"; "amount"; "status";
         "created_at"]) ]%string
    [].

End MigrationSpec.

(** ** More notions about the leaderboard *)

Module LeaderboardMoreSpec.

Import Leaderboard.

(** The total of a record is its balance plus its holdings value, as
    floats compare; a NaN total equals nothing. *)
Definition settled_total {M : Type} (a : entry M) : Prop :=
  (balance a + holdings_value a =? total a)%float = negb (is_nan (total a)).

(** The rows of [holdings] whose user is listed in [users]. *)
Definition known_rows (users : list (string * float))
    (holdings : list (string * string * float))
    : list (string * string * float) :=
  filter (fun row => row.1.1 ∈ users.*1) holdings.

(** The rows of a user that the second loop counts, and the sum the loop
    forms of their values, in the order of the rows. *)
Definition counted_rows (u : string)
    (holdings : list (string * string * float))
    : list (string * string * float) :=
  List.filter (fun row => String.eqb row.1.1 u && negb (is_dust row.2))
    holdings.

Definition add_row_value (prices : gmap string float) (hv : float)
    (row : string * string * float) : float :=
  (hv + row.2 * default 0%float (prices !! row.1.2))%float.

Definition holdings_sum (prices : gmap string float)
    (rows : list (string * string * float)) : float :=
  foldl (add_row_value prices) 0%float rows.

End LeaderboardMoreSpec.

(** ** [format_leaderboard] *)

Module LeaderboardReport.

Import Leaderboard.

(** An entry as [format_leaderboard] reads it: ["missing_symbols"] may be
    absent. *)
Abbreviation shown_entry := (entry (option (list string))).

(** The entries [compute_leaderboard] returns hold the key. *)
Definition returned (e : entry (list string)) : shown_entry :=
  mk_entry (user_id e) (balance e) (holdings_value e) (total e)
    (Some (missing_symbols e)).

(** [enumerate(l, start)]. *)
Fixpoint enumerate {A : Type} (start : nat) (l : list A) : list (nat * A) :=
  match l with
  | [] => []
  | x :: l' => (start, x) :: enumerate (S start) l'
  end.

(** [str(n)] for a natural number. *)
Definition str_int (n : nat) : string :=
  DecimalString.NilZero.string_of_uint (Nat.to_uint n).

(** The header; [header_meta] is a dict, given by the [str] of its values,
    or anything else ([None]). *)
Definition first_line (header_meta : option (gmap string string)) : string :=
  let first_line := "【总资产排名（按当前市价）】 全局榜"%string in
  match header_meta with
  | Some meta =>
      let meta_parts :=
        match meta !! "updated_at"%string with
        | Some v => [("更新时间: " ++ v)%string]
        | None => []
        end ++
        match meta !! "market_status"%string with
        | Some v => [("市场状态: " ++ v)%string]
        | None => []
        end in
      match meta_parts with
      | [] => first_line
      | _ => (first_line ++ "  " ++ String.concat "  " meta_parts)%string
      end
  | None => first_line
  end.

(** [entry.get("missing_symbols", [])]. *)
Definition listed_symbols (e : shown_entry) : list string :=
  default [] (missing_symbols e).

(** The inner loop: [all_missing_symbols.add(symbol)]. *)
Definition add_symbols (all_missing_symbols : gset string)
    (symbols : list string) : gset string :=
  foldl (fun acc symbol => {[ symbol ]} ∪ acc) all_missing_symbols symbols.

(** The last line. *)
Definition note (all_missing_symbols : gset string) : string :=
  ("注：以下币种暂无价格，按 0 计入："
     ++ String.concat ", " (sorted_symbols all_missing_symbols))%string.

Section Format.

(** [f"{x:.2f}"], Python's formatting of a float with two decimals. *)
Variable format_2f : float -> string.

Definition entry_line (index : nat) (e : shown_entry) : string :=
  (str_int index ++ ". " ++ user_id e
     ++ "  总资产: " ++ format_2f (total e)
     ++ "  现金: " ++ format_2f (balance e)
     ++ "  持仓市值: " ++ format_2f (holdings_value e))%string.

(** The body of the loop over [enumerate(shown, 1)]; the state is [lines]
    and [all_missing_symbols]. *)
Definition add_entry (st : list string * gset string)
    (row : nat * shown_entry) : list string * gset string :=
  let '(lines, all_missing_symbols) := st in
  let '(index, e) := row in
  (lines ++ [entry_line index e],
   add_symbols all_missing_symbols (listed_symbols e)).

(** [lines] when the function returns. *)
Definition lines (entries : list shown_entry) (top_n : Z)
    (header_meta : option (gmap string string)) : list string :=
  let limit := _clamp_top_n top_n in
  let shown := PyList.slice_to limit entries in
  let '(lines, all_missing_symbols) :=
    foldl add_entry ([first_line header_meta], ∅) (enumerate 1 shown) in
  if decide (all_missing_symbols = ∅) then lines
  else lines ++ [note all_missing_symbols].

Definition format_leaderboard (entries : list shown_entry) (top_n : Z)
    (header_meta : option (gmap string string)) : string :=
  String.concat (String Leaderboard.newline EmptyString)
    (lines entries top_n header_meta).

End Format.

End LeaderboardReport.

(** ** src/migrate.py *)

Module Migrate.

Import Database.

(** [column_exists]: [column_name in columns], with the names of
    [PRAGMA table_info] in [columns]. *)
Definition column_exists (s : schema) (table_name column_name : string)
    : bool :=
  bool_decide (column_name ∈ table_info table_name s).

(** [check_and_add_column]: the error of a failed [ALTER] is raised
    again. *)
Definition check_and_add_column (table column : string) (s : schema)
    : schema + sql_error :=
  if negb (column_exists s table column) then alter_add_column table column s
  else inl s.

(** How a run of the script ends. *)
Inductive ending : Type :=
  | NoDatabase
  | BackupFailed
  | Completed
  | Failed (e : sql_error).

(** [migrate]: the database file holds a schema or does not exist, and
    [backup_database] succeeds or not. [sqlite3] opens no transaction for
    an [ALTER TABLE] statement, so a column that was added stays added
    when a later statement fails, and [commit] and [rollback] find nothing
    to do. *)
Definition migrate (db : option schema) (backup : bool)
    : option schema * ending :=
  match db with
  | None => (None, NoDatabase)
  | Some s =>
      if negb backup then (Some s, BackupFailed)
      else
        match check_and_add_column "orders" "symbol" s with
        | inr e => (Some s, Failed e)
        | inl s1 =>
            match check_and_add_column "market_history" "symbol" s1 with
            | inr e => (Some s1, Failed e)
            | inl s2 =>
                match check_and_add_column "users" "password_hash" s2 with
                | inr e => (Some s2, Failed e)
                | inl s3 => (Some s3, Completed)
                end
            end
        end
  end.

End Migrate.

(** ** Databases that the migration brings up to date *)

Module MigrationMoreSpec.

Import Database MigrationSpec.

(** The columns that [_migrate] and the script add. *)
Definition new_columns : list (string * string) :=
  [ ("orders", "symbol"); ("market_history", "symbol");
    ("users", "password_hash") ]%string.

(** The "check and add" step of a table and a column. *)
Definition column_step_of (tc : string * string) : step :=
  column_step tc.1 tc.2.

(** SQLite finds the column in the table. *)
Definition column_present (s : schema) (t c : string) : bool :=
  has_column c (table_info t s).

(** A database as [create_all] leaves an installation of an earlier
    version: the tables of the new columns and of the indexes exist; a new
    column that is there is spelled as the code spells it; the columns of
    the indexes are there or are new columns; and no table has the name of
    an index. *)
Definition ready (s : schema) : Prop :=
  (forall t c, (t, c) ∈ new_columns ->
     is_Some (find_table t (tables s)) /\
     (column_present s t c = true -> column_exists s t c = true)) /\
  (forall n t cols, (n, t, cols) ∈ index_definitions ->
     is_Some (find_table t (tables s)) /\
     find_table n (tables s) = None /\
     forall c, c ∈ cols ->
       column_present s t c = true \/ (t, c) ∈ new_columns).

(** Every table of [s] is a table of [s'] with the same columns followed
    by further ones, and [s'] has no other table. *)
Definition extends (s s' : schema) : Prop :=
  forall t,
    match find_table t (tables s) with
    | Some cols => exists more, find_table t (tables s') = Some (cols ++ more)
    | None => find_table t (tables s') = None
    end.

End MigrationMoreSpec.

(** ** src/database.py: [DB.__init__] *)

Module DatabaseInit.

Import Database MigrationSpec MigrationMoreSpec.

(** The tables of the model classes, with their columns in the order of
    the declarations. *)
Definition model_tables : list (string * list string) :=
  [ ("users", ["user_id"; "password_hash"; "balance"]);
    ("user_holdings", ["id"; "user_id"; "symbol"; "amount"]);
    ("market_history",
      ["id"; "symbol"; "timestamp"; "open"; "high"; "low"; "close";
       "volume"]);
    ("market_news", ["id"; "timestamp"; "title"; "content"]);
    ("orders",
      ["id"; "user_id"; "symbol"; "order_type"; "price"; "amount";
       "status"; "created_at"]) ]%string.

(** [Base.metadata.create_all(engine)], from SQLAlchemy: every table of
    the models that the database does not have is created; a table that
    exists is left as it is. *)
Definition create_table (s : schema) (m : string * list string) : schema :=
  match find_table m.1 (tables s) with
  | Some _ => s
  | None => mk_schema (tables s ++ [m]) (indexes s)
  end.

Definition create_all (s : schema) : schema :=
  foldl create_table s model_tables.

(** What [DB.__init__] does to the database: [create_all], then
    [_migrate]. *)
Definition init (s : schema) : schema * list warning :=
  _migrate (create_all s).

(** A database of this or an earlier version, or a new one: a new column
    that is there is spelled as the code spells it, a table of an index
    that is there has the columns of the index, but for new columns, and
    no table has the name of an index. *)
Definition known (s : schema) : Prop :=
  (forall t c, (t, c) ∈ new_columns ->
     column_present s t c = true -> column_exists s t c = true) /\
  (forall n t cols c, (n, t, cols) ∈ index_definitions -> c ∈ cols ->
     is_Some (find_table t (tables s)) ->
     column_present s t c = true \/ (t, c) ∈ new_columns) /\
  (forall n t cols, (n, t, cols) ∈ index_definitions ->
     find_table n (tables s) = None).

Definition empty_schema : schema := mk_schema [] [].

End DatabaseInit.

(** ** src/database.py: [get_or_create_user] *)

Module DatabaseMore.

Import Database WebServer.

(** [DB.get_or_create_user], on the rows of the database; [user_id] is
    given by its [str]. A new row takes the defaults of the columns: the
    balance 10000.0 and no password hash. *)
Definition get_or_create_user (db : Db) (uid : string) : Db * User :=
  match query_user db uid with
  | Some user => (db, user)
  | None =>
      let user := mk_User uid None 10000%float in
      (mk_Db (users db ++ [user]) (holdings db) (orders db), user)
  end.

End DatabaseMore.

(** ** src/web_server.py: sessions, assets and candles *)

Module WebServerMore.

Import Database WebServer.

(** The outcome of a handler: its value, an [HTTPException], or another
    exception. *)
Inductive outcome (A : Type) : Type :=
  | Done (a : A)
  | HTTPError (status_code : Z) (detail : string)
  | Raised.
Arguments Done {A} _.
Arguments HTTPError {A} _ _.
Arguments Raised {A}.

(** [_sessions]: token -> user id. *)
Abbreviation sessions := (gmap string string).

(** [get_current_user]: the cookie is absent or a string; the empty string
    is false. *)
Definition get_current_user (_sessions : sessions)
    (zrb_session : option string) : outcome string :=
  match zrb_session with
  | None => HTTPError 401 "Not authenticated"
  | Some token =>
      if String.eqb token "" then HTTPError 401 "Not authenticated"
      else match _sessions !! token with
           | None => HTTPError 401 "Not authenticated"
           | Some uid => Done uid
           end
  end.

Record LoginModel : Type := mk_LoginModel {
  l_user_id : string;
  l_password : string
}.

(** What [login] answers: the cookie it sets and the body. *)
Record login_response : Type := mk_login_response {
  cookie : string;
  r_user_id : string;
  r_balance : float
}.

Section Login.

(** [pwd_context.verify(password, hash)], from passlib: a truth value, or
    an exception for a hash it cannot read. *)
Variable verify : string -> string -> option bool.

(** [login]; [token] is what [secrets.token_urlsafe(32)] returns in this
    call. The result is [_sessions] after the call and the outcome. *)
Definition login (db : Db) (_sessions : sessions) (token : string)
    (data : LoginModel) : sessions * outcome login_response :=
  let not_set :=
    (_sessions, HTTPError 400 "User not found or password not set") in
  match query_user db (l_user_id data) with
  | None => not_set
  | Some user =>
      match password_hash user with
      | None => not_set
      | Some hash =>
          if String.eqb hash "" then not_set
          else match verify (l_password data) hash with
               | None => (_sessions, Raised)
               | Some false => (_sessions, HTTPError 400 "Incorrect password")
               | Some true =>
                   (<[ token := user_id user ]> _sessions,
                    Done (mk_login_response token (user_id user)
                            (balance user)))
               end
      end
  end.

End Login.

(** [logout]: [_sessions] after the call. *)
Definition logout (_sessions : sessions) (zrb_session : option string)
    : sessions :=
  match zrb_session with
  | None => _sessions
  | Some token =>
      if negb (String.eqb token "") && bool_decide (is_Some (_sessions !! token))
      then delete token _sessions
      else _sessions
  end.

(** [get_assets] for the user id that [get_current_user] gave: the balance
    and the holdings above 0.0001, each with its symbol and amount. *)
Definition get_assets (db : Db) (uid : string)
    : outcome (float * list (string * float)) :=
  match query_user db uid with
  | None => HTTPError 404 "User not found"
  | Some user =>
      let holdings :=
        List.filter (fun h => String.eqb (h_user_id h) uid) (holdings db) in
      let holdings_list :=
        map (fun h => (h_symbol h, h_amount h))
          (List.filter (fun h => (0.0001 <? h_amount h)%float) holdings) in
      Done (balance user, holdings_list)
  end.


(** A row of [market_history]; the timestamp in minutes. *)
Record MarketHistory : Type := mk_MarketHistory {
  mh_id : Z;
  mh_symbol : string;
  mh_timestamp : Z;
  mh_open : float;
  mh_high : float;
  mh_low : float;
  mh_close : float;
  mh_volume : float
}.

(** One candle of the answer. *)
Record candle : Type := mk_candle {
  c_time : string;
  c_open : float;
  c_high : float;
  c_low : float;
  c_close : float;
  c_volume : float
}.

Section Kline.

(** [str.upper], and [datetime.strptime] and [strftime] with the format
    ['%Y-%m-%d %H:%M']; [strptime] raises [ValueError] ([None]) on a text
    that is not of the format. *)
Variable upper : string -> string.
Variable strptime : string -> option Z.
Variable strftime : Z -> string.

(** [min(max(1, limit), 5000)]. *)
Definition clamp_limit (limit : Z) : Z := Z.min (Z.max 1 limit) 5000.

(** The rows of the query: those of the symbol, after [since] when it is
    given and can be read, in ascending order of their timestamps (rows of
    one timestamp in the order of the table), cut to the limit. *)
Definition history (rows : list MarketHistory) (symbol : string)
    (since : option string) (limit : Z) : list MarketHistory :=
  let symbol := upper symbol in
  let limit := clamp_limit limit in
  let query := List.filter (fun h => String.eqb (mh_symbol h) symbol) rows in
  let query :=
    match since with
    | None => query
    | Some text =>
        if String.eqb text "" then query
        else match strptime text with
             | Some since_dt =>
                 List.filter (fun h => since_dt <? mh_timestamp h) query
             | None => query
             end
    end in
  take (Z.to_nat limit) (PyList.sort_by mh_timestamp Z.ltb query).

(** The bound that [since] sets, and the rows the query selects. *)
Definition since_bound (since : option string) : option Z :=
  match since with
  | None => None
  | Some text => if String.eqb text "" then None else strptime text
  end.

Definition selected (rows : list MarketHistory) (symbol : string)
    (since : option string) : list MarketHistory :=
  List.filter
    (fun h =>
       String.eqb (mh_symbol h) (upper symbol) &&
       match since_bound since with
       | Some since_dt => since_dt <? mh_timestamp h
       | None => true
       end)
    rows.

Definition get_kline (rows : list MarketHistory) (symbol : string)
    (since : option string) (limit : Z) : string * list candle :=
  (upper symbol,
   map (fun h => mk_candle (strftime (mh_timestamp h)) (mh_open h)
                   (mh_high h) (mh_low h) (mh_close h) (mh_volume h))
     (history rows symbol since limit)).

End Kline.


(** Example rows. *)
Definition ex_history : list MarketHistory :=
  [ mk_MarketHistory 1 "BTC" 30 1 1 1 1 1;
    mk_MarketHistory 2 "ETH" 10 2 2 2 2 2;
    mk_MarketHistory 3 "BTC" 20 3 3 3 3 3;
    mk_MarketHistory 4 "BTC" 10 4 4 4 4 4 ].

(** Example accounts: [u1] without a password, [u2] with one, and a
    verifier that accepts one password. *)
Definition ex_member : User := mk_User "u2" (Some "$pbkdf2-sha256$h") 70.

Definition ex_accounts : Db :=
  mk_Db [GateSpec.ex_user; ex_member]
    [ mk_UserHolding 1 "u2" "BTC" 2;
      mk_UserHolding 2 "u2" "ETH" 0.00005;
      mk_UserHolding 3 "u1" "BTC" 1 ]
    [].

Definition ex_verify (password hash : string) : option bool :=
  Some (String.eqb password "secret").

End WebServerMore.

(** * Properties *)

(** ** The order of binary64 values *)

Module FloatOrder.

Import FloatRank.

Local Open Scope Z_scope.

Ltac rank_cases :=
  cbn;
  change (Pos.compare_cont Eq) with Pos.compare;
  repeat match goal with
    | |- context [ (?a ?= ?b)%Z ] => destruct (Z.compare_spec a b)
    | |- context [ (?a ?= ?b)%positive ] => destruct (Pos.compare_spec a b)
    end;
  cbn; split;
  (let Hm := fresh "Hm" in
   intros Hm;
   first [ discriminate | reflexivity | lia | (exfalso; lia)
         | (inversion Hm; lia) | (f_equal; lia) | congruence ]).

Lemma SFcompare_lt (x y : spec_float) :
  x <> S754_nan -> y <> S754_nan ->
  (SFcompare x y = Some Lt <-> lt3 (rank x) (rank y)).
Proof.
  intros Hx Hy. unfold lt3.
  destruct x as [ [] | [] | | [] m1 e1 ], y as [ [] | [] | | [] m2 e2 ];
    try congruence; rank_cases.
Qed.

Lemma SFcompare_eq (x y : spec_float) :
  x <> S754_nan -> y <> S754_nan ->
  (SFcompare x y = Some Eq <-> rank x = rank y).
Proof.
  intros Hx Hy.
  destruct x as [ [] | [] | | [] m1 e1 ], y as [ [] | [] | | [] m2 e2 ];
    try congruence; rank_cases.
Qed.

Lemma SFcompare_nan_l (y : spec_float) : SFcompare S754_nan y = None.
Proof. reflexivity. Qed.

Lemma SFcompare_nan_r (x : spec_float) : SFcompare x S754_nan = None.
Proof. now destruct x. Qed.

Lemma rank_opp (x : spec_float) : rank (SFopp x) = neg3 (rank x).
Proof.
  destruct x as [ [] | [] | | [] m e ]; unfold neg3; cbn;
    rewrite ?Z.opp_involutive; reflexivity.
Qed.

Lemma lt3_irrefl (a : Z * Z * Z) : ~ lt3 a a.
Proof. unfold lt3. lia. Qed.

Lemma lt3_trans (a b c : Z * Z * Z) : lt3 a b -> lt3 b c -> lt3 a c.
Proof. unfold lt3. lia. Qed.

Lemma lt3_total (a b : Z * Z * Z) : lt3 a b \/ a = b \/ lt3 b a.
Proof.
  destruct a as [[a1 a2] a3], b as [[b1 b2] b3]. unfold lt3. cbn.
  destruct (Z.lt_total a1 b1) as [ | [ -> | ] ]; [ lia | | lia ].
  destruct (Z.lt_total a2 b2) as [ | [ -> | ] ]; [ lia | | lia ].
  destruct (Z.lt_total a3 b3) as [ | [ -> | ] ]; [ lia | auto | lia ].
Qed.

Lemma lt3_neg (a b : Z * Z * Z) : lt3 (neg3 a) (neg3 b) <-> lt3 b a.
Proof. unfold lt3, neg3. cbn. lia. Qed.

Lemma neg3_inj (a b : Z * Z * Z) : neg3 a = neg3 b <-> a = b.
Proof.
  destruct a as [[a1 a2] a3], b as [[b1 b2] b3]. unfold neg3. cbn.
  split; intros H; inversion H; f_equal; [ f_equal | ]; lia.
Qed.

(** *** The comparisons of floats *)

Lemma ordered_spec (x : float) : ordered x <-> Prim2SF x <> S754_nan.
Proof.
  unfold ordered. rewrite FloatAxioms.eqb_spec. unfold SFeqb. split.
  - intros H Hn. rewrite Hn in H. discriminate.
  - intros Hn. assert (He : SFcompare (Prim2SF x) (Prim2SF x) = Some Eq)
      by now apply SFcompare_eq.
    now rewrite He.
Qed.

Lemma ltb_rank (x y : float) :
  ordered x -> ordered y -> ((x <? y)%float = true <-> lt3 (frank x) (frank y)).
Proof.
  intros Hx%ordered_spec Hy%ordered_spec.
  rewrite FloatAxioms.ltb_spec. unfold SFltb, frank.
  rewrite <- (SFcompare_lt _ _ Hx Hy).
  destruct (SFcompare (Prim2SF x) (Prim2SF y)) as [ [] | ];
    split; intros; congruence.
Qed.

Lemma eqb_rank (x y : float) :
  ordered x -> ordered y -> ((x =? y)%float = true <-> frank x = frank y).
Proof.
  intros Hx%ordered_spec Hy%ordered_spec.
  rewrite FloatAxioms.eqb_spec. unfold SFeqb, frank.
  rewrite <- (SFcompare_eq _ _ Hx Hy).
  destruct (SFcompare (Prim2SF x) (Prim2SF y)) as [ [] | ];
    split; intros; congruence.
Qed.

Lemma leb_rank (x y : float) :
  ordered x -> ordered y ->
  ((x <=? y)%float = true <-> lt3 (frank x) (frank y) \/ frank x = frank y).
Proof.
  intros Hx%ordered_spec Hy%ordered_spec.
  rewrite FloatAxioms.leb_spec. unfold SFleb, frank.
  rewrite <- (SFcompare_lt _ _ Hx Hy), <- (SFcompare_eq _ _ Hx Hy).
  destruct (SFcompare (Prim2SF x) (Prim2SF y)) as [ [] | ];
    split; intros; try congruence; intuition congruence.
Qed.

(** A comparison with NaN is false. *)
Lemma ltb_unordered (x y : float) :
  ~ (ordered x /\ ordered y) -> (x <? y)%float = false.
Proof.
  intros H. rewrite FloatAxioms.ltb_spec. unfold SFltb.
  destruct (SFcompare (Prim2SF x) (Prim2SF y)) as [ c | ] eqn:Hc; [ | easy ].
  exfalso. apply H. rewrite !ordered_spec.
  split; intros Hn; rewrite Hn in Hc;
    [ rewrite SFcompare_nan_l in Hc | rewrite SFcompare_nan_r in Hc ];
    discriminate.
Qed.

Lemma eqb_unordered (x y : float) :
  ~ (ordered x /\ ordered y) -> (x =? y)%float = false.
Proof.
  intros H. rewrite FloatAxioms.eqb_spec. unfold SFeqb.
  destruct (SFcompare (Prim2SF x) (Prim2SF y)) as [ c | ] eqn:Hc; [ | easy ].
  exfalso. apply H. rewrite !ordered_spec.
  split; intros Hn; rewrite Hn in Hc;
    [ rewrite SFcompare_nan_l in Hc | rewrite SFcompare_nan_r in Hc ];
    discriminate.
Qed.

Lemma ordered_opp (x : float) : ordered (- x)%float <-> ordered x.
Proof.
  rewrite !ordered_spec, FloatAxioms.opp_spec. now destruct (Prim2SF x).
Qed.

Lemma frank_opp (x : float) : frank (- x)%float = neg3 (frank x).
Proof. unfold frank. now rewrite FloatAxioms.opp_spec, rank_opp. Qed.

Lemma ordered_dec (x : float) : ordered x \/ ~ ordered x.
Proof. unfold ordered. destruct (x =? x)%float; auto. Qed.

(** [-a < -b] is [b < a], and [-a == -b] is [a == b]. *)
Lemma ltb_opp (a b : float) : (- a <? - b)%float = (b <? a)%float.
Proof.
  destruct (ordered_dec a) as [Ha | Ha], (ordered_dec b) as [Hb | Hb].
  - apply eq_true_iff_eq.
    rewrite !ltb_rank by (rewrite ?ordered_opp; assumption).
    rewrite !frank_opp. apply lt3_neg.
  - rewrite !ltb_unordered; rewrite ?ordered_opp; tauto.
  - rewrite !ltb_unordered; rewrite ?ordered_opp; tauto.
  - rewrite !ltb_unordered; rewrite ?ordered_opp; tauto.
Qed.

Lemma eqb_opp (a b : float) : (- a =? - b)%float = (a =? b)%float.
Proof.
  destruct (ordered_dec a) as [Ha | Ha], (ordered_dec b) as [Hb | Hb].
  - apply eq_true_iff_eq.
    rewrite !eqb_rank by (rewrite ?ordered_opp; assumption).
    rewrite !frank_opp. apply neg3_inj.
  - rewrite !eqb_unordered; rewrite ?ordered_opp; tauto.
  - rewrite !eqb_unordered; rewrite ?ordered_opp; tauto.
  - rewrite !eqb_unordered; rewrite ?ordered_opp; tauto.
Qed.

(** [0 < a] excludes [a <= 0]. *)
Lemma ltb_leb_false (a b : float) :
  (a <? b)%float = true -> (b <=? a)%float = false.
Proof.
  intros H.
  destruct (ordered_dec a) as [Ha | Ha], (ordered_dec b) as [Hb | Hb];
    try (rewrite ltb_unordered in H by tauto; discriminate).
  apply (ltb_rank _ _ Ha Hb) in H.
  apply not_true_is_false. intros Hle.
  apply (leb_rank _ _ Hb Ha) in Hle.
  destruct Hle as [Hlt | Heq].
  - exact (lt3_irrefl _ (lt3_trans _ _ _ H Hlt)).
  - rewrite Heq in H. exact (lt3_irrefl _ H).
Qed.

Lemma ltb_ordered (a b : float) :
  (a <? b)%float = true -> ordered a /\ ordered b.
Proof.
  intros H.
  destruct (ordered_dec a) as [Ha | Ha], (ordered_dec b) as [Hb | Hb];
    try (rewrite ltb_unordered in H by tauto; discriminate).
  now split.
Qed.

Lemma eqb_ordered (a b : float) :
  (a =? b)%float = true -> ordered a /\ ordered b.
Proof.
  intros H.
  destruct (ordered_dec a) as [Ha | Ha], (ordered_dec b) as [Hb | Hb];
    try (rewrite eqb_unordered in H by tauto; discriminate).
  now split.
Qed.

Lemma eqb_ltb_false (a b : float) :
  (a =? b)%float = true -> (a <? b)%float = false /\ (b <? a)%float = false.
Proof.
  intros H. destruct (eqb_ordered _ _ H) as (Ha & Hb).
  apply (eqb_rank _ _ Ha Hb) in H.
  split; apply not_true_is_false; intros Hlt;
    [ apply (ltb_rank _ _ Ha Hb) in Hlt | apply (ltb_rank _ _ Hb Ha) in Hlt ];
    rewrite H in Hlt; exact (lt3_irrefl _ Hlt).
Qed.

(** *** Positive finite values *)

(** A float above the dust threshold and below infinity is a positive
    finite number. *)
Lemma above_threshold_finite (q : float) :
  (0.0001 <? q)%float = true -> (q <? infinity)%float = true ->
  exists m e, Prim2SF q = S754_finite false m e.
Proof.
  rewrite !FloatAxioms.ltb_spec. unfold SFltb.
  change (Prim2SF 0.0001) with (S754_finite false 7378697629483821 (-66)).
  change (Prim2SF infinity) with (S754_infinity false).
  destruct (Prim2SF q) as [ [] | [] | | [] m e ]; cbn; try discriminate.
  eauto.
Qed.

Lemma above_threshold_positive (q : float) :
  (0.0001 <? q)%float = true ->
  Prim2SF q = S754_infinity false \/
  exists m e, Prim2SF q = S754_finite false m e.
Proof.
  rewrite !FloatAxioms.ltb_spec. unfold SFltb.
  change (Prim2SF 0.0001) with (S754_finite false 7378697629483821 (-66)).
  destruct (Prim2SF q) as [ [] | [] | | [] m e ]; cbn; try discriminate;
    eauto.
Qed.

(** [q * 0.0] is [0.0] for such a [q]. *)
Lemma mul_zero_finite (q : float) :
  (0.0001 <? q)%float = true -> (q <? infinity)%float = true ->
  (q * 0)%float = 0%float.
Proof.
  intros H1 H2. destruct (above_threshold_finite q H1 H2) as (m & e & Hq).
  apply Prim2SF_inj. rewrite mul_spec, Hq. reflexivity.
Qed.

Lemma abs_positive (q : float) :
  (0.0001 <? q)%float = true -> abs q = q.
Proof.
  intros H. apply Prim2SF_inj. rewrite abs_spec.
  destruct (above_threshold_positive q H) as [ -> | (m & e & ->) ];
    reflexivity.
Qed.

Lemma leb_zero_positive (q : float) :
  (0.0001 <? q)%float = true -> (q <=? 0)%float = false.
Proof.
  intros H. rewrite FloatAxioms.leb_spec.
  destruct (above_threshold_positive q H) as [ -> | (m & e & ->) ];
    reflexivity.
Qed.

(** Adding [0.0] gives an equal float. *)
Lemma add_zero_eqb (x : float) : (x + 0 =? x)%float = (x =? x)%float.
Proof.
  rewrite !FloatAxioms.eqb_spec, add_spec.
  change (Prim2SF 0) with (S754_zero false). unfold SF64add.
  destruct (Prim2SF x) as [ [] | [] | | [] m e ]; reflexivity.
Qed.

End FloatOrder.

(** ** The order of strings *)

Module StringOrder.

Lemma ltb_compare (a b : string) :
  String.ltb a b = true <-> String.compare a b = Lt.
Proof. unfold String.ltb. destruct (String.compare a b); split; congruence. Qed.

Lemma compare_refl (a : string) : String.compare a a = Eq.
Proof.
  pose proof (String.compare_antisym a a) as H.
  destruct (String.compare a a); cbn in H; congruence.
Qed.

Lemma ltb_irrefl (a : string) : String.ltb a a = false.
Proof. unfold String.ltb. now rewrite compare_refl. Qed.

Lemma ltb_asym (a b : string) :
  String.ltb a b = true -> String.ltb b a = false.
Proof.
  rewrite ltb_compare. intros H. unfold String.ltb.
  rewrite String.compare_antisym, H. reflexivity.
Qed.

Lemma ltb_total (a b : string) :
  String.ltb a b = true \/ a = b \/ String.ltb b a = true.
Proof.
  rewrite !ltb_compare, (String.compare_antisym b a).
  destruct (String.compare a b) eqn:H; cbn; auto.
  right; left. now apply String.compare_eq_iff.
Qed.

Lemma ltb_leb (a b : string) : String.ltb a b = true -> String.le a b.
Proof.
  rewrite ltb_compare. unfold String.le, String.leb. now intros ->.
Qed.

Lemma ltb_trans (a b c : string) :
  String.ltb a b = true -> String.ltb b c = true -> String.ltb a c = true.
Proof.
  intros Hab Hbc.
  destruct (ltb_total a c) as [ H | [ -> | H ] ]; [ exact H | | ].
  - rewrite (ltb_asym _ _ Hab) in Hbc. discriminate.
  - assert (Hca : String.le c a) by now apply ltb_leb.
    assert (Hac : String.le a c)
      by (etransitivity; [ apply ltb_leb, Hab | apply ltb_leb, Hbc ]).
    assert (a = c) as -> by now apply (anti_symm String.le).
    rewrite ltb_irrefl in H. discriminate.
Qed.

End StringOrder.

(** ** The insertion sort *)

Module SortFacts.

Import PyList SortSpec.

Section Sort.

Context {A : Type}.
Variable lt : A -> A -> bool.

Lemma insert_Permutation (x : A) (l : list A) : insert lt x l ≡ₚ x :: l.
Proof.
  induction l as [ | y l IH ]; cbn; [ reflexivity | ].
  destruct (lt y x); [ | reflexivity ].
  rewrite IH. apply Permutation_swap.
Qed.

Lemma sort_Permutation (l : list A) : sort lt l ≡ₚ l.
Proof.
  induction l as [ | x l IH ]; cbn; [ reflexivity | ].
  fold (sort lt l). now rewrite insert_Permutation, IH.
Qed.

Lemma insert_sorted (dom : list A) (x : A) (l : list A) :
  weak_order_on lt dom -> x ∈ dom -> l ⊆ dom ->
  StronglySorted (not_after lt) l ->
  StronglySorted (not_after lt) (insert lt x l).
Proof.
  intros (Hasym & Htrans) Hx. induction l as [ | y l IH ]; intros Hl Hs; cbn.
  - repeat constructor.
  - apply StronglySorted_inv in Hs as (Hs & Hy).
    assert (Hyd : y ∈ dom) by (apply Hl; left).
    assert (Hld : l ⊆ dom) by (intros z Hz; apply Hl; now right).
    destruct (lt y x) eqn:Hyx.
    + constructor; [ now apply IH | ].
      rewrite insert_Permutation. constructor; [ | exact Hy ].
      unfold not_after. now apply Hasym.
    + constructor; [ now constructor | ].
      constructor; [ exact Hyx | ].
      rewrite Forall_forall in Hy |- *. intros z Hz.
      apply (Htrans x y z); auto.
      * apply Hy. exact Hz.
Qed.

Lemma sort_sorted (l : list A) :
  weak_order_on lt l -> StronglySorted (not_after lt) (sort lt l).
Proof.
  intros Hw. assert (Hsub : l ⊆ l) by easy. revert Hsub.
  generalize l at 1 3. intros l'. induction l' as [ | x l' IH ]; intros Hsub.
  - constructor.
  - cbn. fold (sort lt l').
    apply (insert_sorted l); auto.
    + apply Hsub. left.
    + intros z Hz. rewrite sort_Permutation in Hz. apply Hsub. now right.
    + apply IH. intros z Hz. apply Hsub. now right.
Qed.

End Sort.

(** A sorted list stays sorted for a relation that follows from the first
    one on the elements of the list that differ under [f], when [f] takes
    no value twice on the list. *)
Lemma StronglySorted_distinct {A B : Type} (f : A -> B) (R R' : relation A)
    (l : list A) :
  NoDup (f <$> l) ->
  (forall x y, x ∈ l -> y ∈ l -> f x <> f y -> R x y -> R' x y) ->
  StronglySorted R l -> StronglySorted R' l.
Proof.
  induction l as [ | x l IH ]; intros Hnd Himp Hs; [ constructor | ].
  apply StronglySorted_inv in Hs as (Hs & Hx).
  apply NoDup_cons in Hnd as (Hnin & Hnd).
  constructor.
  - apply IH; auto. intros y z Hy Hz. apply Himp; now right.
  - rewrite Forall_forall in Hx |- *. intros y Hy.
    apply Himp; [ left | now right | | now apply Hx ].
    intros Heq. apply Hnin. rewrite Heq. now apply list_elem_of_fmap_2.
Qed.

End SortFacts.

(** ** [_clamp_top_n], [cooldown_allow], [compile_trigger_regex] *)

Module LeaderboardUtilFacts.

Import Leaderboard.

Lemma clamp_range (n : Z) : 1 <= _clamp_top_n n <= 50.
Proof. unfold _clamp_top_n. lia. Qed.

Lemma clamp_fixed (n : Z) : 1 <= n <= 50 -> _clamp_top_n n = n.
Proof. unfold _clamp_top_n. lia. Qed.

(** C6: [_clamp_top_n] is idempotent, its result lies in [1, 50], and it
    maps 0 to 1 and 1000 to 50. *)
Theorem clamp_top_n_idempotent_bounded (n : Z) :
  _clamp_top_n n = _clamp_top_n (_clamp_top_n n) /\
  1 <= _clamp_top_n n <= 50 /\
  _clamp_top_n 0 = 1 /\
  _clamp_top_n 1000 = 50.
Proof.
  split; [ | split; [ apply clamp_range | split; reflexivity ] ].
  symmetry. apply clamp_fixed, clamp_range.
Qed.




(** No text has a span that [$.^] matches: after [.] took a character the
    position is not the start of the text. *)
Lemma non_matching_no_span (s : string) (i j : nat) :
  ~ matches s NON_MATCHING_REGEX i j.
Proof.
  unfold NON_MATCHING_REGEX. intros H.
  inversion H as [ | | | | | | r1 r2 i' k j' Heol Hrest | | | | ]; subst.
  inversion Hrest as [ | | | | | | r1 r2 i' k' j' Hany Hbol | | | | ]; subst.
  inversion Hany; subst. inversion Hbol.
Qed.

Section TriggerFacts.

Variable strip : string -> string.
Variable re_compile : string -> compiled.

(** C8: [compile_trigger_regex] returns the match-nothing pattern for an
    absent pattern, for one that is empty once stripped, and for one on
    which [re.compile] raises [re.error], and the compiled pattern when
    [re.compile] returns one; the match-nothing pattern matches no string.
    It raises exactly when [re.compile] raises an exception that is not
    [re.error], and then this exception: the [try] block does not catch
    it. *)
Theorem compile_trigger_regex_outcome (pattern : option string) :
  let text := normalize_trigger_text strip pattern in
  (pattern = None ->
     compile_trigger_regex strip re_compile pattern = Ok NON_MATCHING_REGEX) /\
  (text = EmptyString ->
     compile_trigger_regex strip re_compile pattern = Ok NON_MATCHING_REGEX) /\
  (re_compile text = ReError ->
     compile_trigger_regex strip re_compile pattern = Ok NON_MATCHING_REGEX) /\
  (forall r, text <> EmptyString -> re_compile text = Pattern r ->
     compile_trigger_regex strip re_compile pattern = Ok r) /\
  (forall e,
     compile_trigger_regex strip re_compile pattern = Raise e <->
     text <> EmptyString /\ re_compile text = Raises e) /\
  (forall s, ~ search NON_MATCHING_REGEX s).
Proof.
  unfold compile_trigger_regex, normalize_trigger_text.
  set (text := match pattern with None => _ | Some p => _ end).
  cbv zeta.
  split; [ | split; [ | split; [ | split; [ | split ] ] ] ].
  - intros Hp. subst text. now rewrite Hp.
  - intros ->. reflexivity.
  - intros ->. now destruct (String.eqb text EmptyString).
  - intros r Hne Hre.
    destruct (String.eqb_spec text EmptyString) as [He | _]; [ easy | ].
    now rewrite Hre.
  - intros e.
    destruct (String.eqb_spec text EmptyString) as [He | Hne].
    + split; [ discriminate | now intros (H & _) ].
    + destruct (re_compile text) as [ r | | e' ].
      * split; [ discriminate | intros (_ & [=]) ].
      * split; [ discriminate | intros (_ & [=]) ].
      * split; [ intros [= ->]; now split | now intros (_ & [= ->]) ].
  - intros s (i & j & H). exact (non_matching_no_span s i j H).
Qed.

End TriggerFacts.

Lemma compile_trigger_regex_outcome_witness :
  let strip := fun s : string => s in
  compile_trigger_regex strip re_compile_sample None
    = Ok NON_MATCHING_REGEX /\
  compile_trigger_regex strip re_compile_sample (Some EmptyString)
    = Ok NON_MATCHING_REGEX /\
  compile_trigger_regex strip re_compile_sample (Some "("%string)
    = Ok NON_MATCHING_REGEX /\
  compile_trigger_regex strip re_compile_sample (Some "a"%string)
    = Ok (Char "a"%char) /\
  compile_trigger_regex strip re_compile_sample (Some "a{4294967296}"%string)
    = Raise OverflowError.
Proof.
  intros strip.
  pose proof (compile_trigger_regex_outcome strip re_compile_sample None)
    as (H1 & _).
  pose proof (compile_trigger_regex_outcome strip re_compile_sample
                (Some EmptyString)) as (_ & H2 & _).
  pose proof (compile_trigger_regex_outcome strip re_compile_sample
                (Some "("%string)) as (_ & _ & H3 & _).
  pose proof (compile_trigger_regex_outcome strip re_compile_sample
                (Some "a"%string)) as (_ & _ & _ & H4 & _).
  pose proof (compile_trigger_regex_outcome strip re_compile_sample
                (Some "a{4294967296}"%string)) as (_ & _ & _ & _ & H5 & _).
  split; [ apply H1; reflexivity | ].
  split; [ apply H2; reflexivity | ].
  split; [ apply H3; reflexivity | ].
  split; [ apply H4; [ discriminate | reflexivity ] | ].
  apply H5. split; [ discriminate | reflexivity ].
Defined.

(** A pattern with a repetition count that is too large: [re.compile]
    raises [OverflowError] on [a{4294967296}], and so does
    [compile_trigger_regex]; no pattern is returned. *)
Lemma compile_trigger_regex_overflow :
  compile_trigger_regex (fun s => s) re_compile_sample
    (Some "a{4294967296}"%string)
  = Raise OverflowError /\
  ~ exists r,
      compile_trigger_regex (fun s => s) re_compile_sample
        (Some "a{4294967296}"%string)
      = Ok r.
Proof.
  split; [ reflexivity | ]. intros (r & H). discriminate.
Qed.

End LeaderboardUtilFacts.

(** ** Dictionaries in insertion order *)

Module DictFacts.

Import PyDict.

Section Dict.

Context {V : Type}.
Implicit Types (k : string) (v : V) (d : t V).

Lemma get_set_eq k v d : get k (set k v d) = Some v.
Proof.
  induction d as [ | [k' v'] d IH ]; cbn.
  - now rewrite String.eqb_refl.
  - destruct (String.eqb_spec k k') as [ -> | Hne ]; cbn.
    + now rewrite String.eqb_refl.
    + apply String.eqb_neq in Hne. now rewrite Hne.
Qed.

Lemma get_set_ne k k' v d : k <> k' -> get k' (set k v d) = get k' d.
Proof.
  intros Hne. induction d as [ | [k0 v0] d IH ]; cbn.
  - apply not_eq_sym, String.eqb_neq in Hne. now rewrite Hne.
  - destruct (String.eqb_spec k k0) as [ -> | Hk ]; cbn.
    + apply not_eq_sym, String.eqb_neq in Hne. now rewrite Hne.
    + now rewrite IH.
Qed.

Lemma get_Some_elem k v d : get k d = Some v -> (k, v) ∈ d.
Proof.
  induction d as [ | [k' v'] d IH ]; cbn; [ discriminate | ].
  destruct (String.eqb_spec k k') as [ -> | Hne ].
  - intros [= ->]. left.
  - intros H. right. now apply IH.
Qed.

Lemma get_None_keys k d : get k d = None <-> k ∉ keys d.
Proof.
  induction d as [ | [k' v'] d IH ]; cbn.
  - split; [ intros _ H; inversion H | reflexivity ].
  - rewrite not_elem_of_cons.
    destruct (String.eqb_spec k k') as [ -> | Hne ].
    + split; [ discriminate | intros (H & _); congruence ].
    + rewrite IH. tauto.
Qed.

Lemma elem_get k v d : NoDup (keys d) -> (k, v) ∈ d -> get k d = Some v.
Proof.
  induction d as [ | [k' v'] d IH ]; cbn; intros Hnd Hin.
  - inversion Hin.
  - apply NoDup_cons in Hnd as (Hnin & Hnd).
    apply elem_of_cons in Hin as [ [= -> ->] | Hin ].
    + now rewrite String.eqb_refl.
    + destruct (String.eqb_spec k k') as [ -> | Hne ]; [ | now apply IH ].
      exfalso. apply Hnin.
      change k' with (fst (k', v)). now apply list_elem_of_fmap_2.
Qed.

Lemma keys_set k v d :
  keys (set k v d)
    = match get k d with Some _ => keys d | None => keys d ++ [k] end.
Proof.
  unfold keys. induction d as [ | [k' v'] d IH ]; cbn; [ reflexivity | ].
  destruct (String.eqb_spec k k') as [ -> | Hne ]; cbn; [ reflexivity | ].
  rewrite IH. now destruct (get k d).
Qed.

Lemma NoDup_keys_set k v d : NoDup (keys d) -> NoDup (keys (set k v d)).
Proof.
  intros Hnd. rewrite keys_set.
  destruct (get k d) eqn:Hg; [ exact Hnd | ].
  apply NoDup_app. split; [ exact Hnd | split ].
  - intros x Hx [ -> | H ]%elem_of_cons; [ | inversion H ].
    now apply get_None_keys in Hg.
  - apply NoDup_singleton.
Qed.

Lemma elem_of_set k v d (kv : string * V) :
  kv ∈ set k v d -> kv = (k, v) \/ kv ∈ d.
Proof.
  induction d as [ | [k' v'] d IH ]; cbn.
  - intros [ -> | H ]%elem_of_cons; [ now left | inversion H ].
  - destruct (String.eqb_spec k k') as [ -> | Hne ].
    + intros [ -> | H ]%elem_of_cons; [ now left | right; now right ].
    + intros [ -> | H ]%elem_of_cons; [ right; left | ].
      destruct (IH H) as [ -> | H' ]; [ now left | right; now right ].
Qed.

Lemma elem_of_values v d : v ∈ values d <-> exists k, (k, v) ∈ d.
Proof.
  unfold values. rewrite list_elem_of_fmap. split.
  - intros ([k v'] & -> & H). now exists k.
  - intros (k & H). now exists (k, v).
Qed.

End Dict.

End DictFacts.

(** ** [compute_leaderboard] *)

Module LeaderboardFacts.

Import Leaderboard LeaderboardSpec FloatRank SortSpec.

(** *** The records of [by_user] *)

Lemma user_id_add_value prices sym qty (e : aggregate) :
  user_id (add_value prices sym qty e) = user_id e.
Proof. unfold add_value. now destruct (price_of _ _ _). Qed.

Lemma well_keyed_nil : well_keyed [].
Proof. split; constructor. Qed.

Lemma well_keyed_set (k : string) (e : aggregate) (d : PyDict.t aggregate) :
  user_id e = k -> well_keyed d -> well_keyed (PyDict.set k e d).
Proof.
  intros He (Hnd & Hk). split; [ now apply DictFacts.NoDup_keys_set | ].
  rewrite Forall_forall in Hk |- *. intros kv Hin.
  apply DictFacts.elem_of_set in Hin as [ -> | Hin ]; [ exact He | auto ].
Qed.

Lemma well_keyed_get (k : string) (e : aggregate) (d : PyDict.t aggregate) :
  well_keyed d -> PyDict.get k d = Some e -> user_id e = k.
Proof.
  intros (_ & Hk) Hg. rewrite Forall_forall in Hk.
  exact (Hk _ (DictFacts.get_Some_elem _ _ _ Hg)).
Qed.

Lemma seed_user_well_keyed d row : well_keyed d -> well_keyed (seed_user d row).
Proof. destruct row as [uid cash]. now apply well_keyed_set. Qed.

Lemma add_holding_well_keyed prices d row :
  well_keyed d -> well_keyed (add_holding prices d row).
Proof.
  intros Hd. destruct row as [[uid sym] qty]. unfold add_holding.
  destruct (PyDict.get uid d) as [ e | ] eqn:Hg; [ | exact Hd ].
  destruct (is_dust qty); [ exact Hd | ].
  apply well_keyed_set; [ | exact Hd ].
  rewrite user_id_add_value. now apply (well_keyed_get _ _ d).
Qed.

Lemma foldl_invariant {A B : Type} (P : A -> Prop) (f : A -> B -> A)
    (l : list B) (a : A) :
  (forall a b, P a -> P (f a b)) -> P a -> P (foldl f a l).
Proof.
  intros Hf. revert a. induction l as [ | b l IH ]; cbn; auto.
Qed.

Lemma aggregates_well_keyed users holdings prices :
  well_keyed (aggregates users holdings prices).
Proof.
  unfold aggregates.
  apply foldl_invariant; [ intros; now apply add_holding_well_keyed | ].
  apply foldl_invariant; [ intros; now apply seed_user_well_keyed | ].
  apply well_keyed_nil.
Qed.

Lemma well_keyed_user_ids (d : PyDict.t aggregate) :
  well_keyed d -> user_id <$> PyDict.values d = PyDict.keys d.
Proof.
  intros (_ & Hk). unfold PyDict.values, PyDict.keys.
  induction d as [ | [k e] d IH ]; [ reflexivity | ].
  apply Forall_cons in Hk as (Hke & Hk). simpl in Hke. cbn.
  f_equal; [ exact Hke | exact (IH Hk) ].
Qed.

Lemma well_keyed_value_get (d : PyDict.t aggregate) (e : aggregate) :
  well_keyed d -> e ∈ PyDict.values d -> PyDict.get (user_id e) d = Some e.
Proof.
  intros Hd (k & Hin)%DictFacts.elem_of_values.
  pose proof Hd as (Hnd & Hk). rewrite Forall_forall in Hk.
  pose proof (Hk _ Hin) as He. simpl in He. rewrite He.
  now apply DictFacts.elem_get.
Qed.

Lemma aggregates_NoDup users holdings prices :
  NoDup (user_id <$> PyDict.values (aggregates users holdings prices)).
Proof.
  rewrite well_keyed_user_ids by apply aggregates_well_keyed.
  apply aggregates_well_keyed.
Qed.

(** *** The order of the sort *)

Lemma entry_lt_ranks_before (a b : aggregate) :
  entry_lt a b = true <-> ranks_before a b.
Proof.
  unfold entry_lt, key_lt, sort_key, ranks_before. cbn.
  rewrite FloatOrder.eqb_opp, FloatOrder.ltb_opp.
  destruct (total a =? total b)%float eqn:He.
  - destruct (FloatOrder.eqb_ltb_false _ _ He) as (_ & ->).
    split; [ auto | intros [ ? | (_ & ?) ]; [ discriminate | assumption ] ].
  - split; [ auto | intros [ ? | (? & _) ]; [ assumption | discriminate ] ].
Qed.

Lemma ranks_before_place {M : Type} (a b : entry M) :
  FloatRank.ordered (total a) -> FloatRank.ordered (total b) ->
  (ranks_before a b <-> place_lt (place a) (place b)).
Proof.
  intros Ha Hb. unfold ranks_before, place_lt, place. cbn.
  now rewrite (FloatOrder.ltb_rank _ _ Hb Ha), (FloatOrder.eqb_rank _ _ Ha Hb).
Qed.

Lemma place_lt_irrefl p : ~ place_lt p p.
Proof.
  intros [ H | (_ & H) ].
  - exact (FloatOrder.lt3_irrefl _ H).
  - rewrite StringOrder.ltb_irrefl in H. discriminate.
Qed.

Lemma place_lt_trans p q r : place_lt p q -> place_lt q r -> place_lt p r.
Proof.
  intros [ H1 | (E1 & H1) ] [ H2 | (E2 & H2) ].
  - left. exact (FloatOrder.lt3_trans _ _ _ H2 H1).
  - left. now rewrite <- E2.
  - left. now rewrite E1.
  - right. split; [ congruence | exact (StringOrder.ltb_trans _ _ _ H1 H2) ].
Qed.

Lemma place_lt_total p q : place_lt p q \/ p = q \/ place_lt q p.
Proof.
  destruct p as [r1 u1], q as [r2 u2]. unfold place_lt. cbn.
  destruct (FloatOrder.lt3_total r1 r2) as [ H | [ -> | H ] ]; [ auto | | auto ].
  destruct (StringOrder.ltb_total u1 u2) as [ H | [ -> | H ] ]; auto.
Qed.

Lemma entry_lt_place (a b : aggregate) :
  ordered_total a -> ordered_total b ->
  (entry_lt a b = true <-> place_lt (place a) (place b)).
Proof.
  intros Ha Hb. rewrite entry_lt_ranks_before. now apply ranks_before_place.
Qed.

Lemma entry_lt_weak_order (l : list aggregate) :
  Forall ordered_total l -> weak_order_on entry_lt l.
Proof.
  rewrite Forall_forall. intros Hord. split.
  - intros x y Hx Hy Hlt. apply not_true_is_false. intros Hyx.
    apply entry_lt_place in Hlt, Hyx; auto.
    exact (place_lt_irrefl _ (place_lt_trans _ _ _ Hlt Hyx)).
  - intros x y z Hx Hy Hz Hyx Hzy. apply not_true_is_false. intros Hzx.
    apply entry_lt_place in Hzx; auto.
    destruct (place_lt_total (place y) (place x)) as [ H | [ H | H ] ].
    + apply entry_lt_place in H; auto. congruence.
    + rewrite <- H in Hzx. apply entry_lt_place in Hzx; auto. congruence.
    + pose proof (place_lt_trans _ _ _ Hzx H) as Hzy'.
      apply entry_lt_place in Hzy'; auto. congruence.
Qed.

Lemma is_nan_ordered (x : float) : is_nan x = false <-> FloatRank.ordered x.
Proof.
  unfold is_nan, FloatRank.ordered. destruct (x =? x)%float; cbn; split; congruence.
Qed.

Lemma ranks_before_asym {M : Type} (a b : entry M) :
  ranks_before a b -> ranks_before b a -> False.
Proof.
  intros Hab Hba.
  assert (Ho : ordered_total a /\ ordered_total b).
  { destruct Hab as [ H | (H & _) ];
      [ apply FloatOrder.ltb_ordered in H | apply FloatOrder.eqb_ordered in H ];
      unfold ordered_total; tauto. }
  destruct Ho as (Ha & Hb).
  apply ranks_before_place in Hab, Hba; auto.
  exact (place_lt_irrefl _ (place_lt_trans _ _ _ Hab Hba)).
Qed.

Lemma ranks_before_finish (a b : aggregate) :
  ranks_before a b -> ranks_before (finish a) (finish b).
Proof. intros H. exact H. Qed.

Lemma StronglySorted_take {A : Type} (R : relation A) (n : nat) (l : list A) :
  StronglySorted R l -> StronglySorted R (take n l).
Proof.
  intros H. rewrite <- (take_drop n l) in H.
  now apply StronglySorted_app_1_l in H.
Qed.

(** The sorted records come in the order [ranks_before] when no total is
    NaN. *)
Lemma sort_by_ranks_before (l : list aggregate) :
  Forall ordered_total l -> NoDup (user_id <$> l) ->
  StronglySorted ranks_before (PyList.sort_by sort_key key_lt l).
Proof.
  intros Hord Hnd. unfold PyList.sort_by. fold entry_lt.
  change (fun x y : aggregate => entry_lt x y) with entry_lt.
  pose proof (SortFacts.sort_Permutation entry_lt l) as Hperm.
  apply (SortFacts.StronglySorted_distinct user_id (not_after entry_lt)).
  - now rewrite Hperm.
  - intros x y Hx Hy Hne Hxy. unfold not_after in Hxy.
    rewrite Hperm in Hx, Hy. rewrite Forall_forall in Hord.
    apply ranks_before_place; [ exact (Hord _ Hx) | exact (Hord _ Hy) | ].
    destruct (place_lt_total (place x) (place y)) as [ H | [ H | H ] ].
    + exact H.
    + exfalso. apply Hne. now inversion H.
    + apply entry_lt_place in H; auto. congruence.
  - apply SortFacts.sort_sorted. now apply entry_lt_weak_order.
Qed.

Section Ranking.

Variable users : list (string * float).
Variable holdings : list (string * string * float).
Variable prices : gmap string float.

Lemma compute_leaderboard_take (top_n : Z) :
  compute_leaderboard users holdings prices top_n
    = take (Z.to_nat (_clamp_top_n top_n)) (ranking users holdings prices).
Proof.
  unfold compute_leaderboard, ranking, PyList.slice_to. cbv zeta.
  pose proof (LeaderboardUtilFacts.clamp_range top_n) as Hr.
  destruct (Z.leb_spec 0 (_clamp_top_n top_n)) as [ _ | Hneg ]; [ | lia ].
  apply (fmap_take finish).
Qed.

Lemma ranking_Permutation :
  ranking users holdings prices
    ≡ₚ finish <$> PyDict.values (aggregates users holdings prices).
Proof.
  unfold ranking, PyList.sort_by.
  change (map finish) with (fmap (M := list) finish).
  now rewrite SortFacts.sort_Permutation.
Qed.

(** C3 (amended): when no user's total is NaN, [compute_leaderboard]
    returns the first [clamp(top_n)] entries of the ranking of all users,
    the clamped limit lies in [1, 50], and the ranking holds every user's
    entry once in the order of descending total, entries of equal total in
    ascending order of user id; it is the only arrangement of the entries
    in that order. *)
Theorem leaderboard_sorted (top_n : Z) :
  (forall e, e ∈ PyDict.values (aggregates users holdings prices) ->
     is_nan (total e) = false) ->
  let limit := _clamp_top_n top_n in
  let result := compute_leaderboard users holdings prices top_n in
  result = take (Z.to_nat limit) (ranking users holdings prices) /\
  1 <= limit <= 50 /\
  ranking users holdings prices
    ≡ₚ finish <$> PyDict.values (aggregates users holdings prices) /\
  StronglySorted ranks_before (ranking users holdings prices) /\
  StronglySorted ranks_before result /\
  (forall l, l ≡ₚ ranking users holdings prices ->
     StronglySorted ranks_before l -> l = ranking users holdings prices).
Proof.
  intros Hnan limit result.
  assert (Hs : StronglySorted ranks_before (ranking users holdings prices)).
  { unfold ranking.
    apply (StronglySorted_fmap finish ranks_before ranks_before);
      [ exact ranks_before_finish | ].
    apply sort_by_ranks_before; [ | apply aggregates_NoDup ].
    apply Forall_forall. intros e He. now apply is_nan_ordered, Hnan. }
  split; [ apply compute_leaderboard_take | ].
  split; [ apply LeaderboardUtilFacts.clamp_range | ].
  split; [ apply ranking_Permutation | ].
  split; [ exact Hs | ].
  split.
  - unfold result. rewrite compute_leaderboard_take.
    now apply StronglySorted_take.
  - intros l Hperm Hl.
    apply (StronglySorted_unique_strong ranks_before); auto.
    intros x y _ _ Hxy Hyx. destruct (ranks_before_asym _ _ Hxy Hyx).
Qed.

End Ranking.

(** The two examples of the specification, and a tie. *)
Example leaderboard_with_price :
  compute_leaderboard ex_users ex_holdings ex_prices 10
    = [ mk_entry "alice" 1000 200 1200 []; mk_entry "bob" 500 0 500 [] ].
Proof. vm_compute. reflexivity. Qed.

Example leaderboard_without_price :
  compute_leaderboard ex_users ex_holdings ∅ 10
    = [ mk_entry "alice" 1000 0 1000 ["BTC"%string];
        mk_entry "bob" 500 0 500 [] ].
Proof. vm_compute. reflexivity. Qed.

Example leaderboard_tie :
  user_id <$> compute_leaderboard
                [("bob"%string, 5%float); ("carol"%string, 7%float);
                 ("alice"%string, 5%float)] [] ∅ 2
    = ["carol"; "alice"]%string.
Proof. vm_compute. reflexivity. Qed.

Lemma leaderboard_sorted_witness :
  StronglySorted ranks_before
    (compute_leaderboard ex_users ex_holdings ex_prices 10) /\
  compute_leaderboard ex_users ex_holdings ex_prices 1
    = take 1 (ranking ex_users ex_holdings ex_prices).
Proof.
  assert (Hnan : forall e,
            e ∈ PyDict.values (aggregates ex_users ex_holdings ex_prices) ->
            is_nan (total e) = false).
  { apply Forall_forall. vm_compute. repeat constructor. }
  split.
  - exact (proj1 (proj2 (proj2 (proj2 (proj2
             (leaderboard_sorted ex_users ex_holdings ex_prices 10 Hnan)))))).
  - exact (proj1 (leaderboard_sorted ex_users ex_holdings ex_prices 1 Hnan)).
Defined.

(** C3 as stated fails. No comparison with the key of a NaN total is true,
    so the three keys below already form a run in which no key is smaller
    than the one before it, and the sort leaves the list as it is: the user
    with total 1 is listed before the user with total 2. *)
Lemma leaderboard_nan_counterexample :
  let result :=
    compute_leaderboard
      [("a"%string, 1%float); ("b"%string, nan); ("c"%string, 2%float)]
      [] ∅ 10 in
  result = [ mk_entry "a" 1 0 1 []; mk_entry "b" nan 0 nan [];
             mk_entry "c" 2 0 2 [] ] /\
  ~ StronglySorted ranks_before result.
Proof.
  assert (He : compute_leaderboard
      [("a"%string, 1%float); ("b"%string, nan); ("c"%string, 2%float)]
      [] ∅ 10
    = [ mk_entry "a" 1 0 1 []; mk_entry "b" nan 0 nan [];
        mk_entry "c" 2 0 2 [] ]) by (vm_compute; reflexivity).
  cbv zeta. rewrite He. split; [ reflexivity | ].
  intros Hs. apply StronglySorted_inv in Hs as (_ & Hf).
  apply Forall_cons in Hf as (_ & Hf). apply Forall_cons in Hf as (Hac & _).
  destruct Hac as [ H | (H & _) ]; vm_compute in H; discriminate.
Qed.

(** *** Rows that are skipped *)

Lemma foldl_invariant_in {A B : Type} (P : A -> Prop) (f : A -> B -> A)
    (l : list B) (a : A) :
  (forall a b, b ∈ l -> P a -> P (f a b)) -> P a -> P (foldl f a l).
Proof.
  revert a. induction l as [ | b l IH ]; cbn; intros a Hf Ha; [ exact Ha | ].
  apply IH.
  - intros a' b' Hb'. apply Hf. now right.
  - apply Hf; [ left | exact Ha ].
Qed.


Lemma add_holding_other prices d row (u : string) :
  row.1.1 <> u ->
  PyDict.get u (add_holding prices d row) = PyDict.get u d.
Proof.
  destruct row as [[uid sym] qty]. cbn. intros Hne. unfold add_holding.
  destruct (PyDict.get uid d); [ | reflexivity ].
  destruct (is_dust qty); [ reflexivity | ].
  now apply DictFacts.get_set_ne.
Qed.


(** The record of a user as the first loop leaves it. *)
Lemma seeded_fresh users (k : string) (a : aggregate) :
  PyDict.get k (foldl seed_user [] users) = Some a ->
  exists cash, (k, cash) ∈ users /\ a = mk_entry k cash 0 cash ∅.
Proof.
  revert k a.
  apply (foldl_invariant_in
           (fun d => forall k a, PyDict.get k d = Some a ->
              exists cash, (k, cash) ∈ users /\ a = mk_entry k cash 0 cash ∅)).
  - intros d [uid cash] Hin Hd k a. unfold seed_user.
    destruct (decide (uid = k)) as [ -> | Hne ].
    + rewrite DictFacts.get_set_eq. intros [= <-]. eauto.
    + rewrite DictFacts.get_set_ne by assumption. apply Hd.
  - intros k a. discriminate.
Qed.



Section Entries.

Variable users : list (string * float).
Variable holdings : list (string * string * float).
Variable prices : gmap string float.

(** Every returned entry is the finished record of its user. *)
Lemma result_entry (top_n : Z) (e : entry (list string)) :
  e ∈ compute_leaderboard users holdings prices top_n ->
  exists a,
    PyDict.get (user_id e) (aggregates users holdings prices) = Some a /\
    e = finish a.
Proof.
  rewrite compute_leaderboard_take. intros He%subseteq_take.
  rewrite ranking_Permutation in He.
  apply list_elem_of_fmap in He as (a & -> & Ha).
  exists a. split; [ | reflexivity ].
  apply well_keyed_value_get; [ apply aggregates_well_keyed | exact Ha ].
Qed.


End Entries.


(** *** Symbols without a price *)

Lemma not_dust_above_threshold (qty : float) :
  (0.0001 <? qty)%float = true -> is_dust qty = false.
Proof.
  intros H. unfold is_dust.
  rewrite (FloatOrder.leb_zero_positive _ H), (FloatOrder.abs_positive _ H).
  now rewrite (FloatOrder.ltb_leb_false _ _ H).
Qed.

Lemma add_value_missing_price prices sym qty (e : aggregate) :
  prices !! sym = None ->
  add_value prices sym qty e
    = mk_entry (user_id e) (balance e)
        (holdings_value e + qty * 0)%float
        (balance e + (holdings_value e + qty * 0))%float
        ({[ sym ]} ∪ missing_symbols e).
Proof. intros Hp. unfold add_value, price_of. now rewrite Hp. Qed.

Lemma missing_add_value prices sym qty (e : aggregate) :
  missing_symbols e ⊆ missing_symbols (add_value prices sym qty e).
Proof.
  unfold add_value, price_of. destruct (prices !! sym); cbn; set_solver.
Qed.

Lemma add_holding_grows prices d row (u : string) (a : aggregate) :
  PyDict.get u d = Some a ->
  exists a', PyDict.get u (add_holding prices d row) = Some a' /\
             missing_symbols a ⊆ missing_symbols a'.
Proof.
  intros Ha. destruct row as [[uid sym] qty].
  destruct (decide (uid = u)) as [ -> | Hne ].
  - unfold add_holding. rewrite Ha.
    destruct (is_dust qty); [ eauto | ].
    rewrite DictFacts.get_set_eq. eauto using missing_add_value.
  - rewrite add_holding_other by assumption. eauto.
Qed.

Lemma foldl_add_holding_grows prices holdings d (u : string) (a : aggregate) :
  PyDict.get u d = Some a ->
  exists a', PyDict.get u (foldl (add_holding prices) d holdings) = Some a' /\
             missing_symbols a ⊆ missing_symbols a'.
Proof.
  revert d a. induction holdings as [ | row l IH ]; intros d a Ha; cbn.
  - eauto.
  - destruct (add_holding_grows prices d row u a Ha) as (a1 & Ha1 & Hsub1).
    destruct (IH _ _ Ha1) as (a2 & Ha2 & Hsub2).
    exists a2. split; [ exact Ha2 | set_solver ].
Qed.

Lemma add_holding_unknown prices d row (u : string) :
  PyDict.get u d = None -> PyDict.get u (add_holding prices d row) = None.
Proof.
  intros Hu. destruct row as [[uid sym] qty].
  destruct (decide (uid = u)) as [ -> | Hne ].
  - unfold add_holding. now rewrite Hu.
  - now rewrite add_holding_other.
Qed.

Lemma foldl_add_holding_unknown prices holdings d (u : string) :
  PyDict.get u d = None ->
  PyDict.get u (foldl (add_holding prices) d holdings) = None.
Proof.
  apply (foldl_invariant (fun d' => PyDict.get u d' = None)).
  intros d' row. apply add_holding_unknown.
Qed.

(** [sorted(missing)] lists the symbols of the set in ascending order. *)
Lemma ltb_weak_order (l : list string) : weak_order_on String.ltb l.
Proof.
  split.
  - intros x y _ _. apply StringOrder.ltb_asym.
  - intros x y z _ _ _ Hyx Hzy. apply not_true_is_false. intros Hzx.
    destruct (StringOrder.ltb_total y x) as [ H | [ -> | H ] ];
      [ congruence | congruence | ].
    rewrite (StringOrder.ltb_trans _ _ _ Hzx H) in Hzy. discriminate.
Qed.

Lemma sorted_symbols_elem (X : gset string) (sym : string) :
  sym ∈ sorted_symbols X <-> sym ∈ X.
Proof.
  unfold sorted_symbols.
  now rewrite SortFacts.sort_Permutation, elem_of_elements.
Qed.

Lemma sorted_symbols_ascending (X : gset string) :
  ascending (sorted_symbols X).
Proof.
  unfold ascending, sorted_symbols.
  pose proof (SortFacts.sort_Permutation String.ltb (elements X)) as Hperm.
  apply (SortFacts.StronglySorted_distinct id (not_after String.ltb)).
  - rewrite list_fmap_id, Hperm. apply NoDup_elements.
  - intros x y _ _ Hne Hxy. unfold not_after in Hxy.
    destruct (StringOrder.ltb_total x y) as [ H | [ H | H ] ];
      [ exact H | now destruct Hne | congruence ].
  - apply SortFacts.sort_sorted, ltb_weak_order.
Qed.

Section MissingPrices.

Variable users : list (string * float).
Variable holdings : list (string * string * float).
Variable prices : gmap string float.

(** C4 (amended): a holding row of a known user whose quantity is finite
    and above 0.0001 and whose symbol has no price adds [qty * 0.0], which
    is [0.0], to the user's holdings value and the symbol to the user's
    missing symbols; every returned entry lists its missing symbols in
    ascending order, among them the symbol of every such row of its
    user. *)
Theorem missing_price_holding (top_n : Z) :
  (forall d uid sym qty e,
     PyDict.get uid d = Some e ->
     prices !! sym = None ->
     (0.0001 <? qty)%float = true ->
     (qty <? infinity)%float = true ->
     (qty * 0)%float = 0%float /\
     (holdings_value e + 0 =? holdings_value e)%float
       = (holdings_value e =? holdings_value e)%float /\
     add_holding prices d (uid, sym, qty)
       = PyDict.set uid
           (mk_entry (user_id e) (balance e)
              (holdings_value e + 0)%float
              (balance e + (holdings_value e + 0))%float
              ({[ sym ]} ∪ missing_symbols e)) d) /\
  (forall e,
     e ∈ compute_leaderboard users holdings prices top_n ->
     ascending (missing_symbols e) /\
     forall sym qty,
       (user_id e, sym, qty) ∈ holdings ->
       prices !! sym = None ->
       (0.0001 <? qty)%float = true ->
       sym ∈ missing_symbols e).
Proof.
  split.
  - intros d uid sym qty e Hg Hp Hq Hfin.
    pose proof (FloatOrder.mul_zero_finite _ Hq Hfin) as Hz.
    split; [ exact Hz | split; [ apply FloatOrder.add_zero_eqb | ] ].
    unfold add_holding.
    rewrite Hg, (not_dust_above_threshold _ Hq).
    now rewrite (add_value_missing_price _ _ _ _ Hp), Hz.
  - intros e He. apply result_entry in He as (a & Ha & ->).
    cbn [finish missing_symbols user_id] in *.
    split; [ apply sorted_symbols_ascending | ].
    intros sym qty Hin Hp Hq. apply sorted_symbols_elem.
    apply list_elem_of_split in Hin as (l1 & l2 & Hl).
    unfold aggregates in Ha. rewrite Hl, foldl_app in Ha. cbn [foldl] in Ha.
    set (d1 := foldl (add_holding prices) (foldl seed_user [] users) l1) in *.
    destruct (PyDict.get (user_id a) d1) as [ a1 | ] eqn:Hd1.
    + assert (Hstep : PyDict.get (user_id a)
                (add_holding prices d1 (user_id a, sym, qty))
              = Some (add_value prices sym qty a1)).
      { unfold add_holding.
        rewrite Hd1, (not_dust_above_threshold _ Hq).
        apply DictFacts.get_set_eq. }
      destruct (foldl_add_holding_grows prices l2 _ _ _ Hstep)
        as (a' & Ha' & Hsub).
      rewrite Ha in Ha'. injection Ha' as <-.
      apply Hsub. rewrite (add_value_missing_price _ _ _ _ Hp). cbn.
      set_solver.
    + rewrite foldl_add_holding_unknown in Ha; [ discriminate | ].
      now apply add_holding_unknown.
Qed.

End MissingPrices.

Lemma missing_price_holding_witness :
  add_holding ∅ [("alice"%string, mk_entry "alice" 1000 0 1000 ∅)]
    ("alice"%string, "BTC"%string, 1%float)
    = [("alice"%string,
        mk_entry "alice" 1000 (0 + 0) (1000 + (0 + 0)) ({[ "BTC"%string ]} ∪ ∅))] /\
  forall e, e ∈ compute_leaderboard ex_users ex_holdings ∅ 10 ->
    user_id e = "alice"%string -> "BTC"%string ∈ missing_symbols e.
Proof.
  split.
  - exact (proj2 (proj2 (proj1 (missing_price_holding ex_users ex_holdings ∅ 10)
             [("alice"%string, mk_entry "alice" 1000 0 1000 ∅)]
             "alice"%string "BTC"%string 1%float
             (mk_entry "alice" 1000 0 1000 ∅)
             eq_refl eq_refl eq_refl eq_refl))).
  - intros e He Hu.
    refine (proj2 (proj2 (missing_price_holding ex_users ex_holdings ∅ 10)
                     e He) "BTC"%string 1%float _ eq_refl eq_refl).
    rewrite Hu. left.
Defined.

(** C4 as stated fails: an infinite quantity is above the threshold, and
    in a symbol without a price it adds [inf * 0.0], which is NaN, to the
    holdings value. *)
Lemma missing_price_infinite_counterexample :
  let result :=
    compute_leaderboard [("a"%string, 100%float)]
      [("a"%string, "BTC"%string, infinity)] ∅ 10 in
  (0.0001 <? infinity)%float = true /\
  (∅ : gmap string float) !! "BTC"%string = None /\
  (infinity * 0)%float = nan /\
  result = [ mk_entry "a" 100 nan nan ["BTC"%string] ] /\
  forall e, e ∈ result ->
    (holdings_value e =? 0)%float = false /\
    (total e =? balance e)%float = false.
Proof.
  assert (He : compute_leaderboard [("a"%string, 100%float)]
                 [("a"%string, "BTC"%string, infinity)] ∅ 10
               = [ mk_entry "a" 100 nan nan ["BTC"%string] ])
    by (vm_compute; reflexivity).
  cbv zeta. rewrite He.
  split; [ reflexivity | split; [ reflexivity | split; [ reflexivity | ] ] ].
  split; [ reflexivity | ].
  intros e [ -> | H ]%elem_of_cons; [ split; reflexivity | inversion H ].
Qed.

End LeaderboardFacts.

(** ** The order execution gate *)

Module GateFacts.

Import Database WebServer GateSpec.

Lemma fee_factor : (1 + 0.001)%float = 1.001%float.
Proof. reflexivity. Qed.

Lemma est_price_reference (market : Market) (sym : string)
    (data : TradeModel) (ref : float) :
  reference_price (price data) (prices market !! sym) = Some ref ->
  est_price market sym data = Ok ref.
Proof.
  unfold est_price, reference_price, PyNum.float_truthy.
  destruct (price data) as [ p | ].
  - destruct (p =? 0)%float; cbn.
    + now intros ->.
    + now intros [= ->].
  - now intros ->.
Qed.

Lemma estimated_cost_reference (market : Market) (sym : string)
    (data : TradeModel) (ref : float) :
  reference_price (price data) (prices market !! sym) = Some ref ->
  estimated_cost market sym data = Ok (ref * amount data * (1 + 0.001))%float.
Proof.
  intros Href. unfold estimated_cost.
  now rewrite (est_price_reference _ _ _ _ Href), fee_factor.
Qed.

Section TradeFacts.

Variable upper : string -> string.
Variable match_single_order : Db -> Z -> Db * result unit.
Variable get_china_time : Z.
Variable random_rowid : Db -> option Z.

Abbreviation validate := (validate upper).
Abbreviation trade :=
  (trade upper match_single_order get_china_time random_rowid).
Abbreviation reaches := (reaches_check upper).

Lemma validate_reaches_check (market : Market) (db : Db) (uid : string)
    (data : TradeModel) (user : User) :
  reaches market db uid data user ->
  validate market db uid data
    = match check_action market db uid (upper (symbol data)) user data with
      | Ok tt => Ok (upper (symbol data))
      | Raise e => Raise e
      end.
Proof.
  intros (Hopen & Huser & Hsym & Hamt). unfold WebServer.validate.
  rewrite Hopen, Huser. cbn.
  rewrite bool_decide_eq_true_2 by assumption. cbn.
  now rewrite (FloatOrder.ltb_leb_false _ _ Hamt).
Qed.

Lemma trade_rejected (market : Market) (db : Db) (uid : string)
    (data : TradeModel) (e : exn) :
  validate market db uid data = Raise e ->
  trade market db uid data = (db, Raise e).
Proof. intros H. unfold WebServer.trade. now rewrite H. Qed.

(** C1 (amended): for a buy request that reaches the balance check, the
    estimated cost is [reference_price * amount * (1 + 0.001)], where the
    reference price is the limit price when one is supplied and is not
    zero, and the market's price of the symbol otherwise; when the balance
    is below the cost the request is rejected with status 400, the message
    carries the cost, and the database is unchanged; otherwise the check
    passes. *)
Theorem buy_balance_check (market : Market) (db : Db) (uid : string)
    (data : TradeModel) (user : User) (ref : float) :
  reaches market db uid data user ->
  action data = "buy"%string ->
  reference_price (price data) (prices market !! upper (symbol data))
    = Some ref ->
  let cost := (ref * amount data * (1 + 0.001))%float in
  estimated_cost market (upper (symbol data)) data = Ok cost /\
  ((balance user <? cost)%float = true ->
     validate market db uid data
       = Raise (HTTPException 400 (InsufficientBalanceNeed cost)) /\
     trade market db uid data
       = (db, Raise (HTTPException 400 (InsufficientBalanceNeed cost)))) /\
  ((balance user <? cost)%float = false ->
     validate market db uid data = Ok (upper (symbol data))).
Proof.
  intros Hadm Hbuy Href cost.
  pose proof (estimated_cost_reference market _ data ref Href) as Hcost.
  fold cost in Hcost.
  assert (Hv : validate market db uid data
               = if (balance user <? cost)%float
                 then Raise (HTTPException 400 (InsufficientBalanceNeed cost))
                 else Ok (upper (symbol data))).
  { rewrite (validate_reaches_check _ _ _ _ _ Hadm). unfold check_action.
    rewrite Hbuy, Hcost. cbn [String.eqb Ascii.eqb Bool.eqb].
    now destruct (balance user <? cost)%float. }
  split; [ exact Hcost | split ]; intros Hlt; rewrite Hlt in Hv.
  - split; [ exact Hv | now apply trade_rejected ].
  - exact Hv.
Qed.

(** C10: a buy request whose limit price equals zero is treated as the
    request without a limit price: the estimated cost comes from the
    market's price of the symbol, and the checks give the same outcome. *)
Theorem zero_limit_price_uses_market_price (market : Market) (db : Db)
    (uid : string) (data : TradeModel) (p : float) :
  action data = "buy"%string ->
  price data = Some p ->
  (p =? 0)%float = true ->
  let sym := upper (symbol data) in
  estimated_cost market sym data
    = match prices market !! sym with
      | Some mp => Ok (mp * amount data * 1.001)%float
      | None => Raise (KeyError sym)
      end /\
  estimated_cost market sym data
    = estimated_cost market sym (with_price data None) /\
  validate market db uid data = validate market db uid (with_price data None).
Proof.
  intros _ Hp Hz sym.
  assert (He : forall s, est_price market s data
                         = est_price market s (with_price data None)).
  { intros s. unfold est_price, PyNum.float_truthy. cbn. now rewrite Hp, Hz. }
  assert (Hc : forall s, estimated_cost market s data
                         = estimated_cost market s (with_price data None)).
  { intros s. unfold estimated_cost. now rewrite He. }
  split; [ | split; [ apply Hc | ] ].
  - rewrite Hc. unfold estimated_cost, est_price. cbn.
    now destruct (prices market !! sym).
  - unfold WebServer.validate, check_action. cbn.
    destruct (is_open market), (query_user db uid); cbn; try reflexivity.
    now rewrite Hc.
Qed.

(** C9: a sell request for a symbol the user holds no row of, or less of
    than the requested amount, is rejected: [trade] raises, no order row is
    added, and users and holdings are as before; once the request reaches the
    check, the error is 400 "Insufficient holding". *)
Theorem sell_insufficient_holding_rejected (market : Market) (db : Db)
    (uid : string) (data : TradeModel) :
  action data = "sell"%string ->
  (query_holding db uid (upper (symbol data)) = None \/
   exists holding,
     query_holding db uid (upper (symbol data)) = Some holding /\
     (h_amount holding <? amount data)%float = true) ->
  (exists e, trade market db uid data = (db, Raise e)) /\
  orders (trade market db uid data).1 = orders db /\
  users (trade market db uid data).1 = users db /\
  holdings (trade market db uid data).1 = holdings db /\
  (forall user, reaches market db uid data user ->
     trade market db uid data
       = (db, Raise (HTTPException 400 InsufficientHolding))).
Proof.
  intros Hsell Hhold.
  assert (Hchk : forall user,
            check_action market db uid (upper (symbol data)) user data
              = Raise (HTTPException 400 InsufficientHolding)).
  { intros user. unfold check_action. rewrite Hsell. cbn.
    destruct Hhold as [ -> | (h & -> & ->) ]; reflexivity. }
  assert (Hraise : exists e, validate market db uid data = Raise e).
  { unfold WebServer.validate.
    destruct (is_open market); cbn; [ | eauto ].
    destruct (query_user db uid) as [ user | ]; [ | eauto ].
    destruct (bool_decide _); cbn; [ | eauto ].
    destruct (amount data <=? 0)%float; [ eauto | ].
    rewrite Hchk. eauto. }
  destruct Hraise as (e & He).
  rewrite (trade_rejected _ _ _ _ _ He). cbn.
  split; [ eauto | ]. repeat split.
  intros user Hadm. f_equal.
  rewrite (validate_reaches_check _ _ _ _ _ Hadm), Hchk in He. congruence.
Qed.

End TradeFacts.

Lemma ex_reaches_check (sym : string) (amt : float) (limit : option float)
    (act : string) :
  ascii_upper sym = "BTC"%string -> (0 <? amt)%float = true ->
  reaches_check ascii_upper ex_market ex_db "u1"
    (mk_TradeModel sym amt limit act) ex_user.
Proof.
  intros Hsym Hamt. unfold reaches_check. cbn [symbol amount].
  rewrite Hsym.
  split; [ reflexivity | split; [ reflexivity | split; [ | exact Hamt ] ] ].
  unfold ex_market; cbn. now apply elem_of_singleton.
Qed.

Lemma buy_balance_check_witness :
  validate ascii_upper ex_market ex_db "u1" (buy "btc" 1 (Some 100%float))
    = Raise (HTTPException 400
               (InsufficientBalanceNeed (100 * 1 * (1 + 0.001))%float)) /\
  validate ascii_upper ex_market ex_db "u1" (buy "btc" 0.25 None)
    = Ok "BTC"%string.
Proof.
  split.
  - refine (proj1 (proj1 (proj2 (buy_balance_check ascii_upper idle_matcher 0
              no_random_rowid ex_market ex_db "u1"
              (buy "btc" 1 (Some 100%float)) ex_user 100%float _ _ _)) _)).
    + now apply ex_reaches_check.
    + reflexivity.
    + reflexivity.
    + reflexivity.
  - refine (proj2 (proj2 (buy_balance_check ascii_upper idle_matcher 0
              no_random_rowid ex_market ex_db "u1" (buy "btc" 0.25 None)
              ex_user 100%float _ _ _)) _).
    + now apply ex_reaches_check.
    + reflexivity.
    + reflexivity.
    + reflexivity.
Defined.

(** C1 as stated fails. With a limit price of zero the request is rejected
    for the market's price although the claimed cost, zero, is covered by
    the balance; and a rejection reports the cost, which differs from the
    shortfall. *)
Lemma buy_check_as_claimed_counterexample :
  (reaches_check ascii_upper ex_market ex_db "u1"
     (buy "BTC" 1 (Some 0%float)) ex_user /\
   check_action ex_market ex_db "u1" "BTC" ex_user (buy "BTC" 1 (Some 0%float))
     = Raise (HTTPException 400 (InsufficientBalanceNeed (100 * 1 * 1.001)%float)) /\
   claimed_buy_check ex_market "BTC" ex_user (buy "BTC" 1 (Some 0%float))
     = Ok tt) /\
  (reaches_check ascii_upper ex_market ex_db "u1"
     (buy "BTC" 1 (Some 100%float)) ex_user /\
   check_action ex_market ex_db "u1" "BTC" ex_user
     (buy "BTC" 1 (Some 100%float))
     = Raise (HTTPException 400 (InsufficientBalanceNeed (100 * 1 * 1.001)%float)) /\
   claimed_buy_check ex_market "BTC" ex_user (buy "BTC" 1 (Some 100%float))
     = Raise (HTTPException 400
                (InsufficientBalanceNeed (100 * 1 * 1.001 - 50)%float)) /\
   (100 * 1 * 1.001 =? 100 * 1 * 1.001 - 50)%float = false).
Proof.
  split; [ split; [ | split ] | split; [ | split; [ | split ] ] ];
    try (now apply ex_reaches_check); reflexivity.
Qed.

Lemma zero_limit_price_uses_market_price_witness :
  estimated_cost ex_market "BTC" (buy "btc" 1 (Some 0%float))
    = Ok (100 * 1 * 1.001)%float /\
  validate ascii_upper ex_market ex_db "u1" (buy "btc" 1 (Some (-0)%float))
    = validate ascii_upper ex_market ex_db "u1" (buy "btc" 1 None).
Proof.
  split.
  - exact (proj1 (zero_limit_price_uses_market_price ascii_upper ex_market
             ex_db "u1" (buy "btc" 1 (Some 0%float)) 0%float
             eq_refl eq_refl eq_refl)).
  - exact (proj2 (proj2 (zero_limit_price_uses_market_price ascii_upper
             ex_market ex_db "u1" (buy "btc" 1 (Some (-0)%float)) (-0)%float
             eq_refl eq_refl eq_refl))).
Defined.

Lemma sell_insufficient_holding_rejected_witness :
  trade ascii_upper idle_matcher 0 no_random_rowid ex_market ex_db "u1"
    (mk_TradeModel "btc" 3 None "sell")
    = (ex_db, Raise (HTTPException 400 InsufficientHolding)) /\
  orders (trade ascii_upper idle_matcher 0 no_random_rowid ex_market ex_db
            "u1" (mk_TradeModel "eth" 3 None "sell")).1 = [].
Proof.
  split.
  - refine (proj2 (proj2 (proj2 (proj2 (sell_insufficient_holding_rejected
              ascii_upper idle_matcher 0 no_random_rowid ex_market ex_db
              "u1" (mk_TradeModel "btc" 3 None "sell") eq_refl _))))
              ex_user _).
    + right. exists (mk_UserHolding 1 "u1" "BTC" 2). now split.
    + now apply ex_reaches_check.
  - exact (proj1 (proj2 (sell_insufficient_holding_rejected
              ascii_upper idle_matcher 0 no_random_rowid ex_market ex_db
              "u1" (mk_TradeModel "eth" 3 None "sell") eq_refl
              (or_introl eq_refl)))).
Defined.

End GateFacts.

(** ** [DB._migrate] *)

Module MigrationFacts.

Import Database MigrationSpec.

(** *** Steps that compose to an idempotent run *)

Lemma keeps_run (f : step) (fs : list step) (s : schema) (w : list warning) :
  Forall (fun g => keeps g f) fs -> settled f s w ->
  settled f (run fs s).1 w.
Proof.
  intros Hk. revert s. induction Hk as [ | g fs Hg Hk IH ]; intros s Hs.
  - exact Hs.
  - cbn. destruct (g s) as [s1 w1] eqn:Hgs.
    specialize (Hg s w Hs). rewrite Hgs in Hg. cbn in Hg.
    specialize (IH s1 Hg). destruct (run fs s1) as [s2 w2]. exact IH.
Qed.

Lemma run_twice (fs : list step) :
  compatible fs -> forall s, run fs (run fs s).1 = run fs s.
Proof.
  induction 1 as [ | f fs Hf Hk Hc IH ]; intros s; [ reflexivity | ].
  cbn. destruct (f s) as [s1 w1] eqn:Hfs.
  pose proof (Hf s) as Hs1. rewrite Hfs in Hs1. cbn in Hs1.
  pose proof (keeps_run f fs s1 w1 Hk Hs1) as Hs2.
  pose proof (IH s1) as IH1.
  destruct (run fs s1) as [s2 w2]. cbn in *.
  unfold settled in Hs2. now rewrite Hs2, IH1.
Qed.

(** *** Names *)

Lemma nocase_eqb_eq (a b : string) : nocase_eqb a b = true <-> lower a = lower b.
Proof. unfold nocase_eqb. apply String.eqb_eq. Qed.

Lemma nocase_eqb_refl (a : string) : nocase_eqb a a = true.
Proof. now apply nocase_eqb_eq. Qed.

Lemma nocase_eqb_trans_false (a b n : string) :
  nocase_eqb a b = false -> nocase_eqb b n = true -> nocase_eqb a n = false.
Proof.
  intros Hab Hbn. apply not_true_is_false. intros Han.
  apply nocase_eqb_eq in Hbn, Han.
  assert (nocase_eqb a b = true) by (apply nocase_eqb_eq; congruence).
  congruence.
Qed.

Lemma eqb_nocase (a b : string) :
  String.eqb a b = true -> nocase_eqb a b = true.
Proof. intros ->%String.eqb_eq. apply nocase_eqb_refl. Qed.

(** *** Tables *)

Lemma find_table_add_same (t c : string) ts cols :
  find_table t ts = Some cols ->
  find_table t (add_to_table t c ts) = Some (cols ++ [c]).
Proof.
  induction ts as [ | [n cs] ts IH ]; cbn; [ discriminate | ].
  destruct (nocase_eqb t n) eqn:Hn; cbn; rewrite Hn.
  - now intros [= ->].
  - exact IH.
Qed.

Lemma find_table_add_other (t t' c : string) ts :
  nocase_eqb t t' = false ->
  find_table t (add_to_table t' c ts) = find_table t ts.
Proof.
  intros Hne. induction ts as [ | [n cs] ts IH ]; cbn; [ reflexivity | ].
  destruct (nocase_eqb t' n) eqn:Hn; cbn.
  - now rewrite (nocase_eqb_trans_false _ _ _ Hne Hn).
  - now rewrite IH.
Qed.

Lemma add_to_table_changes (t c : string) ts cols :
  find_table t ts = Some cols -> add_to_table t c ts <> ts.
Proof.
  intros Hf Heq. pose proof (find_table_add_same t c ts cols Hf) as H.
  rewrite Heq, Hf in H. injection H as H.
  apply (f_equal length) in H. rewrite length_app in H. cbn in H. lia.
Qed.

Lemma column_exists_has_column (s : schema) (t c : string) cols :
  find_table t (tables s) = Some cols ->
  column_exists s t c = true -> has_column c cols = true.
Proof.
  unfold column_exists, table_info, has_column. intros ->.
  rewrite !existsb_exists. intros (x & Hx & He). eauto using eqb_nocase.
Qed.

(** *** The "check and add" step *)

Lemma column_step_depends (t c : string) (s s2 : schema) (w : list warning) :
  find_table t (tables s2) = find_table t (tables s) ->
  settled (column_step t c) s w -> settled (column_step t c) s2 w.
Proof.
  unfold settled, column_step, add_column_step, column_exists, table_info,
    alter_add_column.
  intros ->. destruct (find_table t (tables s)) as [ cols | ] eqn:Hf.
  - destruct (existsb (String.eqb c) cols); [ now intros [= <-] | ].
    destruct (has_column c cols); [ now intros [= <-] | ].
    intros [= Hs _]. exfalso.
    apply (add_to_table_changes t c (tables s) cols Hf).
    now rewrite <- Hs at 2.
  - cbn. now intros [= <-].
Qed.

Lemma column_step_schema (t c : string) (s : schema) :
  (column_step t c s).1
    = mk_schema (add_if_absent t c (tables s)) (indexes s).
Proof.
  unfold column_step, add_column_step, add_if_absent.
  destruct (column_exists s t c) eqn:Hex.
  - destruct (find_table t (tables s)) as [ cols | ] eqn:Hf.
    + rewrite (column_exists_has_column s t c cols Hf Hex). now destruct s.
    + now destruct s.
  - unfold alter_add_column.
    destruct (find_table t (tables s)) as [ cols | ]; [ | now destruct s ].
    destruct (has_column c cols); [ now destruct s | reflexivity ].
Qed.

Lemma column_step_settles (t c : string) : settles_itself (column_step t c).
Proof.
  intros s. unfold settled.
  destruct (column_step t c s) as [s1 w1] eqn:Hstep. cbn.
  revert Hstep.
  unfold column_step, add_column_step, column_exists, table_info,
    alter_add_column.
  destruct (find_table t (tables s)) as [ cols | ] eqn:Hf.
  - destruct (existsb (String.eqb c) cols) eqn:Hex.
    + intros [= <- <-]. now rewrite Hf, Hex.
    + destruct (has_column c cols) eqn:Hc.
      * intros [= <- <-]. now rewrite Hf, Hex, Hc.
      * intros [= <- <-]. cbn.
        rewrite (find_table_add_same t c _ cols Hf).
        rewrite existsb_app. cbn. rewrite String.eqb_refl.
        now rewrite orb_true_r.
  - cbn. intros [= <- <-]. now rewrite Hf.
Qed.

Lemma column_step_find_other (t t' c' : string) (s : schema) :
  nocase_eqb t t' = false ->
  find_table t (tables (column_step t' c' s).1) = find_table t (tables s).
Proof.
  intros Hne. rewrite column_step_schema. cbn. unfold add_if_absent.
  destruct (find_table t' (tables s)) as [ cols | ]; [ | reflexivity ].
  destruct (has_column c' cols); [ reflexivity | ].
  now apply find_table_add_other.
Qed.

Lemma column_keeps_column (t c t' c' : string) :
  nocase_eqb t t' = false -> keeps (column_step t' c') (column_step t c).
Proof.
  intros Hne s w. apply column_step_depends.
  now apply column_step_find_other.
Qed.

(** *** The index step *)

Lemma index_step_tables d (s : schema) :
  tables (index_step d s).1 = tables s.
Proof.
  destruct d as [[n t] cols].
  unfold index_step, create_index_step, create_index_if_not_exists.
  destruct (find_table t (tables s)); [ | reflexivity ].
  destruct (bool_decide _); [ reflexivity | ].
  destruct (has_index n (indexes s)); [ reflexivity | ].
  now destruct (List.find _ cols).
Qed.

Lemma index_step_indexes (n t : string) (cols : list string) (s : schema) :
  indexes (index_step (n, t, cols) s).1 = indexes s \/
  (has_index n (indexes s) = false /\
   indexes (index_step (n, t, cols) s).1
     = indexes s ++ [mk_index n t cols]).
Proof.
  unfold index_step, create_index_step, create_index_if_not_exists.
  destruct (find_table t (tables s)); [ | now left ].
  destruct (bool_decide _); [ now left | ].
  destruct (has_index n (indexes s)); [ now left | ].
  destruct (List.find _ cols); [ now left | right; now split ].
Qed.

Lemma has_index_app (n : string) (l1 l2 : list index) :
  has_index n (l1 ++ l2) = has_index n l1 || has_index n l2.
Proof. unfold has_index. apply existsb_app. Qed.

Lemma index_step_depends (n t : string) (cols : list string)
    (s s2 : schema) (w : list warning) :
  tables s2 = tables s ->
  has_index n (indexes s2) = has_index n (indexes s) ->
  settled (index_step (n, t, cols)) s w ->
  settled (index_step (n, t, cols)) s2 w.
Proof.
  unfold settled, index_step, create_index_step, create_index_if_not_exists.
  intros -> ->. destruct (find_table t (tables s)) as [ tcols | ];
    [ | cbn; now intros [= <-] ].
  destruct (bool_decide _); [ cbn; now intros [= <-] | ].
  destruct (has_index n (indexes s)); [ now intros [= <-] | ].
  destruct (List.find _ cols); [ cbn; now intros [= <-] | ].
  intros [= Hs _]. exfalso. apply (f_equal indexes) in Hs. cbn in Hs.
  apply (f_equal length) in Hs. rewrite length_app in Hs. cbn in Hs. lia.
Qed.

Lemma index_step_settles d : settles_itself (index_step d).
Proof.
  destruct d as [[n t] cols]. intros s. unfold settled.
  destruct (index_step (n, t, cols) s) as [s1 w1] eqn:Hstep. cbn.
  revert Hstep.
  unfold index_step, create_index_step, create_index_if_not_exists.
  destruct (find_table t (tables s)) as [ tcols | ] eqn:Hf.
  - destruct (bool_decide (is_Some (find_table n (tables s)))) eqn:Hn.
    + cbn. intros [= <- <-]. now rewrite Hf, Hn.
    + destruct (has_index n (indexes s)) eqn:Hi.
      * intros [= <- <-]. now rewrite Hf, Hn, Hi.
      * destruct (List.find _ cols) eqn:Hc.
        -- cbn. intros [= <- <-]. now rewrite Hf, Hn, Hi, Hc.
        -- intros [= <- <-]. cbn [tables indexes].
           rewrite Hf, Hn, has_index_app, Hi. cbn.
           now rewrite nocase_eqb_refl.
  - cbn. intros [= <- <-]. now rewrite Hf.
Qed.

Lemma index_keeps_column d (t c : string) :
  keeps (index_step d) (column_step t c).
Proof.
  intros s w. apply column_step_depends. now rewrite index_step_tables.
Qed.

Lemma index_keeps_index (n t : string) (cols : list string)
    (n' t' : string) (cols' : list string) :
  nocase_eqb n n' = false ->
  keeps (index_step (n', t', cols')) (index_step (n, t, cols)).
Proof.
  intros Hne s w. apply index_step_depends; [ apply index_step_tables | ].
  destruct (index_step_indexes n' t' cols' s) as [ -> | (_ & ->) ];
    [ reflexivity | ].
  rewrite has_index_app. cbn. now rewrite Hne, !orb_false_r.
Qed.

Lemma migration_steps_compatible : compatible migration_steps.
Proof.
  unfold migration_steps, index_definitions. cbn [app map].
  repeat match goal with
    | |- compatible [] => constructor
    | |- compatible (_ :: _) => constructor
    | |- settles_itself (column_step _ _) => apply column_step_settles
    | |- settles_itself (index_step _) => apply index_step_settles
    | |- Forall _ [] => constructor
    | |- Forall _ (_ :: _) => constructor
    | |- keeps (column_step _ _) (column_step _ _) =>
        apply column_keeps_column; reflexivity
    | |- keeps (index_step _) (column_step _ _) => apply index_keeps_column
    | |- keeps (index_step _) (index_step _) =>
        apply index_keeps_index; reflexivity
    end.
Qed.

(** *** [_migrate] is the run of its steps *)

Lemma add_column_step_log (t c : string) (s : schema) (log : list warning) :
  add_column_step t c (s, log)
    = ((column_step t c s).1, log ++ (column_step t c s).2).
Proof.
  unfold column_step, add_column_step.
  destruct (column_exists s t c); cbn; [ now rewrite app_nil_r | ].
  destruct (alter_add_column t c s); cbn; [ now rewrite app_nil_r | ].
  reflexivity.
Qed.

Lemma create_index_step_log d (s : schema) (log : list warning) :
  create_index_step (s, log) d
    = ((index_step d s).1, log ++ (index_step d s).2).
Proof.
  destruct d as [[n t] cols]. unfold index_step, create_index_step.
  destruct (create_index_if_not_exists n t cols s); cbn;
    [ now rewrite app_nil_r | reflexivity ].
Qed.

Lemma foldl_index_steps ds (s : schema) (log : list warning) :
  foldl create_index_step (s, log) ds
    = ((run (map index_step ds) s).1, log ++ (run (map index_step ds) s).2).
Proof.
  revert s log. induction ds as [ | d ds IH ]; intros s log; cbn [foldl map run].
  - cbn. now rewrite app_nil_r.
  - rewrite create_index_step_log, IH.
    destruct (index_step d s) as [s1 w1]. cbn.
    destruct (run (map index_step ds) s1) as [s2 w2]. cbn.
    now rewrite app_assoc.
Qed.

Lemma migrate_run (s : schema) : _migrate s = run migration_steps s.
Proof.
  unfold _migrate, migration_steps. cbn [app run].
  rewrite !add_column_step_log, foldl_index_steps.
  destruct (column_step "orders" "symbol" s) as [s1 w1]. cbn [fst snd].
  destruct (column_step "market_history" "symbol" s1) as [s2 w2]. cbn [fst snd].
  destruct (column_step "users" "password_hash" s2) as [s3 w3]. cbn [fst snd].
  destruct (run (map index_step index_definitions) s3) as [s4 w4].
  cbn [fst snd]. now rewrite !app_assoc.
Qed.

(** *** What a run adds *)

Lemma run_index_tables ds (s : schema) :
  tables (run (map index_step ds) s).1 = tables s.
Proof.
  revert s. induction ds as [ | d ds IH ]; intros s; [ reflexivity | ].
  cbn [map run]. pose proof (index_step_tables d s) as Hd.
  destruct (index_step d s) as [s1 w1]. cbn in Hd.
  pose proof (IH s1) as H1.
  destruct (run (map index_step ds) s1) as [s2 w2]. cbn in *. congruence.
Qed.

Lemma run_index_indexes ds (s : schema) :
  exists new,
    indexes (run (map index_step ds) s).1 = indexes s ++ new /\
    Forall (fun ix => has_index (idx_name ix) (indexes s) = false) new.
Proof.
  revert s. induction ds as [ | [[n t] cols] ds IH ]; intros s.
  - exists []. cbn. now rewrite app_nil_r.
  - cbn [map run].
    pose proof (index_step_indexes n t cols s) as Hd.
    destruct (index_step (n, t, cols) s) as [s1 w1]. cbn [fst] in Hd.
    destruct (IH s1) as (new & Hn & Hf).
    destruct (run (map index_step ds) s1) as [s2 w2]. cbn [fst] in *.
    destruct Hd as [ Hd | (Hi & Hd) ]; rewrite Hd in Hn, Hf.
    + now exists new.
    + exists (mk_index n t cols :: new). split.
      * now rewrite Hn, <- app_assoc.
      * constructor; [ exact Hi | ].
        eapply Forall_impl; [ exact Hf | ]. cbn. intros ix.
        rewrite has_index_app. now intros (H & _)%orb_false_iff.
Qed.



(** *** No duplicate *)












End MigrationFacts.

(** ** More of [compute_leaderboard] *)

Module LeaderboardMore.

Import Leaderboard LeaderboardSpec LeaderboardFacts LeaderboardMoreSpec.

(** *** One key at a time *)

Lemma keys_add_holding prices d row :
  PyDict.keys (add_holding prices d row) = PyDict.keys d.
Proof.
  destruct row as [[uid sym] qty]. unfold add_holding.
  destruct (PyDict.get uid d) eqn:Hg; [ | reflexivity ].
  destruct (is_dust qty); [ reflexivity | ].
  now rewrite DictFacts.keys_set, Hg.
Qed.

Lemma keys_foldl_add_holding prices holdings d :
  PyDict.keys (foldl (add_holding prices) d holdings) = PyDict.keys d.
Proof.
  revert d. induction holdings as [ | row l IH ]; intros d; cbn [foldl];
    [ reflexivity | ].
  now rewrite IH, keys_add_holding.
Qed.

Lemma elem_of_keys_set {V : Type} (k k' : string) (v : V) (d : PyDict.t V) :
  k' ∈ PyDict.keys (PyDict.set k v d) <-> k' = k \/ k' ∈ PyDict.keys d.
Proof.
  rewrite DictFacts.keys_set. destruct (PyDict.get k d) eqn:Hg.
  - split; [ auto | intros [ -> | H ]; [ | exact H ] ].
    destruct (decide (k ∈ PyDict.keys d)) as [ H | H ]; [ exact H | ].
    apply DictFacts.get_None_keys in H. congruence.
  - rewrite elem_of_app, list_elem_of_singleton. tauto.
Qed.

Lemma keys_seeded users d (k : string) :
  k ∈ PyDict.keys (foldl seed_user d users)
  <-> k ∈ PyDict.keys d \/ k ∈ users.*1.
Proof.
  revert d. induction users as [ | [uid cash] l IH ]; intros d; cbn [foldl].
  - rewrite fmap_nil, elem_of_nil. tauto.
  - rewrite IH, fmap_cons, elem_of_cons. unfold seed_user.
    rewrite elem_of_keys_set. cbn. tauto.
Qed.

Lemma keys_aggregates users holdings prices (k : string) :
  k ∈ PyDict.keys (aggregates users holdings prices) <-> k ∈ users.*1.
Proof.
  unfold aggregates. rewrite keys_foldl_add_holding, keys_seeded.
  unfold PyDict.keys at 1. cbn [map]. rewrite elem_of_nil. tauto.
Qed.

(** What a row does to the record of its user. *)
Lemma get_add_holding_same prices d (uid sym : string) (qty : float) :
  PyDict.get uid (add_holding prices d (uid, sym, qty))
    = match PyDict.get uid d with
      | Some e => Some (if is_dust qty then e else add_value prices sym qty e)
      | None => None
      end.
Proof.
  unfold add_holding. destruct (PyDict.get uid d) as [ e | ] eqn:Hg;
    [ | exact Hg ].
  destruct (is_dust qty); [ exact Hg | apply DictFacts.get_set_eq ].
Qed.

Lemma get_add_holding_ext prices d1 d2 row (k : string) :
  PyDict.get k d1 = PyDict.get k d2 ->
  PyDict.get k (add_holding prices d1 row)
    = PyDict.get k (add_holding prices d2 row).
Proof.
  intros H. destruct row as [[uid sym] qty].
  destruct (decide (uid = k)) as [ -> | Hne ].
  - now rewrite !get_add_holding_same, H.
  - now rewrite !add_holding_other.
Qed.

Lemma get_foldl_add_holding_ext prices holdings d1 d2 (k : string) :
  PyDict.get k d1 = PyDict.get k d2 ->
  PyDict.get k (foldl (add_holding prices) d1 holdings)
    = PyDict.get k (foldl (add_holding prices) d2 holdings).
Proof.
  revert d1 d2. induction holdings as [ | row l IH ]; intros d1 d2 H; cbn;
    [ exact H | ].
  now apply IH, get_add_holding_ext.
Qed.

(** The first loop leaves under a key the record of its last row. *)
Lemma seed_user_other d (uid k : string) (cash : float) :
  uid <> k ->
  PyDict.get k (seed_user d (uid, cash)) = PyDict.get k d.
Proof. intros Hne. now apply DictFacts.get_set_ne. Qed.

Lemma get_seeded_last users d (l1 l2 : list (string * float))
    (k : string) (cash : float) :
  users = l1 ++ (k, cash) :: l2 -> k ∉ l2.*1 ->
  PyDict.get k (foldl seed_user d users) = Some (mk_entry k cash 0 cash ∅).
Proof.
  intros -> Hnin. rewrite foldl_app. cbn [foldl].
  set (d1 := seed_user _ (k, cash)).
  assert (H1 : PyDict.get k d1 = Some (mk_entry k cash 0 cash ∅))
    by apply DictFacts.get_set_eq.
  clearbody d1. revert d1 H1.
  induction l2 as [ | [uid c] l2 IH ]; intros d1 H1; [ exact H1 | ].
  rewrite fmap_cons in Hnin. apply not_elem_of_cons in Hnin as (Hne & Hnin).
  cbn [foldl]. apply IH; [ exact Hnin | ].
  rewrite seed_user_other by (cbn in Hne; congruence). exact H1.
Qed.

(** *** What the second loop keeps *)

Lemma balance_add_value prices sym qty (e : aggregate) :
  balance (add_value prices sym qty e) = balance e.
Proof. unfold add_value. now destruct (price_of _ _ _). Qed.

Lemma settled_total_add_value prices sym qty (e : aggregate) :
  settled_total (add_value prices sym qty e).
Proof.
  unfold settled_total, add_value, is_nan.
  destruct (price_of _ _ _). cbn. now rewrite negb_involutive.
Qed.

Lemma settled_total_fresh (k : string) (cash : float) :
  settled_total (mk_entry k cash 0 cash (∅ : gset string)).
Proof.
  unfold settled_total, is_nan. cbn.
  now rewrite FloatOrder.add_zero_eqb, negb_involutive.
Qed.

(** The record of a user after the second loop: the balance of the seeded
    record, and a settled total. *)
Lemma foldl_add_holding_keeps prices holdings d (u : string) (a : aggregate) :
  PyDict.get u d = Some a -> settled_total a ->
  exists a',
    PyDict.get u (foldl (add_holding prices) d holdings) = Some a' /\
    balance a' = balance a /\ settled_total a'.
Proof.
  revert d a. induction holdings as [ | [[uid sym] qty] l IH ];
    intros d a Ha Hs; cbn [foldl]; [ eauto | ].
  destruct (decide (uid = u)) as [ -> | Hne ].
  - pose proof (get_add_holding_same prices d u sym qty) as H1.
    rewrite Ha in H1. destruct (is_dust qty).
    + now apply (IH _ a).
    + destruct (IH _ _ H1 (settled_total_add_value _ _ _ _))
        as (a' & Ha' & Hb & Hs').
      exists a'. rewrite balance_add_value in Hb. auto.
  - apply (IH _ a); [ | exact Hs ]. now rewrite add_holding_other.
Qed.

(** Rows of users without a record change nothing. *)
Lemma foldl_add_holding_known prices (ids : list string) holdings d :
  (forall k, k ∈ PyDict.keys d <-> k ∈ ids) ->
  foldl (add_holding prices) d holdings
    = foldl (add_holding prices) d
        (filter (fun row => row.1.1 ∈ ids) holdings).
Proof.
  revert d. induction holdings as [ | [[uid sym] qty] l IH ]; intros d Hd;
    [ reflexivity | ].
  rewrite filter_cons. cbn [foldl fst].
  destruct (decide (uid ∈ ids)) as [ Hin | Hnin ].
  - cbn [foldl]. apply IH. intros k. now rewrite keys_add_holding.
  - assert (Hg : PyDict.get uid d = None)
      by (apply DictFacts.get_None_keys; now rewrite Hd).
    unfold add_holding at 2. rewrite Hg. now apply IH.
Qed.

(** The first loop does not depend on the order of rows with distinct
    user ids. *)
Lemma get_seeded_Permutation users users' (k : string) :
  users ≡ₚ users' -> NoDup users.*1 ->
  PyDict.get k (foldl seed_user [] users)
    = PyDict.get k (foldl seed_user [] users').
Proof.
  intros Hp Hnd.
  assert (Hnd' : NoDup users'.*1) by now rewrite <- Hp.
  assert (H : forall us cash, NoDup us.*1 -> (k, cash) ∈ us ->
            PyDict.get k (foldl seed_user [] us)
              = Some (mk_entry k cash 0 cash ∅)).
  { intros us cash Hn (l1 & l2 & ->)%list_elem_of_split.
    apply (get_seeded_last _ [] l1 l2); [ reflexivity | ].
    rewrite fmap_app, fmap_cons in Hn.
    apply NoDup_app in Hn as (_ & _ & Hn).
    now apply NoDup_cons in Hn as (Hn & _). }
  destruct (decide (k ∈ users.*1)) as [ Hin | Hnin ].
  - apply list_elem_of_fmap in Hin as ([k0 cash] & Hk & Hin).
    cbn [fst] in Hk. subst k0.
    rewrite (H users cash), (H users' cash); auto. now rewrite <- Hp.
  - assert (H1 : PyDict.get k (foldl seed_user [] users) = None).
    { apply DictFacts.get_None_keys. rewrite keys_seeded.
      intros [ Hk | Hk ]; [ inversion Hk | auto ]. }
    assert (H2 : PyDict.get k (foldl seed_user [] users') = None).
    { apply DictFacts.get_None_keys. rewrite keys_seeded.
      intros [ Hk | Hk ]; [ inversion Hk | ]. apply Hnin. now rewrite Hp. }
    congruence.
Qed.

(** Two dicts with the same value under every key hold the same pairs. *)
Lemma dict_Permutation {V : Type} (d d' : PyDict.t V) :
  NoDup (PyDict.keys d) -> NoDup (PyDict.keys d') ->
  (forall k, PyDict.get k d = PyDict.get k d') -> d ≡ₚ d'.
Proof.
  intros Hd Hd' Hget. apply NoDup_Permutation.
  - exact (NoDup_fmap_1 fst d Hd).
  - exact (NoDup_fmap_1 fst d' Hd').
  - intros [k v]. split; intros Hin; apply DictFacts.get_Some_elem.
    + rewrite <- Hget. now apply DictFacts.elem_get.
    + rewrite Hget. now apply DictFacts.elem_get.
Qed.

(** What the second loop adds up for a user. *)
Lemma add_value_sum prices sym qty (e : aggregate) :
  holdings_value (add_value prices sym qty e)
    = add_row_value prices (holdings_value e) (user_id e, sym, qty) /\
  total (add_value prices sym qty e)
    = (balance e + holdings_value (add_value prices sym qty e))%float.
Proof.
  unfold add_value, price_of, add_row_value. cbn [fst snd].
  now destruct (prices !! sym).
Qed.

Lemma foldl_add_holding_sum prices holdings d (u : string) (a : aggregate) :
  PyDict.get u d = Some a ->
  exists a',
    PyDict.get u (foldl (add_holding prices) d holdings) = Some a' /\
    holdings_value a'
      = foldl (add_row_value prices) (holdings_value a)
          (counted_rows u holdings) /\
    total a'
      = match counted_rows u holdings with
        | [] => total a
        | _ => (balance a + holdings_value a')%float
        end.
Proof.
  revert d a. induction holdings as [ | [[uid sym] qty] l IH ];
    intros d a Ha; [ cbn; eauto | ].
  unfold counted_rows. cbn [foldl List.filter fst snd].
  fold (counted_rows u l).
  destruct (decide (uid = u)) as [ -> | Hne ].
  - rewrite String.eqb_refl. cbn [andb].
    pose proof (get_add_holding_same prices d u sym qty) as H1.
    rewrite Ha in H1. destruct (is_dust qty); cbn [negb].
    + now apply IH.
    + destruct (IH _ _ H1) as (a' & Ha' & Hhv & Htot).
      destruct (add_value_sum prices sym qty a) as (Hv1 & Ht1).
      exists a'. split; [ exact Ha' | ]. cbn [foldl].
      assert (Hrow : add_row_value prices (holdings_value a) (u, sym, qty)
                     = add_row_value prices (holdings_value a)
                         (user_id a, sym, qty)) by reflexivity.
      rewrite Hrow, <- Hv1. split; [ exact Hhv | ].
      rewrite Htot, balance_add_value.
      destruct (counted_rows u l); [ | reflexivity ].
      cbn [foldl] in Hhv. now rewrite Ht1, Hhv.
  - apply String.eqb_neq in Hne as Hneb. rewrite Hneb. cbn [andb].
    apply IH. now rewrite add_holding_other.
Qed.

Section More.

Variable users : list (string * float).
Variable holdings : list (string * string * float).
Variable prices : gmap string float.

Lemma length_ranking :
  length (ranking users holdings prices)
    = size (list_to_set (users.*1) : gset string).
Proof.
  rewrite ranking_Permutation, length_fmap.
  pose proof (aggregates_well_keyed users holdings prices) as Hw.
  replace (length (PyDict.values (aggregates users holdings prices)))
    with (length (PyDict.keys (aggregates users holdings prices)))
    by (unfold PyDict.keys, PyDict.values; now rewrite !length_map).
  rewrite <- (size_list_to_set (C := gset string)) by apply Hw.
  f_equal. apply set_eq. intros k.
  rewrite !elem_of_list_to_set. apply keys_aggregates.
Qed.

Lemma user_ids_ranking :
  user_id <$> ranking users holdings prices
    ≡ₚ PyDict.keys (aggregates users holdings prices).
Proof.
  rewrite ranking_Permutation, <- list_fmap_compose.
  rewrite <- (well_keyed_user_ids _ (aggregates_well_keyed _ _ _)).
  reflexivity.
Qed.

(** X1: the leaderboard has one entry per listed user id, up to the
    clamped limit, hence at least one entry whenever a user is listed,
    whatever [top_n] is; no user id occurs twice in it and every user id in
    it is listed. *)
Theorem leaderboard_size (top_n : Z) :
  let result := compute_leaderboard users holdings prices top_n in
  length result
    = Nat.min (Z.to_nat (_clamp_top_n top_n))
        (size (list_to_set (users.*1) : gset string)) /\
  NoDup (user_id <$> result) /\
  (forall e, e ∈ result -> user_id e ∈ users.*1) /\
  (users <> [] -> result <> []).
Proof.
  intros result. unfold result. rewrite compute_leaderboard_take.
  assert (Hlen : length (take (Z.to_nat (_clamp_top_n top_n))
                           (ranking users holdings prices))
                 = Nat.min (Z.to_nat (_clamp_top_n top_n))
                     (size (list_to_set (users.*1) : gset string)))
    by now rewrite length_take, length_ranking.
  split; [ exact Hlen | split; [ | split ] ].
  - rewrite fmap_take. eapply sublist_NoDup; [ | apply sublist_take ].
    rewrite user_ids_ranking. apply aggregates_well_keyed.
  - intros e He%subseteq_take.
    apply keys_aggregates with (holdings := holdings) (prices := prices).
    rewrite <- user_ids_ranking. now apply list_elem_of_fmap_2.
  - intros Hne Hnil. rewrite Hnil in Hlen. cbn in Hlen.
    pose proof (LeaderboardUtilFacts.clamp_range top_n) as Hr.
    destruct users as [ | [uid cash] l ]; [ now destruct Hne | ].
    assert (Hin : uid ∈ (list_to_set (((uid, cash) :: l).*1) : gset string))
      by (rewrite elem_of_list_to_set, fmap_cons; left).
    assert (Hpos : size (list_to_set (((uid, cash) :: l).*1) : gset string) <> 0%nat).
    { intros Hz. apply size_empty_inv in Hz. apply Hz in Hin.
      now apply not_elem_of_empty in Hin. }
    lia.
Qed.

Lemma result_seeded (top_n : Z) (e : entry (list string)) :
  e ∈ compute_leaderboard users holdings prices top_n ->
  exists a0 a,
    PyDict.get (user_id e) (foldl seed_user [] users) = Some a0 /\
    PyDict.get (user_id e) (aggregates users holdings prices) = Some a /\
    e = finish a /\ balance a = balance a0 /\ settled_total a.
Proof.
  intros He. apply result_entry in He as (a & Ha & ->).
  cbn [finish user_id] in *.
  destruct (PyDict.get (user_id a) (foldl seed_user [] users))
    as [ a0 | ] eqn:H0.
  - pose proof (seeded_fresh _ _ _ H0) as (cash & _ & ->).
    destruct (foldl_add_holding_keeps prices holdings _ _ _ H0
                (settled_total_fresh _ _)) as (a' & Ha' & Hb & Hs).
    unfold aggregates in Ha. rewrite Ha in Ha'. injection Ha' as <-.
    eauto 10.
  - unfold aggregates in Ha.
    rewrite foldl_add_holding_unknown in Ha by exact H0. discriminate.
Qed.

(** X2: the balance of a returned entry is a balance listed for its user:
    the one of the last row of [users] with that user id; the holdings do
    not change it. *)
Theorem leaderboard_balance (top_n : Z) (e : entry (list string)) :
  e ∈ compute_leaderboard users holdings prices top_n ->
  (user_id e, balance e) ∈ users /\
  forall l1 cash l2,
    users = l1 ++ (user_id e, cash) :: l2 -> user_id e ∉ l2.*1 ->
    balance e = cash.
Proof.
  intros (a0 & a & H0 & Ha & -> & Hb & _)%result_seeded.
  cbn [finish user_id balance] in *. split.
  - apply seeded_fresh in H0 as (cash & Hin & ->). cbn in Hb. now rewrite Hb.
  - intros l1 cash l2 Hu Hnin.
    rewrite (get_seeded_last users [] l1 l2 _ cash Hu Hnin) in H0.
    injection H0 as <-. exact Hb.
Qed.

(** X3: in every returned entry the total equals the balance plus the
    holdings value in the comparison of floats, unless it is NaN. *)
Theorem leaderboard_total_settled (top_n : Z) (e : entry (list string)) :
  e ∈ compute_leaderboard users holdings prices top_n ->
  (balance e + holdings_value e =? total e)%float = negb (is_nan (total e)).
Proof.
  intros (a0 & a & _ & _ & -> & _ & Hs)%result_seeded. exact Hs.
Qed.

(** X4: holding rows of users that are not listed change nothing: the
    leaderboard is the one computed from the rows of listed users. *)
Theorem unknown_user_rows_ignored (top_n : Z) :
  compute_leaderboard users holdings prices top_n
    = compute_leaderboard users (known_rows users holdings) prices top_n.
Proof.
  unfold compute_leaderboard, aggregates, known_rows.
  rewrite <- foldl_add_holding_known; [ reflexivity | ].
  intros k. rewrite keys_seeded. unfold PyDict.keys at 1. cbn [map].
  rewrite elem_of_nil. tauto.
Qed.

(** The symbols recorded as missing for a user, in [by_user]. *)
Lemma aggregates_missing_only (a : aggregate) (sym : string) :
  PyDict.get (user_id a) (aggregates users holdings prices) = Some a ->
  sym ∈ missing_symbols a ->
  exists qty,
    (user_id a, sym, qty) ∈ holdings /\ is_dust qty = false /\
    prices !! sym = None.
Proof.
  revert a sym. unfold aggregates.
  apply (foldl_invariant_in
           (fun d => forall a sym, PyDict.get (user_id a) d = Some a ->
              sym ∈ missing_symbols a ->
              exists qty, (user_id a, sym, qty) ∈ holdings /\
                          is_dust qty = false /\ prices !! sym = None)).
  - intros d [[uid s] qty] Hin Hd a sym Ha Hsym.
    destruct (decide (uid = user_id a)) as [ -> | Hne ];
      [ | rewrite add_holding_other in Ha by exact Hne; eauto ].
    rewrite get_add_holding_same in Ha.
    destruct (PyDict.get (user_id a) d) as [ a0 | ] eqn:H0;
      [ | discriminate ].
    destruct (is_dust qty) eqn:Hq; injection Ha as Ha.
    + subst a0. eauto.
    + pose proof (user_id_add_value prices s qty a0) as Hu.
      rewrite Ha in Hu. rewrite Hu in H0.
      rewrite <- Ha in Hsym. unfold add_value, price_of in Hsym.
      destruct (prices !! s) eqn:Hp; cbn in Hsym.
      * destruct (Hd a0 sym) as (q & ? & ? & ?);
          [ exact H0 | exact Hsym | ].
        exists q. now rewrite Hu.
      * apply elem_of_union in Hsym as [ ->%elem_of_singleton | Hsym ].
        -- eauto.
        -- destruct (Hd a0 sym) as (q & ? & ? & ?);
             [ exact H0 | exact Hsym | ].
           exists q. now rewrite Hu.
  - intros a s Ha%seeded_fresh Hs. destruct Ha as (cash & _ & Heq).
    rewrite Heq in Hs. cbn in Hs.
    now apply (not_elem_of_empty (C := gset string)) in Hs.
Qed.

Lemma aggregates_missing_if (a : aggregate) (sym : string) (qty : float) :
  PyDict.get (user_id a) (aggregates users holdings prices) = Some a ->
  (user_id a, sym, qty) ∈ holdings -> is_dust qty = false ->
  prices !! sym = None ->
  sym ∈ missing_symbols a.
Proof.
  intros Ha Hin Hq Hp.
  apply list_elem_of_split in Hin as (l1 & l2 & Hl).
  unfold aggregates in Ha. rewrite Hl, foldl_app in Ha. cbn [foldl] in Ha.
  set (d1 := foldl (add_holding prices) (foldl seed_user [] users) l1) in *.
  pose proof (get_add_holding_same prices d1 (user_id a) sym qty) as Hstep.
  destruct (PyDict.get (user_id a) d1) as [ a1 | ] eqn:Hd1.
  - rewrite Hq in Hstep.
    destruct (foldl_add_holding_grows prices l2 _ _ _ Hstep)
      as (a' & Ha' & Hsub).
    rewrite Ha in Ha'. injection Ha' as <-.
    apply Hsub. rewrite (add_value_missing_price _ _ _ _ Hp). cbn.
    apply elem_of_union_l. now apply elem_of_singleton.
  - rewrite foldl_add_holding_unknown in Ha; [ discriminate | exact Hstep ].
Qed.

Lemma missing_symbols_iff (top_n : Z) (e : entry (list string))
    (sym : string) :
  e ∈ compute_leaderboard users holdings prices top_n ->
  (sym ∈ missing_symbols e <->
   exists qty,
     (user_id e, sym, qty) ∈ holdings /\ is_dust qty = false /\
     prices !! sym = None).
Proof.
  intros (a & Ha & ->)%result_entry.
  cbn [finish missing_symbols user_id] in *.
  rewrite sorted_symbols_elem. split.
  - now apply aggregates_missing_only.
  - intros (qty & Hin & Hq & Hp). now apply (aggregates_missing_if a sym qty).
Qed.

(** X5: the missing symbols of a returned entry are exactly the symbols
    without a price of the rows of its user that are not skipped. *)
Theorem missing_symbols_exact (top_n : Z) (e : entry (list string))
    (sym : string) :
  e ∈ compute_leaderboard users holdings prices top_n ->
  (sym ∈ missing_symbols e <->
   exists qty,
     (user_id e, sym, qty) ∈ holdings /\ is_dust qty = false /\
     prices !! sym = None).
Proof.
  intros He. apply result_entry in He as (a & Ha & Hfin).
  assert (Hu : user_id e = user_id a) by now rewrite Hfin.
  assert (Hm : missing_symbols e = sorted_symbols (missing_symbols a))
    by now rewrite Hfin.
  rewrite Hu in Ha |- *. rewrite Hm, sorted_symbols_elem. split.
  - intros Hsym. now apply aggregates_missing_only.
  - intros (qty & Hin & Hq & Hp).
    exact (aggregates_missing_if a sym qty Ha Hin Hq Hp).
Qed.

(** X6: when the listed user ids are distinct and no total is NaN, the
    leaderboard does not depend on the order of the rows of [users]. *)
Theorem leaderboard_user_order (users' : list (string * float))
    (top_n : Z) :
  users ≡ₚ users' -> NoDup users.*1 ->
  (forall e, e ∈ PyDict.values (aggregates users holdings prices) ->
     is_nan (total e) = false) ->
  compute_leaderboard users holdings prices top_n
    = compute_leaderboard users' holdings prices top_n.
Proof.
  intros Hp Hnd Hnan.
  assert (Hperm : PyDict.values (aggregates users holdings prices)
                  ≡ₚ PyDict.values (aggregates users' holdings prices)).
  { unfold PyDict.values. apply (fmap_Permutation snd).
    apply dict_Permutation; try apply aggregates_well_keyed.
    intros k. unfold aggregates.
    now apply get_foldl_add_holding_ext, get_seeded_Permutation. }
  assert (Hord : forall us,
            PyDict.values (aggregates users holdings prices)
              ≡ₚ PyDict.values (aggregates us holdings prices) ->
            StronglySorted ranks_before
              (PyList.sort_by sort_key key_lt
                 (PyDict.values (aggregates us holdings prices)))).
  { intros us Hus. apply sort_by_ranks_before; [ | apply aggregates_NoDup ].
    apply Forall_forall. intros e He. apply is_nan_ordered, Hnan.
    now rewrite Hus. }
  unfold compute_leaderboard. cbv zeta. do 2 f_equal.
  apply (StronglySorted_unique_strong ranks_before).
  - intros x y _ _ Hxy Hyx. destruct (ranks_before_asym _ _ Hxy Hyx).
  - now apply Hord.
  - now apply Hord.
  - unfold PyList.sort_by. now rewrite !SortFacts.sort_Permutation.
Qed.

(** X22: a leaderboard for a smaller [top_n] is the beginning of the
    leaderboard for a larger one. *)
Theorem leaderboard_prefix (top_n top_m : Z) :
  top_n <= top_m ->
  compute_leaderboard users holdings prices top_n
    = take (Z.to_nat (_clamp_top_n top_n))
        (compute_leaderboard users holdings prices top_m).
Proof.
  intros Hle. rewrite !compute_leaderboard_take, take_take.
  f_equal. unfold _clamp_top_n. lia.
Qed.

(** X23: the holdings value of a returned entry is the sum that starts
    from 0.0 and adds, in the order of the rows, quantity times price
    (0.0 for a symbol without a price) for each row of the user that is
    not skipped; the total is the balance plus this sum, and the balance
    itself for a user without such rows. *)
Theorem leaderboard_value (top_n : Z) (e : entry (list string)) :
  e ∈ compute_leaderboard users holdings prices top_n ->
  let rows := counted_rows (user_id e) holdings in
  holdings_value e = holdings_sum prices rows /\
  total e = match rows with
            | [] => balance e
            | _ => (balance e + holdings_value e)%float
            end.
Proof.
  intros (a0 & a & H0 & Ha & -> & Hb & _)%result_seeded rows.
  cbn [finish user_id balance holdings_value total] in *.
  pose proof (seeded_fresh _ _ _ H0) as (cash & _ & Hfresh).
  destruct (foldl_add_holding_sum prices holdings _ _ _ H0)
    as (a' & Ha' & Hhv & Htot).
  unfold aggregates in Ha. rewrite Ha in Ha'. injection Ha' as <-.
  rewrite Hfresh in Hhv, Htot, Hb. cbn [holdings_value total balance] in *.
  split; [ exact Hhv | ]. rewrite Htot, Hb. reflexivity.
Qed.

End More.

Lemma leaderboard_size_witness :
  length (compute_leaderboard ex_users ex_holdings ex_prices 0) = 1%nat /\
  compute_leaderboard ex_users ex_holdings ex_prices 0 <> [].
Proof.
  split.
  - rewrite (proj1 (leaderboard_size ex_users ex_holdings ex_prices 0)).
    vm_compute. reflexivity.
  - apply (proj2 (proj2 (proj2
             (leaderboard_size ex_users ex_holdings ex_prices 0)))).
    discriminate.
Defined.

Lemma leaderboard_balance_witness :
  balance (mk_entry "alice" 2 0 2 ([] : list string)) = 2%float.
Proof.
  refine (proj2 (leaderboard_balance
                   [("alice"%string, 1%float); ("alice"%string, 2%float)]
                   [] ∅ 10 (mk_entry "alice" 2 0 2 []) _)
            [("alice"%string, 1%float)] 2%float [] eq_refl _).
  - vm_compute. left.
  - apply not_elem_of_nil.
Defined.

Lemma leaderboard_total_settled_witness :
  (1000 + 200 =? 1200)%float = negb (is_nan 1200).
Proof.
  refine (leaderboard_total_settled ex_users ex_holdings ex_prices 10
            (mk_entry "alice" 1000 200 1200 []) _).
  vm_compute. left.
Defined.

Lemma missing_symbols_exact_witness :
  "BTC"%string ∈ ["BTC"%string] <->
  exists qty,
    ("alice"%string, "BTC"%string, qty) ∈ ex_holdings /\
    is_dust qty = false /\ (∅ : gmap string float) !! "BTC"%string = None.
Proof.
  refine (missing_symbols_exact ex_users ex_holdings ∅ 10
            (mk_entry "alice" 1000 0 1000 ["BTC"%string]) "BTC" _).
  vm_compute. left.
Defined.

Lemma leaderboard_user_order_witness :
  compute_leaderboard ex_users ex_holdings ex_prices 10
    = compute_leaderboard
        [("bob"%string, 500%float); ("alice"%string, 1000%float)]
        ex_holdings ex_prices 10.
Proof.
  apply leaderboard_user_order.
  - apply Permutation_swap.
  - apply (bool_decide_unpack _). vm_compute. reflexivity.
  - apply Forall_forall. vm_compute. repeat constructor.
Defined.

Lemma leaderboard_prefix_witness :
  compute_leaderboard ex_users ex_holdings ex_prices 1
    = take 1 (compute_leaderboard ex_users ex_holdings ex_prices 10).
Proof.
  apply (leaderboard_prefix ex_users ex_holdings ex_prices 1 10). lia.
Defined.

Lemma leaderboard_value_witness :
  (200 : float) = holdings_sum ex_prices [("alice"%string, "BTC"%string, 1%float)] /\
  (1200 : float) = (1000 + 200)%float.
Proof.
  refine (leaderboard_value ex_users ex_holdings ex_prices 10
            (mk_entry "alice" 1000 200 1200 []) _).
  vm_compute. left.
Defined.

End LeaderboardMore.

(** ** [format_leaderboard] *)

Module ReportFacts.

Import Leaderboard LeaderboardSpec LeaderboardFacts LeaderboardReport.

Lemma add_symbols_union (X : gset string) (l : list string) :
  add_symbols X l = list_to_set l ∪ X.
Proof.
  unfold add_symbols. revert X.
  induction l as [ | s l IH ]; intros X; cbn [foldl list_to_set].
  - now rewrite (left_id_L ∅ (∪)).
  - rewrite IH. apply set_eq. intros x.
    rewrite !elem_of_union, elem_of_singleton. tauto.
Qed.

Lemma returned_listed (e : entry (list string)) :
  listed_symbols (returned e) = missing_symbols e.
Proof. reflexivity. Qed.

Section FormatFacts.

Variable format_2f : float -> string.

Abbreviation entry_line := (entry_line format_2f).
Abbreviation add_entry := (add_entry format_2f).
Abbreviation lines := (lines format_2f).

(** The loop as a whole. *)
Lemma foldl_add_entry (shown : list shown_entry) (start : nat)
    (ls : list string) (X : gset string) :
  foldl add_entry (ls, X) (enumerate start shown)
    = (ls ++ imap (fun i e => entry_line (start + i) e) shown,
       list_to_set (shown ≫= listed_symbols) ∪ X).
Proof.
  revert start ls X. induction shown as [ | e l IH ]; intros start ls X.
  - cbn. now rewrite app_nil_r, (left_id_L ∅ (∪)).
  - cbn [enumerate foldl LeaderboardReport.add_entry]. rewrite IH.
    rewrite add_symbols_union, <- app_assoc, imap_cons, bind_cons.
    cbn [app]. f_equal.
    + f_equal. rewrite Nat.add_0_r. f_equal.
      apply imap_ext. intros i x _. cbn. f_equal. lia.
    + rewrite list_to_set_app_L. apply set_eq. intros x.
      rewrite !elem_of_union. tauto.
Qed.

Lemma shown_take (entries : list shown_entry) (top_n : Z) :
  PyList.slice_to (_clamp_top_n top_n) entries
    = take (Z.to_nat (_clamp_top_n top_n)) entries.
Proof.
  unfold PyList.slice_to.
  pose proof (LeaderboardUtilFacts.clamp_range top_n) as Hr.
  destruct (Z.leb_spec 0 (_clamp_top_n top_n)) as [ _ | Hneg ]; [ | lia ].
  reflexivity.
Qed.

Lemma lines_shown (entries : list shown_entry) (top_n : Z)
    (header_meta : option (gmap string string)) :
  let shown := take (Z.to_nat (_clamp_top_n top_n)) entries in
  let missing : gset string := list_to_set (shown ≫= listed_symbols) in
  lines entries top_n header_meta
    = first_line header_meta
        :: imap (fun i e => entry_line (S i) e) shown
        ++ (if decide (missing = ∅) then [] else [note missing]).
Proof.
  intros shown missing. unfold LeaderboardReport.lines. cbv zeta.
  rewrite shown_take, foldl_add_entry. fold shown.
  rewrite (right_id_L ∅ (∪)). fold missing. cbn [app].
  destruct (decide (missing = ∅)); [ now rewrite app_nil_r | reflexivity ].
Qed.

(** X7: the text has the header, then one numbered line for each of the
    first [clamp(top_n)] entries, in their order, and then, when one of
    these entries lists a missing symbol, one note; the note names the
    missing symbols of these entries, each once, in ascending order. *)
Theorem format_leaderboard_lines (entries : list shown_entry) (top_n : Z)
    (header_meta : option (gmap string string)) :
  let shown := take (Z.to_nat (_clamp_top_n top_n)) entries in
  let missing : gset string := list_to_set (shown ≫= listed_symbols) in
  lines entries top_n header_meta
    = first_line header_meta
        :: imap (fun i e => entry_line (S i) e) shown
        ++ (if decide (missing = ∅) then [] else [note missing]) /\
  length (lines entries top_n header_meta)
    = (1 + Nat.min (Z.to_nat (_clamp_top_n top_n)) (length entries)
       + (if decide (missing = ∅) then 0 else 1))%nat /\
  (missing = ∅ <-> Forall (fun e => listed_symbols e = []) shown) /\
  ascending (sorted_symbols missing) /\
  (forall s, s ∈ sorted_symbols missing
             <-> exists e, e ∈ shown /\ s ∈ listed_symbols e).
Proof.
  intros shown missing.
  pose proof (lines_shown entries top_n header_meta) as Hl.
  cbv zeta in Hl. fold shown in Hl. fold missing in Hl.
  assert (Hin : forall s, s ∈ missing
                          <-> exists e, e ∈ shown /\ s ∈ listed_symbols e).
  { intros s. unfold missing.
    rewrite elem_of_list_to_set, list_elem_of_bind. split.
    - intros (e & Hs & He). eauto.
    - intros (e & He & Hs). eauto. }
  split; [ exact Hl | split; [ | split; [ | split ] ] ].
  - rewrite Hl. cbn [length]. rewrite length_app, length_imap.
    unfold shown. rewrite length_take.
    destruct (decide (missing = ∅)); cbn [length]; lia.
  - rewrite Forall_forall. split.
    + intros Hempty e He.
      destruct (listed_symbols e) as [ | s l ] eqn:Hls; [ reflexivity | ].
      assert (Hs : s ∈ missing)
        by (apply Hin; exists e; split; [ exact He | rewrite Hls; left ]).
      rewrite Hempty in Hs. now apply not_elem_of_empty in Hs.
    + intros Hall. apply set_eq. intros s. rewrite Hin. split.
      * intros (e & He & Hs). rewrite (Hall e He) in Hs. inversion Hs.
      * intros Hs. now apply not_elem_of_empty in Hs.
  - apply sorted_symbols_ascending.
  - intros s. now rewrite sorted_symbols_elem.
Qed.

(** X8: formatting the computed leaderboard with the same [top_n] prints
    a line for every computed entry, and the note names exactly the
    symbols without a price of the rows of these users that are not
    skipped. *)
Theorem format_computed_leaderboard (users : list (string * float))
    (holdings : list (string * string * float))
    (prices : gmap string float) (top_n : Z)
    (header_meta : option (gmap string string)) :
  let result := compute_leaderboard users holdings prices top_n in
  exists missing : gset string,
    lines (returned <$> result) top_n header_meta
      = first_line header_meta
          :: imap (fun i e => entry_line (S i) (returned e)) result
          ++ (if decide (missing = ∅) then [] else [note missing]) /\
    forall s,
      s ∈ missing <->
      exists e qty,
        e ∈ result /\ (user_id e, s, qty) ∈ holdings /\
        is_dust qty = false /\ prices !! s = None.
Proof.
  intros result.
  assert (Hshown : take (Z.to_nat (_clamp_top_n top_n)) (returned <$> result)
                   = returned <$> result).
  { unfold result. rewrite compute_leaderboard_take, <- fmap_take.
    now rewrite take_idemp. }
  exists (list_to_set ((returned <$> result) ≫= listed_symbols)). split.
  - pose proof (lines_shown (returned <$> result) top_n header_meta) as Hl.
    cbv zeta in Hl. rewrite Hshown in Hl. rewrite Hl.
    now rewrite imap_fmap.
  - intros s. rewrite elem_of_list_to_set, list_elem_of_bind. split.
    + intros (e' & Hs & (e & -> & He)%list_elem_of_fmap).
      rewrite returned_listed in Hs.
      apply (LeaderboardMore.missing_symbols_iff _ _ _ _ _ _ He) in Hs
        as (qty & ? & ? & ?).
      exists e, qty. auto.
    + intros (e & qty & He & Hin & Hq & Hp).
      exists (returned e). split; [ | now apply list_elem_of_fmap_2 ].
      rewrite returned_listed.
      apply (LeaderboardMore.missing_symbols_iff _ _ _ _ _ _ He). eauto.
Qed.

End FormatFacts.

Lemma format_leaderboard_lines_witness :
  LeaderboardReport.format_leaderboard (fun _ => "0.00"%string)
    [ mk_entry "alice" 0 0 0 (Some ["ETH"; "BTC"]%string);
      mk_entry "bob" 0 0 0 None;
      mk_entry "carol" 0 0 0 (Some ["BTC"%string]) ] 2 None
  = String.concat (String newline EmptyString)
      [ "【总资产排名（按当前市价）】 全局榜";
        "1. alice  总资产: 0.00  现金: 0.00  持仓市值: 0.00";
        "2. bob  总资产: 0.00  现金: 0.00  持仓市值: 0.00";
        "注：以下币种暂无价格，按 0 计入：BTC, ETH" ]%string.
Proof.
  unfold LeaderboardReport.format_leaderboard.
  rewrite (proj1 (format_leaderboard_lines (fun _ => "0.00"%string) _ 2 None)).
  vm_compute. reflexivity.
Defined.

End ReportFacts.

(** ** More of the migration; src/migrate.py *)

Module MigrationMore.

Import Database MigrationSpec MigrationFacts MigrationMoreSpec DatabaseInit.

(** *** Runs *)

Lemma run_app (fs gs : list step) (s : schema) :
  run (fs ++ gs) s
    = ((run gs (run fs s).1).1, (run fs s).2 ++ (run gs (run fs s).1).2).
Proof.
  revert s. induction fs as [ | f fs IH ]; intros s; cbn [app run].
  - cbn. now destruct (run gs s).
  - destruct (f s) as [s1 w1]. rewrite IH.
    destruct (run fs s1) as [s2 w2]. cbn [fst snd].
    destruct (run gs s2) as [s3 w3]. cbn [fst snd]. now rewrite app_assoc.
Qed.

Lemma compatible_keeps (f : step) (fs : list step) :
  compatible (f :: fs) ->
  settles_itself f /\ Forall (fun g => keeps g f) fs /\ compatible fs.
Proof. intros H. inversion H; subst. auto. Qed.

(** A run after some of its first steps went through without a warning is
    the run itself. *)
Lemma run_after_prefix (fs : list step) :
  compatible fs ->
  forall (k : nat) (s : schema),
    (run (take k fs) s).2 = [] ->
    run fs (run (take k fs) s).1 = run fs s.
Proof.
  induction 1 as [ | f fs Hf Hk Hc IH ]; intros k s Hw.
  - now rewrite take_nil.
  - destruct k as [ | k ]; [ reflexivity | ].
    cbn [take run] in Hw |- *.
    pose proof (Hf s) as Hs1.
    destruct (f s) as [s1 w1] eqn:Hfs. cbn [fst snd] in Hs1.
    specialize (IH k s1).
    assert (Hkeep : Forall (fun g => keeps g f) (take k fs))
      by now apply Forall_take.
    pose proof (keeps_run f (take k fs) s1 w1 Hkeep Hs1) as Hs2.
    destruct (run (take k fs) s1) as [s2 w2]. cbn [fst snd] in *.
    apply app_eq_nil in Hw as (-> & ->).
    unfold settled in Hs2. rewrite Hs2, IH by reflexivity. reflexivity.
Qed.

(** *** Tables that only grow *)

Lemma find_table_nocase (t t' : string) ts :
  nocase_eqb t t' = true -> find_table t ts = find_table t' ts.
Proof.
  intros H%nocase_eqb_eq.
  induction ts as [ | [n cs] ts IH ]; cbn; [ reflexivity | ].
  unfold nocase_eqb. now rewrite H, IH.
Qed.

Lemma extends_refl (s : schema) : extends s s.
Proof.
  intros t. destruct (find_table t (tables s)); [ | reflexivity ].
  exists []. now rewrite app_nil_r.
Qed.

Lemma extends_trans (s1 s2 s3 : schema) :
  extends s1 s2 -> extends s2 s3 -> extends s1 s3.
Proof.
  intros H12 H23 t. specialize (H12 t). specialize (H23 t).
  destruct (find_table t (tables s1)) as [ cols | ].
  - destruct H12 as (more & H12). rewrite H12 in H23.
    destruct H23 as (more' & H23). exists (more ++ more').
    now rewrite app_assoc.
  - now rewrite H12 in H23.
Qed.

Lemma extends_same_tables (s s' : schema) :
  tables s' = tables s -> extends s s'.
Proof. intros H t. rewrite H. apply extends_refl. Qed.

Lemma column_step_extends (t c : string) (s : schema) :
  extends s (column_step t c s).1.
Proof.
  rewrite column_step_schema. unfold add_if_absent.
  destruct (find_table t (tables s)) as [ cols | ] eqn:Hf;
    [ | now apply extends_same_tables ].
  destruct (has_column c cols); [ now apply extends_same_tables | ].
  intros t0. cbn [tables].
  destruct (nocase_eqb t0 t) eqn:Hn.
  - rewrite !(find_table_nocase _ _ _ Hn), Hf.
    exists [c]. now apply find_table_add_same.
  - rewrite find_table_add_other by exact Hn.
    destruct (find_table t0 (tables s)); [ | reflexivity ].
    exists []. now rewrite app_nil_r.
Qed.

Lemma run_extends (fs : list step) :
  Forall (fun f => forall s, extends s (f s).1) fs ->
  forall s, extends s (run fs s).1.
Proof.
  induction 1 as [ | f fs Hf _ IH ]; intros s; [ apply extends_refl | ].
  cbn [run]. specialize (Hf s). destruct (f s) as [s1 w1].
  specialize (IH s1). destruct (run fs s1) as [s2 w2].
  exact (extends_trans _ _ _ Hf IH).
Qed.

Lemma extends_Some (s s' : schema) (t : string) :
  extends s s' -> is_Some (find_table t (tables s)) ->
  is_Some (find_table t (tables s')).
Proof.
  intros H (cols & Hc). specialize (H t). rewrite Hc in H.
  destruct H as (more & ->). eauto.
Qed.

Lemma extends_None (s s' : schema) (t : string) :
  extends s s' -> find_table t (tables s) = None ->
  find_table t (tables s') = None.
Proof. intros H Hn. specialize (H t). now rewrite Hn in H. Qed.

Lemma extends_present (s s' : schema) (t c : string) :
  extends s s' -> column_present s t c = true ->
  column_present s' t c = true.
Proof.
  intros H. specialize (H t). unfold column_present, table_info, has_column.
  destruct (find_table t (tables s)) as [ cols | ]; [ | discriminate ].
  destruct H as (more & ->). rewrite existsb_app. now intros ->.
Qed.

Lemma extends_exists (s s' : schema) (t c : string) :
  extends s s' -> column_exists s t c = true -> column_exists s' t c = true.
Proof.
  intros H. specialize (H t). unfold column_exists, table_info.
  destruct (find_table t (tables s)) as [ cols | ]; [ | discriminate ].
  destruct H as (more & ->). rewrite existsb_app. now intros ->.
Qed.

Lemma column_exists_present (s : schema) (t c : string) :
  column_exists s t c = true -> column_present s t c = true.
Proof.
  unfold column_exists, column_present, has_column.
  rewrite !existsb_exists. intros (x & Hx & He). eauto using eqb_nocase.
Qed.

(** *** Steps that go through *)

Lemma column_step_ok (t c : string) (s : schema) :
  is_Some (find_table t (tables s)) ->
  (column_present s t c = true -> column_exists s t c = true) ->
  (column_step t c s).2 = [] /\
  column_exists (column_step t c s).1 t c = true.
Proof.
  intros (cols & Hf) Hsp.
  unfold column_step, add_column_step.
  destruct (column_exists s t c) eqn:Hex; [ now split | ].
  unfold alter_add_column. rewrite Hf.
  unfold column_present, table_info in Hsp. rewrite Hf in Hsp.
  destruct (has_column c cols); [ now specialize (Hsp eq_refl) | ].
  split; [ reflexivity | ]. cbn [fst].
  unfold column_exists, table_info. cbn [tables].
  rewrite (find_table_add_same t c _ cols Hf), existsb_app. cbn.
  now rewrite String.eqb_refl, orb_true_r.
Qed.

Lemma column_depends (s s' : schema) (t c : string) :
  find_table t (tables s') = find_table t (tables s) ->
  column_present s' t c = column_present s t c /\
  column_exists s' t c = column_exists s t c.
Proof.
  intros H. unfold column_present, column_exists, table_info. now rewrite H.
Qed.

Lemma run_column_steps_ok (cs : list (string * string)) :
  NoDup (lower <$> cs.*1) ->
  forall s,
    (forall t c, (t, c) ∈ cs ->
       is_Some (find_table t (tables s)) /\
       (column_present s t c = true -> column_exists s t c = true)) ->
    (run (map column_step_of cs) s).2 = [] /\
    forall t c, (t, c) ∈ cs ->
      column_exists (run (map column_step_of cs) s).1 t c = true.
Proof.
  induction cs as [ | [t c] cs IH ]; intros Hnd s Hs.
  - split; [ reflexivity | ]. intros t c Hin. inversion Hin.
  - rewrite !fmap_cons in Hnd. apply NoDup_cons in Hnd as (Hnin & Hnd).
    cbn [fst] in Hnin.
    destruct (Hs t c) as (Hsome & Hsp); [ left | ].
    destruct (column_step_ok t c s Hsome Hsp) as (Hw1 & Hex1).
    assert (Hother : forall t' c', (t', c') ∈ cs ->
              find_table t' (tables (column_step t c s).1)
                = find_table t' (tables s)).
    { intros t' c' Hin. apply column_step_find_other.
      apply not_true_is_false. intros He%nocase_eqb_eq. apply Hnin.
      rewrite <- He. apply list_elem_of_fmap_2.
      change t' with (t', c').1. now apply list_elem_of_fmap_2. }
    assert (Hext : extends (column_step t c s).1
                     (run (map column_step_of cs) (column_step t c s).1).1).
    { apply run_extends. apply Forall_forall.
      intros f (tc & -> & _)%list_elem_of_fmap. intros s0.
      apply column_step_extends. }
    destruct (IH Hnd (column_step t c s).1) as (Hw & Hex).
    { intros t' c' Hin. destruct (Hs t' c') as (Hsome' & Hsp');
        [ now right | ].
      destruct (column_depends s (column_step t c s).1 t' c'
                  (Hother t' c' Hin)) as (Hp & He).
      rewrite (Hother t' c' Hin), Hp, He. now split. }
    cbn [map run]. unfold column_step_of at 1 3. cbn [fst snd].
    destruct (column_step t c s) as [s1 w1]. cbn [fst snd] in *.
    destruct (run (map column_step_of cs) s1) as [s2 w2]. cbn [fst snd] in *.
    split; [ now rewrite Hw1, Hw | ].
    intros t' c' [ [= -> ->] | Hin ]%elem_of_cons.
    + now apply (extends_exists s1 s2).
    + now apply Hex.
Qed.

Lemma index_step_ok (n t : string) (cols : list string) (s : schema) :
  find_table n (tables s) = None ->
  (exists tcols, find_table t (tables s) = Some tcols /\
     forall c, c ∈ cols -> has_column c tcols = true) ->
  (index_step (n, t, cols) s).2 = [] /\
  has_index n (indexes (index_step (n, t, cols) s).1) = true.
Proof.
  intros Hn (tcols & Ht & Hc).
  unfold index_step, create_index_step, create_index_if_not_exists.
  rewrite Ht, Hn. rewrite bool_decide_eq_false_2 by (intros (? & [=])).
  destruct (has_index n (indexes s)) eqn:Hi; [ now split | ].
  destruct (List.find _ cols) as [ c | ] eqn:Hfind.
  - apply find_some in Hfind as (Hin & Hneg).
    rewrite (Hc c) in Hneg; [ discriminate | now apply list_elem_of_In ].
  - split; [ reflexivity | ]. cbn [fst indexes].
    rewrite has_index_app. cbn. now rewrite nocase_eqb_refl, orb_true_r.
Qed.

Lemma has_index_run (n : string) ds (s : schema) :
  has_index n (indexes s) = true ->
  has_index n (indexes (run (map index_step ds) s).1) = true.
Proof.
  intros H. destruct (run_index_indexes ds s) as (new & -> & _).
  rewrite has_index_app, H. reflexivity.
Qed.

Lemma run_index_steps_ok ds (s : schema) :
  (forall n t cols, (n, t, cols) ∈ ds ->
     find_table n (tables s) = None /\
     exists tcols, find_table t (tables s) = Some tcols /\
       forall c, c ∈ cols -> has_column c tcols = true) ->
  (run (map index_step ds) s).2 = [] /\
  forall n t cols, (n, t, cols) ∈ ds ->
    has_index n (indexes (run (map index_step ds) s).1) = true.
Proof.
  revert s. induction ds as [ | [[n t] cols] ds IH ]; intros s Hs.
  - split; [ reflexivity | ]. intros n t cols Hin. inversion Hin.
  - destruct (Hs n t cols) as (Hn & Ht); [ left | ].
    destruct (index_step_ok n t cols s Hn Ht) as (Hw1 & Hi1).
    pose proof (index_step_tables (n, t, cols) s) as Htab.
    pose proof (has_index_run n ds (index_step (n, t, cols) s).1 Hi1) as Hi2.
    destruct (IH (index_step (n, t, cols) s).1) as (Hw & Hi).
    { intros n' t' cols' Hin. rewrite Htab. apply Hs. now right. }
    cbn [map run].
    destruct (index_step (n, t, cols) s) as [s1 w1]. cbn [fst snd] in *.
    destruct (run (map index_step ds) s1) as [s2 w2]. cbn [fst snd] in *.
    split; [ now rewrite Hw1, Hw | ].
    intros n' t' cols' [ [= -> -> ->] | Hin ]%elem_of_cons.
    + exact Hi2.
    + now apply (Hi n' t' cols').
Qed.

Lemma migration_steps_split :
  migration_steps
    = map column_step_of new_columns ++ map index_step index_definitions.
Proof. reflexivity. Qed.

Lemma new_columns_distinct : NoDup (lower <$> new_columns.*1).
Proof. apply (bool_decide_unpack _). vm_compute. reflexivity. Qed.

Lemma column_steps_extend (s : schema) :
  extends s (run (map column_step_of new_columns) s).1 /\
  indexes (run (map column_step_of new_columns) s).1 = indexes s.
Proof.
  split.
  - apply run_extends. apply Forall_forall.
    intros f (tc & -> & _)%list_elem_of_fmap. intros s0.
    apply column_step_extends.
  - cbn [new_columns map run]. unfold column_step_of. cbn [fst snd].
    pose proof (column_step_schema "orders" "symbol" s) as H1.
    destruct (column_step "orders" "symbol" s) as [s1 w1].
    pose proof (column_step_schema "market_history" "symbol" s1) as H2.
    destruct (column_step "market_history" "symbol" s1) as [s2 w2].
    pose proof (column_step_schema "users" "password_hash" s2) as H3.
    destruct (column_step "users" "password_hash" s2) as [s3 w3].
    cbn [fst snd] in *. subst. reflexivity.
Qed.

Lemma ready_columns (s : schema) :
  ready s ->
  (run (map column_step_of new_columns) s).2 = [] /\
  forall t c, (t, c) ∈ new_columns ->
    column_exists (run (map column_step_of new_columns) s).1 t c = true.
Proof.
  intros (Hcols & _).
  exact (run_column_steps_ok new_columns new_columns_distinct s Hcols).
Qed.

Lemma migrate_of_ready (s : schema) :
  ready s ->
  (_migrate s).2 = [] /\
  (forall t c, (t, c) ∈ new_columns ->
     column_exists (_migrate s).1 t c = true) /\
  (forall n t cols, (n, t, cols) ∈ index_definitions ->
     has_index n (indexes (_migrate s).1) = true).
Proof.
  intros Hready.
  destruct (ready_columns s Hready) as (Hw1 & Hex).
  destruct (column_steps_extend s) as (Hext & _).
  destruct Hready as (_ & Hix).
  rewrite migrate_run, migration_steps_split, run_app. cbn [fst snd].
  set (s3 := (run (map column_step_of new_columns) s).1) in *.
  destruct (run_index_steps_ok index_definitions s3) as (Hw2 & Hi).
  { intros n t cols Hin. destruct (Hix n t cols Hin) as (Ht & Hn & Hc).
    split; [ exact (extends_None _ _ _ Hext Hn) | ].
    destruct (extends_Some _ _ t Hext Ht) as (tcols & Htc).
    exists tcols. split; [ exact Htc | ]. intros c Hcin.
    assert (Hp : column_present s3 t c = true).
    { destruct (Hc c Hcin) as [ Hp | Hnew ].
      - exact (extends_present _ _ _ _ Hext Hp).
      - apply column_exists_present. now apply Hex. }
    unfold column_present, table_info in Hp. now rewrite Htc in Hp. }
  split; [ now rewrite Hw1, Hw2 | split ].
  - intros t c Hin. apply (extends_exists s3); [ | now apply Hex ].
    apply extends_same_tables, run_index_tables.
  - exact Hi.
Qed.

(** X9: on a database that is ready for it, [_migrate] logs no warning,
    and afterwards every new column and every index of the list is
    there. *)
Theorem migrate_succeeds (s : schema) :
  ready s ->
  (_migrate s).2 = [] /\
  (forall t c, (t, c) ∈ new_columns ->
     column_exists (_migrate s).1 t c = true) /\
  (forall n t cols, (n, t, cols) ∈ index_definitions ->
     has_index n (indexes (_migrate s).1) = true).
Proof.
  intros Hready. destruct (migrate_of_ready s Hready) as (Hw & Hc & Hi).
  split; [ exact Hw | split ].
  - intros t c Hin. now apply Hc.
  - intros n t cols Hin. now apply (Hi n t cols).
Qed.

(** *** The script *)

Lemma script_column_exists (s : schema) (t c : string) :
  Migrate.column_exists s t c = column_exists s t c.
Proof.
  unfold Migrate.column_exists, column_exists.
  destruct (existsb (String.eqb c) (table_info t s)) eqn:He.
  - apply bool_decide_eq_true_2.
    apply existsb_exists in He as (x & Hx & ->%String.eqb_eq).
    now apply list_elem_of_In.
  - apply bool_decide_eq_false_2. intros Hin.
    apply not_true_iff_false in He. apply He, existsb_exists.
    exists c. split; [ now apply list_elem_of_In | apply String.eqb_refl ].
Qed.

Lemma check_and_add_column_step (t c : string) (s : schema) :
  match Migrate.check_and_add_column t c s with
  | inl s1 => column_step t c s = (s1, [])
  | inr e => column_step t c s = (s, [(column_label t c, e)])
  end.
Proof.
  unfold Migrate.check_and_add_column, column_step, add_column_step.
  rewrite script_column_exists.
  destruct (column_exists s t c); cbn [negb]; [ reflexivity | ].
  now destruct (alter_add_column t c s).
Qed.

Lemma column_exists_after (t c : string) (s : schema) :
  (column_step t c s).2 = [] ->
  column_exists (column_step t c s).1 t c = true.
Proof.
  unfold column_step, add_column_step.
  destruct (column_exists s t c) eqn:Hex; [ intros _; exact Hex | ].
  unfold alter_add_column.
  destruct (find_table t (tables s)) as [ cols | ] eqn:Hf; [ | discriminate ].
  destruct (has_column c cols); [ discriminate | ].
  intros _. cbn [fst]. unfold column_exists, table_info. cbn [tables].
  rewrite (find_table_add_same t c _ cols Hf), existsb_app. cbn.
  now rewrite String.eqb_refl, orb_true_r.
Qed.

Lemma run_column_steps_exist (cs : list (string * string)) (s : schema) :
  (run (map column_step_of cs) s).2 = [] ->
  forall t c, (t, c) ∈ cs ->
    column_exists (run (map column_step_of cs) s).1 t c = true.
Proof.
  revert s. induction cs as [ | [t c] cs IH ]; intros s Hw t' c' Hin;
    [ inversion Hin | ].
  cbn [map run] in Hw |- *. unfold column_step_of at 1 in Hw.
  unfold column_step_of at 1. cbn [fst snd] in Hw |- *.
  pose proof (column_exists_after t c s) as H1.
  destruct (column_step t c s) as [s1 w1]. cbn [fst snd] in H1.
  specialize (IH s1).
  assert (Hext : extends s1 (run (map column_step_of cs) s1).1).
  { apply run_extends. apply Forall_forall.
    intros f (tc & -> & _)%list_elem_of_fmap. intros s0.
    apply column_step_extends. }
  destruct (run (map column_step_of cs) s1) as [s2 w2]. cbn [fst snd] in *.
  apply app_eq_nil in Hw as (-> & ->).
  apply elem_of_cons in Hin as [ [= -> ->] | Hin ].
  - apply (extends_exists s1 s2 _ _ Hext). now apply H1.
  - now apply IH.
Qed.

(** The script stops at the first statement that fails; up to there it
    does what the first steps of [_migrate] do. *)
Lemma migrate_script_cases (s : schema) :
  exists k,
    (Migrate.migrate (Some s) true).1
      = Some (run (take k migration_steps) s).1 /\
    (run (take k migration_steps) s).2 = [] /\
    (exists j, take k migration_steps
               = map column_step_of (take j new_columns)) /\
    ((Migrate.migrate (Some s) true).2 = Migrate.Completed ->
       take k migration_steps = map column_step_of new_columns) /\
    ((run (map column_step_of new_columns) s).2 = [] ->
       (Migrate.migrate (Some s) true).2 = Migrate.Completed).
Proof.
  unfold Migrate.migrate. cbn [negb].
  cbn [new_columns map run]. unfold column_step_of. cbn [fst snd].
  pose proof (check_and_add_column_step "orders" "symbol" s) as H1.
  destruct (Migrate.check_and_add_column "orders" "symbol" s) as [ s1 | e1 ].
  - pose proof (check_and_add_column_step "market_history" "symbol" s1) as H2.
    destruct (Migrate.check_and_add_column "market_history" "symbol" s1)
      as [ s2 | e2 ].
    + pose proof (check_and_add_column_step "users" "password_hash" s2) as H3.
      destruct (Migrate.check_and_add_column "users" "password_hash" s2)
        as [ s3 | e3 ].
      * exists 3%nat. cbn [take migration_steps app run fst snd].
        rewrite H1, H2, H3. cbn [fst snd app].
        split; [ reflexivity | split; [ reflexivity | ] ].
        split; [ now exists 3%nat | split; reflexivity ].
      * exists 2%nat. cbn [take migration_steps app run fst snd].
        rewrite H1, H2, H3. cbn [fst snd app].
        split; [ reflexivity | split; [ reflexivity | ] ].
        split; [ now exists 2%nat | split; discriminate ].
    + exists 1%nat. cbn [take migration_steps app run fst snd].
      rewrite H1, H2. cbn [fst snd app].
      split; [ reflexivity | split; [ reflexivity | ] ].
      split; [ now exists 1%nat | split; [ discriminate | ] ].
      now destruct (column_step "users" "password_hash" s1).
  - exists 0%nat. cbn [take run fst snd]. rewrite H1.
    split; [ reflexivity | split; [ reflexivity | ] ].
    split; [ now exists 0%nat | split; [ discriminate | ] ].
    destruct (column_step "market_history" "symbol" s) as [s2 w2].
    now destruct (column_step "users" "password_hash" s2).
Qed.

Lemma run_column_steps_indexes (cs : list (string * string)) (s : schema) :
  indexes (run (map column_step_of cs) s).1 = indexes s.
Proof.
  revert s. induction cs as [ | [t c] cs IH ]; intros s; [ reflexivity | ].
  cbn [map run]. unfold column_step_of at 1. cbn [fst snd].
  pose proof (column_step_schema t c s) as H1.
  destruct (column_step t c s) as [s1 w1].
  specialize (IH s1).
  destruct (run (map column_step_of cs) s1) as [s2 w2].
  cbn [fst snd] in *. rewrite IH, H1. reflexivity.
Qed.

Lemma run_column_steps_extends (cs : list (string * string)) (s : schema) :
  extends s (run (map column_step_of cs) s).1.
Proof.
  apply run_extends. apply Forall_forall.
  intros f (tc & -> & _)%list_elem_of_fmap. intros s0.
  apply column_step_extends.
Qed.

Lemma migrate_tables_columns (s : schema) :
  tables (_migrate s).1 = tables (run (map column_step_of new_columns) s).1.
Proof.
  rewrite migrate_run, migration_steps_split, run_app. cbn [fst].
  now rewrite run_index_tables.
Qed.

(** X10: whatever the script does to a database, [_migrate] run after it
    ends as [_migrate] run in its place: with the same schema and the
    same warnings. The script leaves the database as it is when the backup
    fails; otherwise it only adds columns to tables, and when it completes
    the tables are those [_migrate] leaves, with every new column. On a
    database that is ready it completes. *)
Theorem script_then_migrate (s : schema) (backup : bool) :
  exists s1,
    (Migrate.migrate (Some s) backup).1 = Some s1 /\
    _migrate s1 = _migrate s /\
    extends s s1 /\
    indexes s1 = indexes s /\
    (backup = false -> s1 = s) /\
    ((Migrate.migrate (Some s) backup).2 = Migrate.Completed ->
       tables s1 = tables (_migrate s).1 /\
       forall t c, (t, c) ∈ new_columns -> column_exists s1 t c = true) /\
    (ready s -> backup = true ->
       (Migrate.migrate (Some s) backup).2 = Migrate.Completed).
Proof.
  destruct backup.
  - destruct (migrate_script_cases s)
      as (k & Hs1 & Hw & (j & Hpre) & Hdone & Hthree).
    exists (run (take k migration_steps) s).1.
    split; [ exact Hs1 | split ].
    { rewrite !migrate_run.
      now apply (run_after_prefix _ migration_steps_compatible). }
    split; [ | split; [ | split; [ discriminate | split ] ] ].
    + rewrite Hpre. apply run_column_steps_extends.
    + rewrite Hpre. apply run_column_steps_indexes.
    + intros Hc. rewrite (Hdone Hc) in Hw |- *.
      split; [ now rewrite migrate_tables_columns | ].
      now apply run_column_steps_exist.
    + intros Hready _. apply Hthree. now apply ready_columns.
  - exists s. cbn.
    split; [ reflexivity | split; [ reflexivity | ] ].
    split; [ apply extends_refl | split; [ reflexivity | ] ].
    split; [ reflexivity | split; discriminate ].
Qed.

(** *** [DB.__init__] *)

Lemma find_table_snoc (t : string) ts (m : string * list string) :
  find_table t (ts ++ [m])
    = match find_table t ts with
      | Some cols => Some cols
      | None => if nocase_eqb t m.1 then Some m.2 else None
      end.
Proof.
  destruct m as [n cols].
  induction ts as [ | [n' cols'] ts IH ]; cbn; [ reflexivity | ].
  destruct (nocase_eqb t n'); [ reflexivity | exact IH ].
Qed.

Lemma create_tables_find ms (s : schema) (t : string) :
  find_table t (tables (foldl create_table s ms))
    = match find_table t (tables s) with
      | Some cols => Some cols
      | None => find_table t ms
      end.
Proof.
  revert s. induction ms as [ | [n cols] ms IH ]; intros s; cbn [foldl].
  - cbn. now destruct (find_table t (tables s)).
  - rewrite IH. unfold create_table. cbn [fst].
    destruct (find_table n (tables s)) as [ cs | ] eqn:Hn.
    + destruct (find_table t (tables s)) as [ ct | ] eqn:Ht;
        [ reflexivity | ].
      cbn [find_table]. destruct (nocase_eqb t n) eqn:Htn; [ | reflexivity ].
      rewrite (find_table_nocase _ _ _ Htn) in Ht. congruence.
    + cbn [tables]. rewrite find_table_snoc. cbn [fst snd find_table].
      destruct (find_table t (tables s)) as [ ct | ]; [ reflexivity | ].
      destruct (nocase_eqb t n); reflexivity.
Qed.

Lemma create_all_find (s : schema) (t : string) :
  find_table t (tables (create_all s))
    = match find_table t (tables s) with
      | Some cols => Some cols
      | None => find_table t model_tables
      end.
Proof. apply create_tables_find. Qed.

Lemma create_all_indexes (s : schema) : indexes (create_all s) = indexes s.
Proof.
  unfold create_all. generalize model_tables. intros ms. revert s.
  induction ms as [ | m ms IH ]; intros s; cbn [foldl]; [ reflexivity | ].
  rewrite IH. unfold create_table. now destruct (find_table m.1 (tables s)).
Qed.

Lemma find_table_member ms (m : string * list string) :
  m ∈ ms -> is_Some (find_table m.1 ms).
Proof.
  induction ms as [ | [n cols] ms IH ]; [ intros H; inversion H | ].
  intros [ -> | Hin ]%elem_of_cons; cbn [find_table fst].
  - rewrite nocase_eqb_refl. eauto.
  - destruct (nocase_eqb m.1 n); [ eauto | now apply IH ].
Qed.

Lemma create_all_tables (s : schema) (m : string * list string) :
  m ∈ model_tables -> is_Some (find_table m.1 (tables (create_all s))).
Proof.
  intros Hin. rewrite create_all_find.
  destruct (find_table m.1 (tables s)); [ eauto | ].
  now apply find_table_member.
Qed.

(** [create_all] leaves a database that has the tables as it is. *)
Lemma create_all_settled (s : schema) :
  (forall m, m ∈ model_tables -> is_Some (find_table m.1 (tables s))) ->
  create_all s = s.
Proof.
  unfold create_all. generalize model_tables. intros ms.
  induction ms as [ | m ms IH ]; intros Hs; cbn [foldl]; [ reflexivity | ].
  assert (Hm : create_table s m = s).
  { unfold create_table. destruct (Hs m) as (cols & ->); [ left | ].
    reflexivity. }
  rewrite Hm. apply IH. intros m' Hin. apply Hs. now right.
Qed.

Lemma migrate_extends (s : schema) : extends s (_migrate s).1.
Proof.
  rewrite migrate_run. apply run_extends. unfold migration_steps.
  apply Forall_app. split.
  - repeat constructor; intros s0; apply column_step_extends.
  - apply Forall_forall. intros f (d & -> & _)%list_elem_of_fmap. intros s0.
    apply extends_same_tables, index_step_tables.
Qed.

Lemma known_ready (s : schema) : known s -> ready (create_all s).
Proof.
  intros (Hspell & Hcols & Hnames).
  assert (Hdep : forall t c cols,
            find_table t (tables s) = Some cols ->
            column_present (create_all s) t c = column_present s t c /\
            column_exists (create_all s) t c = column_exists s t c).
  { intros t c cols Ht. apply column_depends.
    now rewrite create_all_find, Ht. }
  assert (Hnew : forall t c,
            find_table t (tables s) = None ->
            column_present (create_all s) t c
              = has_column c (default [] (find_table t model_tables)) /\
            column_exists (create_all s) t c
              = existsb (String.eqb c)
                  (default [] (find_table t model_tables))).
  { intros t c Ht. unfold column_present, column_exists, table_info.
    rewrite create_all_find, Ht.
    now destruct (find_table t model_tables). }
  split.
  - intros t c Hin. split.
    + rewrite create_all_find.
      destruct (find_table t (tables s)); [ eauto | ].
      repeat (apply elem_of_cons in Hin as [ [= -> ->] | Hin ]);
        [ .. | inversion Hin ]; vm_compute; eauto.
    + destruct (find_table t (tables s)) as [ cols | ] eqn:Ht.
      * destruct (Hdep t c cols Ht) as (-> & ->). now apply Hspell.
      * destruct (Hnew t c Ht) as (_ & ->). intros _.
        repeat (apply elem_of_cons in Hin as [ [= -> ->] | Hin ]);
          [ .. | inversion Hin ]; reflexivity.
  - intros n t cols Hin. split; [ | split ].
    + rewrite create_all_find.
      destruct (find_table t (tables s)); [ eauto | ].
      repeat (apply elem_of_cons in Hin as [ [= -> -> ->] | Hin ]);
        [ .. | inversion Hin ]; vm_compute; eauto.
    + rewrite create_all_find, (Hnames n t cols Hin).
      repeat (apply elem_of_cons in Hin as [ [= -> -> ->] | Hin ]);
        [ .. | inversion Hin ]; reflexivity.
    + intros c Hc.
      destruct (find_table t (tables s)) as [ tcols | ] eqn:Ht.
      * destruct (Hdep t c tcols Ht) as (-> & _).
        apply (Hcols n t cols c Hin Hc). rewrite Ht. eauto.
      * left. destruct (Hnew t c Ht) as (-> & _).
        repeat (apply elem_of_cons in Hin as [ [= -> -> ->] | Hin ]);
          [ .. | inversion Hin ];
          repeat (apply elem_of_cons in Hc as [ -> | Hc ]);
          try (inversion Hc; fail); reflexivity.
Qed.

(** X24: [DB.__init__] leaves a database that has every table of the
    models; a table that was there keeps its columns, in their order,
    before any new one; a second start ends as the first one did, with
    the same schema. On a database of this or an earlier version, or a
    new one, it logs no warning, and afterwards every new column and
    every index of the list is there. *)
Theorem init_succeeds (s : schema) :
  (forall m, m ∈ model_tables ->
     is_Some (find_table m.1 (tables (init s).1))) /\
  (forall t cols, find_table t (tables s) = Some cols ->
     exists more, find_table t (tables (init s).1) = Some (cols ++ more)) /\
  init (init s).1 = init s /\
  (known s ->
     (init s).2 = [] /\
     (forall t c, (t, c) ∈ new_columns ->
        column_exists (init s).1 t c = true) /\
     (forall n t cols, (n, t, cols) ∈ index_definitions ->
        has_index n (indexes (init s).1) = true)).
Proof.
  unfold init.
  pose proof (migrate_extends (create_all s)) as Hext.
  assert (Htabs : forall m, m ∈ model_tables ->
            is_Some (find_table m.1 (tables (_migrate (create_all s)).1))).
  { intros m Hin. apply (extends_Some _ _ _ Hext).
    now apply create_all_tables. }
  split; [ exact Htabs | split; [ | split ] ].
  - intros t cols Ht. specialize (Hext t).
    now rewrite create_all_find, Ht in Hext.
  - rewrite (create_all_settled _ Htabs), !migrate_run.
    apply (run_twice _ migration_steps_compatible).
  - intros Hknown.
    destruct (migrate_of_ready _ (known_ready s Hknown)) as (Hw & Hc & Hi).
    split; [ exact Hw | split ].
    + intros t c Hin. now apply Hc.
    + intros n t cols Hin. now apply (Hi n t cols).
Qed.

Lemma empty_schema_known : known empty_schema.
Proof.
  split; [ | split ].
  - intros t c _ H. discriminate.
  - intros n t cols c _ _ (x & H). discriminate.
  - reflexivity.
Qed.

Lemma old_schema_ready : ready old_schema.
Proof.
  split.
  - intros t c Hin.
    repeat (apply elem_of_cons in Hin as [ [= -> ->] | Hin ]);
      [ .. | inversion Hin ];
      (split; [ vm_compute; eauto | intros H; vm_compute in H; discriminate ]).
  - intros n t cols Hin.
    repeat (apply elem_of_cons in Hin as [ [= -> -> ->] | Hin ]);
      [ .. | inversion Hin ];
      (split; [ vm_compute; eauto | split; [ reflexivity | ] ]);
      intros c Hc;
      repeat (apply elem_of_cons in Hc as [ -> | Hc ]);
      try (inversion Hc; fail);
      first [ left; reflexivity
            | right; apply (bool_decide_unpack _); vm_compute; reflexivity ].
Qed.

Lemma migrate_succeeds_witness :
  (_migrate old_schema).2 = [] /\
  has_index "ix_orders_user_status" (indexes (_migrate old_schema).1) = true.
Proof.
  split.
  - exact (proj1 (migrate_succeeds old_schema old_schema_ready)).
  - refine (proj2 (proj2 (migrate_succeeds old_schema old_schema_ready))
              _ "orders"%string ["user_id"; "status"]%string _).
    right. left.
Defined.

Lemma script_then_migrate_witness :
  (Migrate.migrate (Some old_schema) true).2 = Migrate.Completed.
Proof.
  destruct (script_then_migrate old_schema true)
    as (s1 & _ & _ & _ & _ & _ & _ & H).
  apply H; [ apply old_schema_ready | reflexivity ].
Defined.

Lemma init_succeeds_witness :
  (init empty_schema).2 = [] /\
  has_index "ix_market_news_timestamp" (indexes (init empty_schema).1) = true.
Proof.
  destruct (init_succeeds empty_schema) as (_ & _ & _ & H).
  destruct (H empty_schema_known) as (Hw & _ & Hi).
  split; [ exact Hw | ].
  apply (Hi _ "market_news"%string ["timestamp"%string]).
  apply (bool_decide_unpack _). vm_compute. reflexivity.
Defined.

End MigrationMore.

(** ** Users, sessions, assets and candles *)

Module UserFacts.

Import Database WebServer DatabaseMore.

Lemma find_app {A : Type} (f : A -> bool) (l1 l2 : list A) :
  List.find f (l1 ++ l2)
    = match List.find f l1 with
      | Some x => Some x
      | None => List.find f l2
      end.
Proof.
  induction l1 as [ | a l1 IH ]; cbn; [ reflexivity | ].
  now destruct (f a).
Qed.

Lemma query_user_Some (db : Db) (uid : string) (user : User) :
  query_user db uid = Some user -> user ∈ users db /\ user_id user = uid.
Proof.
  unfold query_user. intros (Hin & He)%find_some.
  split; [ now apply list_elem_of_In | now apply String.eqb_eq ].
Qed.

Lemma query_user_None (db : Db) (uid : string) :
  query_user db uid = None -> uid ∉ user_id <$> users db.
Proof.
  unfold query_user. intros H (u & -> & Hu)%list_elem_of_fmap.
  apply list_elem_of_In in Hu.
  pose proof (find_none _ _ H u Hu) as Hf. cbn in Hf.
  rewrite String.eqb_refl in Hf. discriminate.
Qed.

Lemma query_user_created (db : Db) (uid uid' : string) (user : User) :
  user_id user = uid ->
  query_user (mk_Db (users db ++ [user]) (holdings db) (orders db)) uid'
    = match query_user db uid' with
      | Some u => Some u
      | None => if String.eqb uid uid' then Some user else None
      end.
Proof.
  intros Hu. unfold query_user. cbn [users]. rewrite find_app. cbn.
  now rewrite Hu.
Qed.

(** X11: after [get_or_create_user] the user is in the database and is
    the one returned; a second call changes nothing and returns the same
    user; other users, holdings and orders are untouched; a user who was
    there is returned as stored, and a new one is added at the end with
    balance 10000.0 and no password; user ids that were distinct stay
    distinct. *)
Theorem get_or_create_user_spec (db : Db) (uid : string) :
  let db' := (get_or_create_user db uid).1 in
  let user := (get_or_create_user db uid).2 in
  query_user db' uid = Some user /\
  user_id user = uid /\
  get_or_create_user db' uid = (db', user) /\
  (forall uid', uid' <> uid -> query_user db' uid' = query_user db uid') /\
  holdings db' = holdings db /\
  orders db' = orders db /\
  (forall u, query_user db uid = Some u -> db' = db /\ user = u) /\
  (query_user db uid = None ->
     users db' = users db ++ [user] /\
     balance user = 10000%float /\ password_hash user = None) /\
  (NoDup (user_id <$> users db) -> NoDup (user_id <$> users db')).
Proof.
  intros db' user. unfold db', user, get_or_create_user.
  destruct (query_user db uid) as [ u | ] eqn:Hq; cbn [fst snd].
  - destruct (query_user_Some _ _ _ Hq) as (_ & Hu).
    rewrite Hq.
    split; [ reflexivity | split; [ exact Hu | split; [ reflexivity | ] ] ].
    split; [ reflexivity | split; [ reflexivity | split; [ reflexivity | ] ] ].
    split; [ now intros u' [= ->] | split; [ discriminate | auto ] ].
  - pose proof (query_user_created db uid uid (mk_User uid None 10000)
                  eq_refl) as Hsame.
    rewrite Hq, String.eqb_refl in Hsame. rewrite Hsame.
    split; [ reflexivity | split; [ reflexivity | split; [ reflexivity | ] ] ].
    split.
    { intros uid' Hne.
      rewrite (query_user_created db uid uid' (mk_User uid None 10000) eq_refl).
      destruct (query_user db uid'); [ reflexivity | ].
      apply not_eq_sym, String.eqb_neq in Hne. now rewrite Hne. }
    split; [ reflexivity | split; [ reflexivity | ] ].
    split; [ discriminate | split; [ now repeat split | ] ].
    intros Hnd. cbn [users]. rewrite fmap_app. apply NoDup_app.
    split; [ exact Hnd | split; [ | apply NoDup_singleton ] ].
    intros x Hx [ -> | H ]%elem_of_cons; [ | inversion H ].
    now apply (query_user_None db uid Hq).
Qed.

End UserFacts.

Module WebFacts.

Import Database WebServer DatabaseMore WebServerMore UserFacts.

Lemma get_current_user_Done (ss : sessions) (zrb_session : option string)
    (uid : string) :
  get_current_user ss zrb_session = Done uid <->
  exists token,
    zrb_session = Some token /\ token <> EmptyString /\
    ss !! token = Some uid.
Proof.
  unfold get_current_user. destruct zrb_session as [ token | ].
  - destruct (String.eqb_spec token "") as [ -> | Hne ].
    + split; [ discriminate | intros (t & [= <-] & H & _); now destruct H ].
    + destruct (ss !! token) as [ u | ] eqn:Hl.
      * split; [ intros [= ->]; eauto | ].
        intros (t & [= <-] & _ & H). congruence.
      * split; [ discriminate | ].
        intros (t & [= <-] & _ & H). congruence.
  - split; [ discriminate | intros (t & [=] & _) ].
Qed.

Lemma get_current_user_depends (ss ss' : sessions) (token : string) :
  ss' !! token = ss !! token ->
  get_current_user ss' (Some token) = get_current_user ss (Some token).
Proof. intros H. unfold get_current_user. now rewrite H. Qed.

Section LoginFacts.

Variable verify : string -> string -> option bool.

Abbreviation login := (login verify).

(** The two ways [login] ends. *)
Lemma login_cases (db : Db) (ss : sessions) (token : string)
    (data : LoginModel) :
  (exists user hash,
     query_user db (l_user_id data) = Some user /\
     password_hash user = Some hash /\ hash <> EmptyString /\
     verify (l_password data) hash = Some true /\
     login db ss token data
       = (<[ token := user_id user ]> ss,
          Done (mk_login_response token (user_id user) (balance user)))) \/
  ((login db ss token data).1 = ss /\
   forall resp, (login db ss token data).2 <> Done resp).
Proof.
  unfold WebServerMore.login.
  destruct (query_user db (l_user_id data)) as [ user | ] eqn:Hq;
    [ | right; split; [ reflexivity | discriminate ] ].
  destruct (password_hash user) as [ hash | ] eqn:Hh;
    [ | right; split; [ reflexivity | discriminate ] ].
  destruct (String.eqb_spec hash "") as [ -> | Hne ];
    [ right; split; [ reflexivity | discriminate ] | ].
  destruct (verify (l_password data) hash) as [ [] | ] eqn:Hv;
    [ | right; split; [ reflexivity | discriminate ].. ].
  left. exists user, hash. auto.
Qed.

(** X12: a login that succeeds has found the user, a password hash that
    is set, and a password that verifies; the cookie it sets
    authenticates as that user from then on, and what every other cookie
    authenticates as is unchanged. *)
Theorem login_session (db : Db) (ss : sessions) (token : string)
    (data : LoginModel) (resp : login_response) :
  (login db ss token data).2 = Done resp ->
  token <> EmptyString ->
  let ss' := (login db ss token data).1 in
  cookie resp = token /\
  r_user_id resp = l_user_id data /\
  get_current_user ss' (Some (cookie resp)) = Done (l_user_id data) /\
  (forall other, other <> token ->
     get_current_user ss' (Some other) = get_current_user ss (Some other)) /\
  exists user hash,
    query_user db (l_user_id data) = Some user /\
    password_hash user = Some hash /\ hash <> EmptyString /\
    verify (l_password data) hash = Some true /\
    r_balance resp = balance user.
Proof.
  intros Hdone Htok ss'. unfold ss'.
  destruct (login_cases db ss token data)
    as [ (user & hash & Hq & Hh & Hne & Hv & Hl) | (_ & Hno) ];
    [ | now destruct (Hno resp) ].
  rewrite Hl in Hdone |- *. cbn [fst snd] in *. injection Hdone as <-.
  destruct (query_user_Some _ _ _ Hq) as (_ & Hu). cbn [cookie r_user_id].
  split; [ reflexivity | split; [ exact Hu | split; [ | split ] ] ].
  - apply get_current_user_Done. exists token.
    split; [ reflexivity | split; [ exact Htok | ] ].
    now rewrite lookup_insert_eq, Hu.
  - intros other Hne'. apply get_current_user_depends.
    now apply lookup_insert_ne.
  - exists user, hash. auto.
Qed.

(** X13: a login that does not succeed leaves the sessions as they were;
    and a user whom [get_or_create_user] has just created cannot log in,
    whatever the password, until a password is set. *)
Theorem login_rejected (db : Db) (ss : sessions) (token : string)
    (data : LoginModel) :
  ((forall resp, (login db ss token data).2 <> Done resp) ->
     (login db ss token data).1 = ss) /\
  (query_user db (l_user_id data) = None ->
     login (get_or_create_user db (l_user_id data)).1 ss token data
       = (ss, HTTPError 400 "User not found or password not set")).
Proof.
  split.
  - intros Hno.
    destruct (login_cases db ss token data)
      as [ (user & hash & _ & _ & _ & _ & Hl) | (Hs & _) ];
      [ | exact Hs ].
    rewrite Hl in Hno. exfalso. exact (Hno _ eq_refl).
  - intros Hq.
    destruct (get_or_create_user_spec db (l_user_id data))
      as (Hfound & _ & _ & _ & _ & _ & _ & Hnew & _).
    destruct (Hnew Hq) as (_ & _ & Hpw).
    unfold WebServerMore.login. now rewrite Hfound, Hpw.
Qed.

(** X14: after [logout] the cookie authenticates as nobody, and what
    every other cookie authenticates as is unchanged; a second [logout]
    changes nothing; and the logout of a session that a login has just
    opened under a fresh token gives back the sessions from before the
    login. *)
Theorem logout_session (ss : sessions) (zrb_session : option string) :
  get_current_user (logout ss zrb_session) zrb_session
    = HTTPError 401 "Not authenticated" /\
  (forall other, Some other <> zrb_session ->
     get_current_user (logout ss zrb_session) (Some other)
       = get_current_user ss (Some other)) /\
  logout (logout ss zrb_session) zrb_session = logout ss zrb_session /\
  (forall db token data,
     token <> EmptyString -> ss !! token = None ->
     logout (login db ss token data).1 (Some token) = ss).
Proof.
  assert (Hlook : forall token,
            zrb_session = Some token -> token <> EmptyString ->
            logout ss zrb_session !! token = None).
  { intros token -> Hne. unfold logout.
    apply String.eqb_neq in Hne. rewrite Hne. cbn [negb andb].
    destruct (bool_decide_reflect (is_Some (ss !! token))) as [ Hs | Hs ].
    - apply lookup_delete_eq.
    - now apply eq_None_not_Some. }
  split; [ | split; [ | split ] ].
  - unfold get_current_user at 1. destruct zrb_session as [ token | ];
      [ | reflexivity ].
    destruct (String.eqb_spec token "") as [ -> | Hne ]; [ reflexivity | ].
    now rewrite (Hlook token eq_refl Hne).
  - intros other Hne. apply get_current_user_depends. unfold logout.
    destruct zrb_session as [ token | ]; [ | reflexivity ].
    destruct (negb (String.eqb token "") && bool_decide _); [ | reflexivity ].
    apply lookup_delete_ne. congruence.
  - destruct zrb_session as [ token | ]; [ | reflexivity ].
    unfold logout at 1.
    destruct (String.eqb_spec token "") as [ -> | Hne ]; [ reflexivity | ].
    cbn [negb andb]. rewrite (Hlook token eq_refl Hne).
    rewrite bool_decide_eq_false_2; [ reflexivity | ].
    now intros (x & [=]).
  - intros db token data Hne Hfresh.
    destruct (login_cases db ss token data)
      as [ (user & hash & _ & _ & _ & _ & Hl) | (Hs & _) ].
    + rewrite Hl. cbn [fst]. unfold logout.
      apply String.eqb_neq in Hne. rewrite Hne. cbn [negb andb].
      rewrite bool_decide_eq_true_2
        by (rewrite lookup_insert_eq; eauto).
      now apply delete_insert_id.
    + rewrite Hs. unfold logout. rewrite Hfresh.
      rewrite bool_decide_eq_false_2 by (intros (x & [=])).
      now rewrite andb_false_r.
Qed.


End LoginFacts.

(** *** Assets *)

Lemma leb_false_ltb (a b : float) :
  FloatRank.ordered a -> FloatRank.ordered b ->
  (a <=? b)%float = false -> (b <? a)%float = true.
Proof.
  intros Ha Hb H. apply (FloatOrder.ltb_rank _ _ Hb Ha).
  apply not_true_iff_false in H.
  destruct (FloatOrder.lt3_total (FloatRank.frank b) (FloatRank.frank a))
    as [ Hlt | [ Heq | Hgt ] ]; [ exact Hlt | | ];
    exfalso; apply H; apply (FloatOrder.leb_rank _ _ Ha Hb); auto.
Qed.

(** An amount that the leaderboard counts and that is a number is above
    the threshold of the asset list. *)
Lemma counted_above_threshold (q : float) :
  Leaderboard.is_dust q = false -> is_nan q = false ->
  (0.0001 <? q)%float = true.
Proof.
  unfold Leaderboard.is_dust. intros (H0 & Habs)%orb_false_iff Hnan.
  assert (Hq : FloatRank.ordered q)
    by now apply LeaderboardFacts.is_nan_ordered.
  assert (Hpos : (0 <? q)%float = true)
    by (apply leb_false_ltb; [ exact Hq | reflexivity | exact H0 ]).
  assert (Hq' : abs q = q).
  { apply Prim2SF_inj. rewrite abs_spec. revert Hpos.
    rewrite FloatAxioms.ltb_spec.
    change (Prim2SF 0) with (S754_zero false).
    destruct (Prim2SF q) as [ [] | [] | | [] m e ]; cbn;
      try discriminate; reflexivity. }
  rewrite Hq' in Habs. apply leb_false_ltb; [ exact Hq | reflexivity | exact Habs ].
Qed.

(** X16: the asset list of a user holds the balance of the user and, in
    the order of the table, the symbol and amount of each holding of the
    user whose amount is above 0.0001; every listed holding is one the
    leaderboard counts, and a holding the leaderboard counts is listed
    unless its amount is NaN. *)
Theorem assets_listing (db : Db) (uid : string) (bal : float)
    (hs : list (string * float)) :
  get_assets db uid = Done (bal, hs) ->
  (exists user, query_user db uid = Some user /\ bal = balance user) /\
  (forall sym amt,
     (sym, amt) ∈ hs <->
     exists h, h ∈ holdings db /\ h_user_id h = uid /\ h_symbol h = sym /\
               h_amount h = amt /\ (0.0001 <? amt)%float = true) /\
  (forall sym amt, (sym, amt) ∈ hs -> Leaderboard.is_dust amt = false) /\
  (forall h, h ∈ holdings db -> h_user_id h = uid ->
     Leaderboard.is_dust (h_amount h) = false ->
     is_nan (h_amount h) = false ->
     (h_symbol h, h_amount h) ∈ hs).
Proof.
  unfold get_assets.
  destruct (query_user db uid) as [ user | ] eqn:Hq; [ | discriminate ].
  intros [= <- <-].
  assert (Hin : forall sym amt,
     (sym, amt) ∈ map (fun h => (h_symbol h, h_amount h))
                    (List.filter (fun h => (0.0001 <? h_amount h)%float)
                       (List.filter (fun h => String.eqb (h_user_id h) uid)
                          (holdings db))) <->
     exists h, h ∈ holdings db /\ h_user_id h = uid /\ h_symbol h = sym /\
               h_amount h = amt /\ (0.0001 <? amt)%float = true).
  { intros sym amt. rewrite list_elem_of_In, in_map_iff. split.
    - intros (h & [= <- <-] & (Hh & Hamt)%filter_In).
      apply filter_In in Hh as (Hh & Hu).
      exists h. rewrite list_elem_of_In. apply String.eqb_eq in Hu. auto.
    - intros (h & Hh & Hu & <- & <- & Hamt). exists h.
      split; [ reflexivity | ]. rewrite !filter_In.
      rewrite <- list_elem_of_In. apply String.eqb_eq in Hu. auto. }
  split; [ eauto | split; [ exact Hin | split ] ].
  - intros sym amt (h & _ & _ & _ & _ & Hamt)%Hin.
    now apply LeaderboardFacts.not_dust_above_threshold.
  - intros h Hh Hu Hdust Hnan. apply Hin. exists h.
    split; [ exact Hh | split; [ exact Hu | ] ].
    split; [ reflexivity | split; [ reflexivity | ] ].
    now apply counted_above_threshold.
Qed.

(** *** Candles *)

Lemma StronglySorted_weaken {A : Type} (R R' : relation A) (l : list A) :
  (forall x y, R x y -> R' x y) ->
  StronglySorted R l -> StronglySorted R' l.
Proof.
  intros Himp. induction 1 as [ | x l Hs IH Hx ]; constructor;
    [ exact IH | ].
  eapply Forall_impl; [ exact Hx | ]. intros y. apply Himp.
Qed.

Lemma filter_filter {A : Type} (f g : A -> bool) (l : list A) :
  List.filter g (List.filter f l) = List.filter (fun x => f x && g x) l.
Proof.
  induction l as [ | x l IH ]; cbn; [ reflexivity | ].
  destruct (f x); cbn; [ | exact IH ].
  destruct (g x); now rewrite IH.
Qed.

Section KlineFacts.

Variable upper : string -> string.
Variable strptime : string -> option Z.
Variable strftime : Z -> string.

Abbreviation history := (history upper strptime).
Abbreviation selected := (selected upper strptime).

Lemma history_selected (rows : list MarketHistory) (symbol : string)
    (since : option string) (limit : Z) :
  history rows symbol since limit
    = take (Z.to_nat (clamp_limit limit))
        (PyList.sort_by mh_timestamp Z.ltb (selected rows symbol since)).
Proof.
  unfold WebServerMore.history, WebServerMore.selected, since_bound.
  cbv zeta. do 2 f_equal.
  assert (Hall : List.filter
                   (fun h => String.eqb (mh_symbol h) (upper symbol)) rows
                 = List.filter
                     (fun h => String.eqb (mh_symbol h) (upper symbol) && true)
                     rows)
    by (apply filter_ext; intros h; now rewrite andb_true_r).
  destruct since as [ text | ]; [ | exact Hall ].
  destruct (String.eqb text ""); [ exact Hall | ].
  destruct (strptime text); [ apply filter_filter | exact Hall ].
Qed.

(** X17: [get_kline] reads at most [clamp(limit)] rows, a number between
    1 and 5000: rows of the symbol in upper case, after [since] when it
    is given and can be read, in ascending order of their timestamps;
    they are the earliest of the selected rows. *)
Theorem kline_history (rows : list MarketHistory) (symbol : string)
    (since : option string) (limit : Z) :
  let hs := history rows symbol since limit in
  1 <= clamp_limit limit <= 5000 /\
  length hs
    = Nat.min (Z.to_nat (clamp_limit limit))
        (length (selected rows symbol since)) /\
  (forall h, h ∈ hs ->
     h ∈ rows /\ mh_symbol h = upper symbol /\
     forall since_dt, since_bound strptime since = Some since_dt ->
       since_dt < mh_timestamp h) /\
  StronglySorted (fun a b => mh_timestamp a <= mh_timestamp b) hs /\
  (exists rest,
     hs ++ rest ≡ₚ selected rows symbol since /\
     forall a b, a ∈ hs -> b ∈ rest -> mh_timestamp a <= mh_timestamp b) /\
  get_kline upper strptime strftime rows symbol since limit
    = (upper symbol,
       map (fun h => mk_candle (strftime (mh_timestamp h)) (mh_open h)
                       (mh_high h) (mh_low h) (mh_close h) (mh_volume h))
         hs).
Proof.
  intros hs.
  set (sorted := PyList.sort_by mh_timestamp Z.ltb
                   (selected rows symbol since)).
  assert (Hhs : hs = take (Z.to_nat (clamp_limit limit)) sorted)
    by apply history_selected.
  assert (Hperm : sorted ≡ₚ selected rows symbol since)
    by apply SortFacts.sort_Permutation.
  assert (Hsorted : StronglySorted
                      (fun a b => mh_timestamp a <= mh_timestamp b) sorted).
  { apply (StronglySorted_weaken
             (SortSpec.not_after
                (fun x y => mh_timestamp x <? mh_timestamp y))).
    - intros x y Hxy. unfold SortSpec.not_after in Hxy. lia.
    - apply SortFacts.sort_sorted. split.
      + intros x y _ _ H. lia.
      + intros x y z _ _ _ H1 H2. lia. }
  split; [ unfold clamp_limit; lia | split; [ | split; [ | split; [ | split ] ] ] ].
  - now rewrite Hhs, length_take, Hperm.
  - intros h Hh. rewrite Hhs in Hh. apply subseteq_take in Hh.
    rewrite Hperm in Hh. unfold WebServerMore.selected in Hh.
    apply list_elem_of_In, filter_In in Hh as (Hin & Hc).
    apply andb_true_iff in Hc as (Hsym & Hsince).
    split; [ now apply list_elem_of_In | ].
    split; [ now apply String.eqb_eq | ].
    intros since_dt Hb. rewrite Hb in Hsince. lia.
  - rewrite Hhs. now apply LeaderboardFacts.StronglySorted_take.
  - exists (drop (Z.to_nat (clamp_limit limit)) sorted). split.
    + now rewrite Hhs, take_drop.
    + intros a b Ha Hb. rewrite Hhs in Ha.
      apply (StronglySorted_app_1_elem_of
               (fun a b => mh_timestamp a <= mh_timestamp b)
               (take (Z.to_nat (clamp_limit limit)) sorted)
               (drop (Z.to_nat (clamp_limit limit)) sorted));
        [ now rewrite take_drop | exact Ha | exact Hb ].
  - reflexivity.
Qed.

End KlineFacts.

Example kline_example :
  mh_id <$> WebServerMore.history GateSpec.ascii_upper (fun _ => Some 10)
              ex_history "btc" (Some "2024-01-01 00:10"%string) 1
    = [3].
Proof. vm_compute. reflexivity. Qed.

(** *** Examples *)

Lemma login_session_witness :
  get_current_user
    (login ex_verify ex_accounts ∅ "t0" (mk_LoginModel "u2" "secret")).1
    (Some "t0"%string)
  = Done "u2"%string.
Proof.
  refine (proj1 (proj2 (proj2
            (login_session ex_verify ex_accounts ∅ "t0"
               (mk_LoginModel "u2" "secret")
               (mk_login_response "t0" "u2" 70) _ _)))).
  - reflexivity.
  - discriminate.
Defined.

Lemma login_rejected_witness :
  login ex_verify (get_or_create_user ex_accounts "u9").1 ∅ "t0"
    (mk_LoginModel "u9" "secret")
  = (∅, HTTPError 400 "User not found or password not set").
Proof.
  exact (proj2 (login_rejected ex_verify ex_accounts ∅ "t0"
                  (mk_LoginModel "u9" "secret")) eq_refl).
Defined.

Lemma logout_session_witness :
  logout (login ex_verify ex_accounts ∅ "t0" (mk_LoginModel "u2" "secret")).1
    (Some "t0"%string)
  = ∅.
Proof.
  refine (proj2 (proj2 (proj2 (logout_session ex_verify ∅ None)))
            ex_accounts "t0"%string (mk_LoginModel "u2" "secret") _ _).
  - discriminate.
  - reflexivity.
Defined.


Lemma assets_listing_witness :
  ("BTC"%string, 2%float) ∈ [("BTC"%string, 2%float)] <->
  exists h,
    h ∈ holdings ex_accounts /\ h_user_id h = "u2"%string /\
    h_symbol h = "BTC"%string /\ h_amount h = 2%float /\
    (0.0001 <? 2)%float = true.
Proof.
  exact (proj1 (proj2
           (assets_listing ex_accounts "u2" 70 [("BTC"%string, 2%float)]
              eq_refl))
           "BTC"%string 2%float).
Defined.

End WebFacts.

(** ** More of the order gate *)

Module GateMore.

Import Database WebServer GateSpec GateFacts UserFacts.



(** *** NaN *)

Lemma is_nan_spec (x : float) : is_nan x = true -> Prim2SF x = S754_nan.
Proof.
  intros H. destruct (FloatOrder.ordered_dec x) as [ Ho | Ho ].
  - apply LeaderboardFacts.is_nan_ordered in Ho. congruence.
  - rewrite FloatOrder.ordered_spec in Ho.
    destruct (Prim2SF x); try reflexivity; now destruct Ho.
Qed.

Lemma nan_leb (x y : float) : is_nan x = true -> (x <=? y)%float = false.
Proof.
  intros H%is_nan_spec. rewrite FloatAxioms.leb_spec, H. reflexivity.
Qed.

Lemma ltb_nan (x y : float) : is_nan y = true -> (x <? y)%float = false.
Proof.
  intros H%is_nan_spec. rewrite FloatAxioms.ltb_spec, H.
  now destruct (Prim2SF x) as [ [] | [] | | [] m e ].
Qed.

Lemma mul_nan_r (x y : float) : is_nan y = true -> is_nan (x * y) = true.
Proof.
  intros H%is_nan_spec. unfold is_nan.
  rewrite FloatAxioms.eqb_spec, mul_spec, H.
  now destruct (Prim2SF x) as [ [] | [] | | [] m e ].
Qed.

Lemma mul_nan_l (x y : float) : is_nan x = true -> is_nan (x * y) = true.
Proof.
  intros H%is_nan_spec. unfold is_nan.
  rewrite FloatAxioms.eqb_spec, mul_spec, H. reflexivity.
Qed.

Section TradeMore.

Variable upper : string -> string.
Variable match_single_order : Db -> Z -> Db * result unit.
Variable get_china_time : Z.
Variable random_rowid : Db -> option Z.

Abbreviation validate := (validate upper).
Abbreviation next_order_id := (next_order_id random_rowid).
Abbreviation trade :=
  (trade upper match_single_order get_china_time random_rowid).



(** The insert fails only when no rowid is left. *)
Lemma next_order_id_raises (db : Db) (e : exn) :
  next_order_id db = Raise e -> e = OperationalError /\ random_rowid db = None.
Proof.
  unfold WebServer.next_order_id.
  destruct (orders db) as [ | o l ]; [ discriminate | ].
  destruct (largest_order_id o l <? max_rowid); [ discriminate | ].
  destruct (random_rowid db); [ discriminate | ].
  now intros [= <-].
Qed.

(** X18: a request passes the checks of [trade] only if the market is
    open, the user exists, the symbol in upper case is tradable, the
    amount is not at or below zero, and either it is a buy whose
    estimated cost is not above the balance, or it is a sell of a holding
    that is not below the amount. *)
Theorem validate_accepts (market : Market) (db : Db) (uid : string)
    (data : TradeModel) (sym : string) :
  validate market db uid data = Ok sym ->
  is_open market = true /\
  sym = upper (symbol data) /\
  sym ∈ symbols market /\
  (amount data <=? 0)%float = false /\
  exists user,
    query_user db uid = Some user /\
    ((action data = "buy"%string /\
      exists cost,
        estimated_cost market sym data = Ok cost /\
        (balance user <? cost)%float = false) \/
     (action data = "sell"%string /\
      exists holding,
        query_holding db uid sym = Some holding /\
        (h_amount holding <? amount data)%float = false)).
Proof.
  unfold WebServer.validate.
  destruct (is_open market); cbn [negb]; [ | discriminate ].
  destruct (query_user db uid) as [ user | ] eqn:Hq; [ | discriminate ].
  destruct (bool_decide_reflect (upper (symbol data) ∈ symbols market))
    as [ Hsym | Hsym ]; cbn [negb]; [ | discriminate ].
  destruct (amount data <=? 0)%float eqn:Hamt; [ discriminate | ].
  destruct (check_action market db uid (upper (symbol data)) user data)
    as [ [] | e ] eqn:Hc; [ | discriminate ].
  intros [= <-].
  split; [ reflexivity | split; [ reflexivity | split; [ exact Hsym | ] ] ].
  split; [ reflexivity | ]. exists user. split; [ reflexivity | ].
  revert Hc. unfold check_action.
  destruct (String.eqb_spec (action data) "buy") as [ Hb | _ ].
  - destruct (estimated_cost market (upper (symbol data)) data)
      as [ cost | e ]; [ | discriminate ].
    destruct (balance user <? cost)%float eqn:Hlt; [ discriminate | ].
    intros _. left. eauto.
  - destruct (String.eqb_spec (action data) "sell") as [ Hs | _ ];
      [ | discriminate ].
    destruct (query_holding db uid (upper (symbol data))) as [ h | ];
      [ | discriminate ].
    destruct (h_amount h <? amount data)%float eqn:Hlt; [ discriminate | ].
    intros _. right. eauto.
Qed.


(** X20: the checks on the amount let NaN through: no comparison with
    NaN is true, so an amount that is NaN is not at or below zero, a cost
    computed from it is NaN and not above any balance, and no holding is
    below it. Such a buy passes whenever a price is found, and such a sell
    whenever the user has a row of the symbol. *)
Theorem nan_amount_accepted (market : Market) (db : Db) (uid : string)
    (data : TradeModel) (user : User) :
  is_open market = true ->
  query_user db uid = Some user ->
  upper (symbol data) ∈ symbols market ->
  is_nan (amount data) = true ->
  let sym := upper (symbol data) in
  (action data = "buy"%string ->
   forall p, est_price market sym data = Ok p ->
     validate market db uid data = Ok sym) /\
  (action data = "sell"%string ->
   forall holding, query_holding db uid sym = Some holding ->
     validate market db uid data = Ok sym).
Proof.
  intros Hopen Hq Hsym Hnan sym.
  assert (Hv : validate market db uid data
               = match check_action market db uid sym user data with
                 | Ok tt => Ok sym
                 | Raise e => Raise e
                 end).
  { unfold WebServer.validate. rewrite Hopen, Hq. cbn [negb].
    rewrite bool_decide_eq_true_2 by exact Hsym. cbn [negb].
    now rewrite (nan_leb _ _ Hnan). }
  rewrite Hv. unfold check_action. split.
  - intros Hb p Hp. rewrite Hb. cbn [String.eqb Ascii.eqb Bool.eqb].
    unfold estimated_cost. rewrite Hp.
    rewrite ltb_nan; [ reflexivity | ].
    apply mul_nan_l, mul_nan_r, Hnan.
  - intros Hs h Hh. rewrite Hs. cbn [String.eqb Ascii.eqb Bool.eqb].
    rewrite Hh. now rewrite (ltb_nan _ _ Hnan).
Qed.

(** The errors of the checks. *)
Lemma validate_errors (market : Market) (db : Db) (uid : string)
    (data : TradeModel) (e : exn) :
  validate market db uid data = Raise e ->
  let sym := upper (symbol data) in
  (e = HTTPException 400 MarketIsClosed /\ is_open market = false) \/
  (e = HTTPException 404 UserNotFound /\ query_user db uid = None) \/
  (e = HTTPException 400 InvalidSymbol /\ sym ∉ symbols market) \/
  (e = HTTPException 400 AmountMustBePositive /\
   (amount data <=? 0)%float = true) \/
  (exists cost user,
     e = HTTPException 400 (InsufficientBalanceNeed cost) /\
     action data = "buy"%string /\
     estimated_cost market sym data = Ok cost /\
     query_user db uid = Some user /\
     (balance user <? cost)%float = true) \/
  (e = KeyError sym /\ action data = "buy"%string /\
   prices market !! sym = None /\
   (price data = None \/
    exists p, price data = Some p /\ (p =? 0)%float = true)) \/
  (e = HTTPException 400 InsufficientHolding /\
   action data = "sell"%string /\
   (query_holding db uid sym = None \/
    exists holding,
      query_holding db uid sym = Some holding /\
      (h_amount holding <? amount data)%float = true)) \/
  (e = HTTPException 400 InvalidAction /\
   action data <> "buy"%string /\ action data <> "sell"%string).
Proof.
  intros Hv sym. revert Hv. unfold WebServer.validate.
  destruct (is_open market); cbn [negb];
    [ | intros [= <-]; left; now split ].
  destruct (query_user db uid) as [ user | ] eqn:Hq;
    [ | intros [= <-]; right; left; now split ].
  fold sym.
  destruct (bool_decide_reflect (sym ∈ symbols market)) as [ Hsym | Hsym ];
    cbn [negb]; [ | intros [= <-]; right; right; left; now split ].
  destruct (amount data <=? 0)%float eqn:Hamt;
    [ intros [= <-]; right; right; right; left; now split | ].
  destruct (check_action market db uid sym user data) as [ [] | e' ] eqn:Hc;
    [ discriminate | ].
  intros [= <-]. do 4 right. revert Hc. unfold check_action.
  destruct (String.eqb_spec (action data) "buy") as [ Hb | Hnb ].
  - destruct (estimated_cost market sym data) as [ cost | e0 ] eqn:Hcost.
    + destruct (balance user <? cost)%float eqn:Hlt; [ | discriminate ].
      intros [= <-]. left. exists cost, user. auto.
    + intros [= <-]. right. left. revert Hcost.
      unfold estimated_cost, est_price, PyNum.float_truthy.
      destruct (prices market !! sym) as [ mp | ] eqn:Hp.
      * destruct (price data) as [ p | ];
          [ destruct (p =? 0)%float | ]; discriminate.
      * destruct (price data) as [ p | ] eqn:Hprice.
        -- destruct (p =? 0)%float eqn:Hz; cbn [negb]; [ | discriminate ].
           intros [= <-]. split; [ reflexivity | split; [ exact Hb | ] ].
           split; [ reflexivity | right; eauto ].
        -- intros [= <-]. split; [ reflexivity | split; [ exact Hb | ] ].
           split; [ reflexivity | now left ].
  - destruct (String.eqb_spec (action data) "sell") as [ Hs | Hns ].
    + destruct (query_holding db uid sym) as [ h | ] eqn:Hh.
      * destruct (h_amount h <? amount data)%float eqn:Hlt;
          [ | discriminate ].
        intros [= <-]. right. right. left.
        split; [ reflexivity | split; [ exact Hs | right; eauto ] ].
      * intros [= <-]. right. right. left.
        split; [ reflexivity | split; [ exact Hs | now left ] ].
    + intros [= <-]. do 3 right. auto.
Qed.

(** X21: a call of [trade] raises in one of two ways. Either a check
    rejects the request, and then the database is as it was and the
    exception is one of: 400 "Market is closed" when the market is closed;
    404 "User not found"; 400 "Invalid symbol"; 400 "Amount must be
    positive"; for a buy, 400 "Insufficient balance" with the estimated
    cost, or [KeyError] when no limit price other than zero is given and
    the market has no price of the symbol; for a sell, 400 "Insufficient
    holding" when the user has no row of the symbol or one below the
    amount; 400 "Invalid action" for any other action. Or the request
    passes the checks, and then the insert fails with [OperationalError]
    because no rowid is left and the database is as it was, or the order is
    stored and the database is the one the matcher leaves: the exception is
    the matcher's, or [InvalidRequestError] because the order is no longer
    there. *)
Theorem trade_errors (market : Market) (db db' : Db) (uid : string)
    (data : TradeModel) (e : exn) :
  trade market db uid data = (db', Raise e) ->
  let sym := upper (symbol data) in
  (validate market db uid data = Raise e /\ db' = db /\
   ((e = HTTPException 400 MarketIsClosed /\ is_open market = false) \/
    (e = HTTPException 404 UserNotFound /\ query_user db uid = None) \/
    (e = HTTPException 400 InvalidSymbol /\ sym ∉ symbols market) \/
    (e = HTTPException 400 AmountMustBePositive /\
     (amount data <=? 0)%float = true) \/
    (exists cost user,
       e = HTTPException 400 (InsufficientBalanceNeed cost) /\
       action data = "buy"%string /\
       estimated_cost market sym data = Ok cost /\
       query_user db uid = Some user /\
       (balance user <? cost)%float = true) \/
    (e = KeyError sym /\ action data = "buy"%string /\
     prices market !! sym = None /\
     (price data = None \/
      exists p, price data = Some p /\ (p =? 0)%float = true)) \/
    (e = HTTPException 400 InsufficientHolding /\
     action data = "sell"%string /\
     (query_holding db uid sym = None \/
      exists holding,
        query_holding db uid sym = Some holding /\
        (h_amount holding <? amount data)%float = true)) \/
    (e = HTTPException 400 InvalidAction /\
     action data <> "buy"%string /\ action data <> "sell"%string))) \/
  (validate market db uid data = Ok sym /\
   ((e = OperationalError /\ next_order_id db = Raise e /\
     random_rowid db = None /\ db' = db) \/
    exists id,
      next_order_id db = Ok id /\
      let order :=
        mk_Order id uid sym
          (if String.eqb (action data) "buy" then BUY else SELL)
          (price data) (amount data) PENDING get_china_time in
      let db1 := mk_Db (users db) (holdings db) (orders db ++ [order]) in
      db' = (match_single_order db1 id).1 /\
      ((match_single_order db1 id).2 = Raise e \/
       (e = InvalidRequestError /\
        (match_single_order db1 id).2 = Ok tt /\
        List.find (fun o => Z.eqb (o_id o) id) (orders db') = None)))).
Proof.
  intros Ht sym. revert Ht. unfold WebServer.trade.
  destruct (validate market db uid data) as [ sym0 | e0 ] eqn:Hv.
  - assert (Hsym : sym0 = sym).
    { revert Hv. unfold WebServer.validate.
      destruct (negb (is_open market)); [ discriminate | ].
      destruct (query_user db uid); [ | discriminate ].
      destruct (negb (bool_decide _)); [ discriminate | ].
      destruct (amount data <=? 0)%float; [ discriminate | ].
      destruct (check_action _ _ _ _ _ _) as [ [] | ]; [ | discriminate ].
      now intros [= <-]. }
    subst sym0. intros Ht. right. split; [ reflexivity | ].
    destruct (next_order_id db) as [ id | e1 ] eqn:Hid;
      [ | left; injection Ht as <- <-;
          destruct (next_order_id_raises db e1 Hid) as (-> & Hr); auto ].
    right. exists id. split; [ reflexivity | ]. cbv zeta.
    destruct (match_single_order _ id) as [d m]. cbn [fst snd].
    destruct m as [ [] | e2 ].
    + destruct (List.find _ (orders d)) eqn:Hf; [ discriminate | ].
      injection Ht as <- <-. split; [ reflexivity | right; auto ].
    + injection Ht as <- <-. split; [ reflexivity | now left ].
  - intros [= <- <-]. left. split; [ reflexivity | split; [ reflexivity | ] ].
    exact (validate_errors market db uid data e0 Hv).
Qed.

End TradeMore.

Lemma validate_accepts_witness :
  exists user,
    query_user ex_db "u1" = Some user /\
    ((action (buy "btc" 0.25 None) = "buy"%string /\
      exists cost,
        estimated_cost ex_market "BTC" (buy "btc" 0.25 None) = Ok cost /\
        (balance user <? cost)%float = false) \/
     (action (buy "btc" 0.25 None) = "sell"%string /\
      exists holding,
        query_holding ex_db "u1" "BTC" = Some holding /\
        (h_amount holding <? amount (buy "btc" 0.25 None))%float = false)).
Proof.
  exact (proj2 (proj2 (proj2 (proj2
           (validate_accepts ascii_upper ex_market ex_db "u1"
              (buy "btc" 0.25 None) "BTC" eq_refl))))).
Defined.


Lemma nan_amount_accepted_witness :
  validate ascii_upper ex_market ex_db "u1" (buy "btc" nan None)
    = Ok "BTC"%string.
Proof.
  refine (proj1 (nan_amount_accepted ascii_upper ex_market ex_db "u1"
                   (buy "btc" nan None) ex_user eq_refl eq_refl _ eq_refl)
            eq_refl 100%float eq_refl).
  cbn. now apply elem_of_singleton.
Defined.

(** With a matcher that drops every order, [trade] raises
    [InvalidRequestError] after the checks have passed. *)
Lemma trade_errors_witness :
  let vanishing := fun (db : Db) (id : Z) =>
    (mk_Db (users db) (holdings db) [], Ok tt) in
  trade ascii_upper vanishing 0 no_random_rowid ex_market ex_db "u1"
    (buy "btc" 0.25 None)
    = (mk_Db [ex_user] [mk_UserHolding 1 "u1" "BTC" 2] [],
       Raise InvalidRequestError) /\
  validate ascii_upper ex_market ex_db "u1" (buy "btc" 0.25 None)
    = Ok "BTC"%string.
Proof.
  intros vanishing.
  assert (Ht : trade ascii_upper vanishing 0 no_random_rowid ex_market ex_db
                 "u1" (buy "btc" 0.25 None)
               = (mk_Db [ex_user] [mk_UserHolding 1 "u1" "BTC" 2] [],
                  Raise InvalidRequestError)) by reflexivity.
  split; [ exact Ht | ].
  destruct (trade_errors ascii_upper vanishing 0 no_random_rowid ex_market
              ex_db _ "u1" (buy "btc" 0.25 None) _ Ht)
    as [ (Hv & _) | (Hv & _) ]; [ discriminate Hv | exact Hv ].
Defined.

End GateMore.
